(* ===== verification/_CoqProject ===== *)
-Q . S2P
Prelude.v
Encoding.v
Field.v
Primality.v
FieldTheory.v
Sqrt.v
Jubjub.v
Decompress.v
Ephemeral.v
Gadgets.v
Blake2sRef.v
MintAsset.v
IoReader.v
PgkCodec.v
IoWriter.v
MintAssetCodec.v
MintAssetTest.v
