(* ===== verification/Prelude.v ===== *)
(** * A verification library for ironfish's Mint-Asset circuit and ephemeral key pair

    The program.  Two Rust source files of the repository are modelled:
    - [src/ironfish-zkp/src/circuits/mint_asset.rs]: the witness record
      [MintAsset] (an optional [ProofGenerationKey] [(ak, nsk)] and an optional
      rerandomiser [ar]), its byte codec [write]/[read], the serde bridge
      ([serialize], [deserialize_output], [visit_bytes]) and
      [Circuit::synthesize], which drives a constraint system through a fixed
      sequence of gadgets: witness [ak], assert [ak] not of small order,
      [rk = ak + [ar] SPENDING_KEY_GENERATOR] exposed as two public inputs,
      [nk = [nsk] PROOF_GENERATION_KEY_GENERATOR], the 512-bit preimage
      [repr ak ++ repr nk], Blake2s with [CRH_IVK_PERSONALIZATION], truncation to
      [Fr::CAPACITY] bits, [pk_d = [ivk] PUBLIC_KEY_GENERATOR] exposed as two
      public inputs.  The test module of the same file computes the public
      inputs out of circuit; that computation is modelled too.
    - [src/ironfish-rust/src/keys/ephemeral.rs]: [EphemeralKeyPair]
      ([new], [Default], the getters, [to_bytes_le], [from_bytes_le]) and the
      invariant its test asserts.

    The collaborators the sources only call (the fields of BLS12-381/Jubjub,
    the Jubjub curve, the bellperson constraint system and its gadgets,
    zcash's out-of-circuit key derivation and key encoding, [std::io::Read]
    on a slice) are not under [src/]; they are modelled from the
    specification and marked so in the manifest.

    Layout of the library (each file opens with its own summary):
    - [Prelude] (this file): the [result] type of fallible code with its bind
      notation in [iron_scope], the [Panic]s of the Rust code, injectivity
      lemmas that do not reduce their arguments, the tactics and the hint
      databases [iron]/[iron_rw], and generic lemmas on lists.
    - [Encoding]: little-endian digit strings, once for a generic base, then
      bytes ([le_bytes]/[le_value]) and bits ([bits_le]/[bits_value]), the
      byte-to-bit expansion used by the hash gadget; round trips and bounds.
    - [Field]: prime fields as canonical integers ([Fe m]), with the [ff]
      operations the sources use ([to_bytes], [from_bytes], [to_le_bits],
      [invert], [pow], [NUM_BITS], [CAPACITY]); [Fq] (the circuit field) and
      [Fr] (the Jubjub scalar field).
    - [Primality]: a Pocklington certificate checker, proved sound, and the
      certificate that [q] is prime (evaluated by [vm_compute]).
    - [FieldTheory]: the ring laws of [Fe m] for every [m] and the field law
      of [Fq] (Fermat), registered with [ring] and [field]; [invert] fails
      exactly on zero; square roots are unique up to sign.
    - [Sqrt]: [Fq]'s square root, Tonelli-Shanks with [S = 32] rounds, its
      loop invariant, soundness and completeness.
    - [Jubjub]: affine points, the twisted Edwards group law, scalar
      multiplication, the compressed 32-byte encoding and its bit [repr],
      extended points [(u, v, z, t1, t2)] with their projective equality as a
      setoid ([ext_eq], [Proper] instances), the 160-byte extended encoding
      (canonical both ways), the [Constants] interface (the three generators
      and the personalisation) and a test instance.
    - [Decompress]: [AffinePoint::from_bytes] (with ZIP 216),
      [is_torsion_free] and [SubgroupPoint::from_bytes]/[to_bytes]: every
      decoded point is on the curve, decoding inverts encoding on the curve,
      the encoding is canonical, the ZIP 216 encodings are rejected.
    - [Ephemeral]: the key pair, its getters, its invariant and its byte
      conversions.
    - [Gadgets]: the constraint system (namespace path, layout trace, public
      inputs, satisfaction flag, mode: proving or parameter generation) as a
      state-and-error monad [M], the gadgets [synthesize] calls with the
      errors bellperson raises, and [TestConstraintSystem::verify]; the
      [Blake2s] interface.
    - [Blake2sRef]: a reference BLAKE2s-256 with personalisation (RFC 7693)
      as an instance of [Blake2s], checked against test vectors.
    - [MintAsset]: the witness, [synthesize], the out-of-circuit public
      inputs, and the circuit's theorems.
    - [IoReader]: a reader monad over a byte slice ([read_u8], [read_exact],
      [UnexpectedEof]), the combinator lemmas [decodes] and
      [truncation_fails] that compose along its bind and over presence
      bytes, and the inversion lemmas of a successful reading.
    - [PgkCodec]: the [ProofGenerationKeyCodec] interface of the key encoding
      and its two instances, the compressed encoding of the specification
      ([ak] through [SubgroupPoint::to_bytes]/[from_bytes], then [nsk]) and
      the extended one.
    - [IoWriter]: a writer monad over a sink (a [Vec<u8>] or a fixed
      [&mut [u8]]) with [write_all]/[write_u8] and their [WriteZero] error,
      and the predicate [writes] that composes along its bind.
    - [MintAssetCodec]: [write] (the bytes written), [write_into] (the
      generic [write] with its [?]s), [read], the serde bridge
      ([serialize], [deserialize], [deserialize_output], [visit_bytes]) and
      their theorems, for any key encoding and with the compressed one.
    - [MintAssetTest]: [test_mint_asset_circuit] as the composition of the
      key derivation, the codec, synthesis and [verify], with the random
      draws as arguments.

    Interfaces.  The hash ([Blake2s]), the protocol constants ([Constants])
    and the key encoding ([ProofGenerationKeyCodec]) are type classes: the
    circuit's and the codec's theorems are proved for every instance, as the
    sources are generic over them, and the witnesses use concrete instances
    ([blake2s_instance], [test_constants], [compressed_pgk_codec]).  The
    key-encoding interface states what [MintAsset::read]/[write] need of
    [ProofGenerationKey::read]/[to_bytes_le]: on every valid key (for the
    compressed encoding, [ak] on the curve and torsion free) the reader
    decodes what the writer writes, up to the representation of [ak]; every
    truncation is an [UnexpectedEof]; and every key the reader returns is
    valid and was read from its own encoding.

    What is proved (groups of theorems):
    - the circuit ([MintAsset]): for a complete witness whose [ak] is not of
      small order, proving succeeds, records the fixed layout and exposes
      exactly the public inputs the out-of-circuit code computes (refinement
      of the bit-level circuit by the byte-level key derivation, including
      the 251-bit truncation of the digest, which agrees bit for bit with the
      masked [ivk]), and is satisfied exactly when [ak] is on the curve;
      [verify] then accepts exactly those inputs; a small-order [ak] fails
      with [DivisionByZero]; a missing witness part fails with
      [AssignmentMissing]; parameter generation never fails; every
      successful synthesis has the same layout; the preimage is always 512
      bits, so the [assert_eq!] never fires;
    - the test ([MintAssetTest]): with the compressed key encoding and a
      subgroup point [ak], for every random draw the test panics exactly
      when [ak] has small order, fails its bad-[rk] assertion exactly when
      the random point shares [rk]'s [u], and passes otherwise (its
      satisfaction assertion never fails);
    - the codec ([MintAssetCodec]): into an [n]-byte buffer the generic
      [write] succeeds exactly when the encoding fits and otherwise leaves
      its first [n] bytes and fails with [WriteZero];
      [read (write w ++ rest)] returns [w] (in the decoder's
      representation of [ak]) for every valid witness, and that witness
      synthesizes the same constraint system; what [read] returns re-encodes
      to a reading of exactly itself; ZIP 216 encodings of [ak] make [read] fail with
      [InvalidInput]; every truncation of [write w] is an [UnexpectedEof];
      presence bytes other than [1] read as absent; a non-canonical [ar]
      panics; the serde bridge round-trips, ignores trailing bytes and
      panics on malformed blobs;
    - the key pair ([Ephemeral]): the invariant [public == [secret] G] for
      [new] and [Default];
      [from_bytes_le (to_bytes_le kp) = kp]; the panic on short buffers; the
      decoder ignores what follows 192 bytes and does not re-check the
      invariant;
    - the library code underneath: [q] is prime (Pocklington), so [Fq] is a
      field; the square root finds a root of every square and halts within
      its [S] rounds; decompression returns curve points only, inverts
      compression, is canonical and rejects the ZIP 216 encodings; byte/bit
      round trips and bounds ([Encoding]), canonical scalar encodings
      ([Field]), the extended point encoding ([Jubjub]).

    Modelling choices.  Field elements are integers in [[0, m)]; inversion
    is Fermat's [a^(m-2)] as in the libraries.  The group law is the affine
    twisted Edwards formula; every scalar multiplication of the libraries
    (windowed fixed-base tables in circuit, double-and-add out of circuit) is
    modelled by the one function [Jubjub.scalar_mul], so in-circuit and
    out-of-circuit values agree exactly when their scalars agree, which is
    what the refinement theorem shows.  The gadgets' internal R1CS
    constraints are not modelled: a gadget records its layout event, computes
    its output value as the library does, raises the library's errors, and
    contributes to satisfaction only where the sources' inputs can violate it
    (the curve equation of the witnessed [ak]).  The [DivisionByZero]
    branches of Edwards addition and doubling are unreachable on curve points
    (Jubjub's addition is complete) and are left out.  Randomness
    ([thread_rng], the test's [StdRng]) is an explicit argument.  Writers
    write into a [Vec<u8>], the only sink the sources use, so writing never
    fails.  The square root is the classic Tonelli-Shanks loop where the
    library runs a constant-time variant with the same contract; its fuel
    is [S = 32], the 2-adicity of [q - 1]: each round strictly lowers the
    order [2^i] of [b], which starts at most [2^(S-1)], so [S] rounds
    suffice, and [Sqrt.sqrt_loop_halts] shows more fuel changes nothing.
    Every other function is structural, and the symbolic runs of
    [synthesize] unfold a fixed, finite sequence of steps.  The sources have
    no loop of their own.

    Not modelled: the R1CS constraint count (25341) and its assertion in the
    test, a property of the gadget library's internals; proof generation
    and verification beyond the public-input contract of
    [TestConstraintSystem]; the primality of [r] ([r - 1] has a 236-bit
    cofactor that is not factored here, and no theorem needs it); the group
    laws of Jubjub (associativity of the Edwards addition), which no theorem
    needs either, since every scalar multiplication goes through the one
    function [scalar_mul]. *)

From Stdlib Require Import ZArith List Lia Bool.
Import ListNotations.

(** ** Results of fallible code *)

(** [Ok]/[Err] mirror Rust's [Result]; the error type names the failure
    (an I/O error, a decoding failure, a panic). *)
Inductive result (E A : Type) : Type :=
| Ok (a : A)
| Err (e : E).
Arguments Ok {E A} a.
Arguments Err {E A} e.

Definition bind {E A B} (m : result E A) (k : A -> result E B) : result E B :=
  match m with
  | Ok a => k a
  | Err e => Err e
  end.

Definition map_err {E F A} (f : E -> F) (m : result E A) : result F A :=
  match m with
  | Ok a => Ok a
  | Err e => Err (f e)
  end.

(** The ways the Rust code panics. *)
Inductive Panic :=
| SliceIndexOutOfRange   (** [bytes[a..b]] with [b > bytes.len()] *)
| IndexOutOfBounds       (** [v[i]] with [i >= v.len()] *)
| UnwrapNone             (** [Option::unwrap()] of a failed decoding *)
| UnwrapErr.             (** [Result::unwrap()] of an [Err] *)

Declare Scope iron_scope.
Delimit Scope iron_scope with iron.

Notation "x <- m ;; k" := (bind m (fun x => k))
  (at level 60, m at next level, right associativity) : iron_scope.

Lemma bind_Ok_inv {E A B} (m : result E A) (k : A -> result E B) b :
  bind m k = Ok b -> exists a, m = Ok a /\ k a = Ok b.
Proof. destruct m; simpl; [eauto | discriminate]. Qed.

Lemma bind_Err_inv {E A B} (m : result E A) (k : A -> result E B) e :
  bind m k = Err e -> m = Err e \/ exists a, m = Ok a /\ k a = Err e.
Proof. destruct m; simpl; eauto. intros H; inversion H; auto. Qed.

(** Injectivity of the constructors, stated so that it is applied without
    reducing the arguments ([injection] would put them in head normal form,
    which on curve points means running field inversions). *)
Lemma Ok_inj {E A} (a b : A) : @Ok E A a = Ok b -> a = b.
Proof. congruence. Qed.

Lemma Some_inj' {A} (a b : A) : Some a = Some b -> a = b.
Proof. congruence. Qed.

Lemma pair_inj {A B} (a a' : A) (b b' : B) : (a, b) = (a', b') -> a = a' /\ b = b'.
Proof. intros H; injection H; auto. Qed.

Lemma map_Some_inj {A} (l1 l2 : list A) : map Some l1 = map Some l2 -> l1 = l2.
Proof.
  revert l2; induction l1 as [|x l1 IH]; intros [|y l2] H; try discriminate; auto.
  cbn [map] in H. injection H as -> H. f_equal. auto.
Qed.

(** ** Tactics *)

Ltac inv H := inversion H; subst; clear H.

(** Split a successful chain of binds into its steps. *)
Ltac bind_inv :=
  repeat match goal with
  | H : bind ?m _ = Ok _ |- _ =>
      let a := fresh "a" in let Ha := fresh "Ha" in
      apply bind_Ok_inv in H; destruct H as [a [Ha H]]
  end.

Create HintDb iron.
Create Rewrite HintDb iron_rw.

(** ** Lists *)

Lemma firstn_app_exact {A} (l1 l2 : list A) : firstn (length l1) (l1 ++ l2) = l1.
Proof. induction l1; simpl; f_equal; auto. Qed.

Lemma skipn_app_exact {A} (l1 l2 : list A) : skipn (length l1) (l1 ++ l2) = l2.
Proof. induction l1; simpl; auto. Qed.

Lemma firstn_app_exact' {A} n (l1 l2 : list A) : length l1 = n -> firstn n (l1 ++ l2) = l1.
Proof. intros <-. apply firstn_app_exact. Qed.

Lemma skipn_app_exact' {A} n (l1 l2 : list A) : length l1 = n -> skipn n (l1 ++ l2) = l2.
Proof. intros <-. apply skipn_app_exact. Qed.

Lemma firstn_app_le {A} n (l1 l2 : list A) :
  (n <= length l1)%nat -> firstn n (l1 ++ l2) = firstn n l1.
Proof.
  intros H. rewrite firstn_app. replace (n - length l1)%nat with 0%nat by lia.
  now rewrite firstn_O, app_nil_r.
Qed.

Lemma skipn_app_le {A} n (l1 l2 : list A) :
  (n <= length l1)%nat -> skipn n (l1 ++ l2) = skipn n l1 ++ l2.
Proof.
  intros H. rewrite skipn_app. replace (n - length l1)%nat with 0%nat by lia.
  reflexivity.
Qed.

(** A list of length [n + 1] is its first [n] elements and its last. *)
Lemma split_last {A} (l : list A) n d :
  length l = S n -> l = firstn n l ++ [nth n l d].
Proof.
  revert l; induction n as [|n IH]; intros [|x l] Hl; simpl in *; try discriminate.
  - destruct l; [reflexivity | discriminate].
  - f_equal. apply IH. lia.
Qed.

(** Skipping [S i] chunks of width [n] skips the first chunk and [i] more. *)
Lemma skipn_chunk {A} n i (a rest : list A) :
  length a = n -> skipn (n * S i) (a ++ rest) = skipn (n * i) rest.
Proof.
  intros <-. rewrite Nat.mul_succ_r, <- skipn_skipn.
  now rewrite skipn_app_exact.
Qed.

(** A suffix of a list is its next chunk followed by the rest. *)
Lemma skipn_split_chunk {A} k n (l : list A) :
  skipn k l = firstn n (skipn k l) ++ skipn (n + k) l.
Proof. rewrite <- skipn_skipn. symmetry. apply firstn_skipn. Qed.

#[export] Hint Rewrite @firstn_app_exact @skipn_app_exact : iron_rw.
#[export] Hint Rewrite length_app length_map length_firstn length_skipn : iron_rw.
