(* ===== verification/Encoding.v ===== *)
(** * Little-endian encodings of integers as bytes and as bits

    The sources move between three views of the same number: a field element,
    its 32-byte little-endian representation ([to_bytes], [from_bytes]), and
    its little-endian bit vector ([to_le_bits], [field_into_boolean_vec_le],
    the bit strings of the Blake2s gadget).  This file defines a generic
    little-endian digit string for a base [base] and proves its round trips
    and bounds once ([Section Digits]); bytes ([le_bytes]/[le_value]) and bits
    ([bits_le]/[bits_value]) are its two instances.  [bytes_to_bits] is the
    byte-to-bit expansion of bellperson's [UInt32::from_bits]/[into_bits]
    (least significant bit of each byte first). *)

From Stdlib Require Import ZArith List Lia Bool Strings.Byte.
From S2P Require Import Prelude.
Import ListNotations.
Local Open Scope Z_scope.

Section Digits.
Context {D : Type} (base : Z) (to_Z : D -> Z) (of_Z : Z -> D).
Hypothesis base_gt_1 : 1 < base.
Hypothesis to_of : forall z, to_Z (of_Z z) = z mod base.
Hypothesis of_to : forall d, of_Z (to_Z d) = d.
Hypothesis to_range : forall d, 0 <= to_Z d < base.

  (** The [n] low digits of [z], least significant first. *)
Fixpoint split_digits (n : nat) (z : Z) : list D :=
    match n with
    | O => []
    | S n => of_Z z :: split_digits n (z / base)
    end.

Fixpoint combine_digits (ds : list D) : Z :=
    match ds with
    | [] => 0
    | d :: ds => to_Z d + base * combine_digits ds
    end.

Lemma length_split_digits n z : length (split_digits n z) = n.
  Proof. revert z; induction n; simpl; auto. Qed.

Lemma of_Z_mod z : of_Z (z mod base) = of_Z z.
  Proof. rewrite <- to_of, of_to. reflexivity. Qed.

Lemma combine_split_digits n z :
    combine_digits (split_digits n z) = z mod base ^ Z.of_nat n.
  Proof.
    revert z; induction n as [|n IH]; intros z; cbn [split_digits combine_digits length].
    - now rewrite Z.mod_1_r.
    - rewrite IH, to_of, Nat2Z.inj_succ, Z.pow_succ_r by lia.
      rewrite Z.rem_mul_r by (try apply Z.pow_pos_nonneg; lia). reflexivity.
  Qed.

Lemma combine_digits_range ds :
    0 <= combine_digits ds < base ^ Z.of_nat (length ds).
  Proof.
    induction ds as [|d ds IH]; cbn [split_digits combine_digits length].
    - lia.
    - rewrite Nat2Z.inj_succ, Z.pow_succ_r by lia.
      specialize (to_range d). nia.
  Qed.

Lemma split_combine_digits ds :
    split_digits (length ds) (combine_digits ds) = ds.
  Proof.
    induction ds as [|d ds IH]; simpl; auto.
    specialize (to_range d) as Hd.
    rewrite <- of_Z_mod, (Z.mul_comm base), Z.mod_add, Z.mod_small, of_to by lia.
    f_equal. rewrite Z.div_add, Z.div_small, Z.add_0_l by lia. exact IH.
  Qed.

Lemma combine_digits_app ds1 ds2 :
    combine_digits (ds1 ++ ds2) =
    combine_digits ds1 + base ^ Z.of_nat (length ds1) * combine_digits ds2.
  Proof.
    induction ds1 as [|d ds1 IH]; cbn [split_digits combine_digits length app].
    - lia.
    - rewrite IH, Nat2Z.inj_succ, Z.pow_succ_r by lia. ring.
  Qed.

Lemma split_digits_add n m z :
    split_digits (n + m) z =
    split_digits n z ++ split_digits m (z / base ^ Z.of_nat n).
  Proof.
    revert z; induction n as [|n IH]; intros z; cbn [split_digits Nat.add app].
    - now rewrite Z.div_1_r.
    - rewrite IH, Z.div_div, Nat2Z.inj_succ, Z.pow_succ_r by (try apply Z.pow_pos_nonneg; lia).
      now rewrite Z.mul_comm.
  Qed.

Lemma firstn_split_digits k n z :
    (k <= n)%nat -> firstn k (split_digits n z) = split_digits k z.
  Proof.
    intros Hk. replace n with (k + (n - k))%nat by lia.
    rewrite split_digits_add. apply firstn_app_exact', length_split_digits.
  Qed.

Lemma mod_mul_parts z B :
    0 < B ->
    (z mod (base * B)) mod base = z mod base /\
    (z mod (base * B)) / base = (z / base) mod B.
  Proof.
    intros HB. rewrite Z.rem_mul_r by lia.
    specialize (Z.mod_pos_bound z base ltac:(lia)) as Hz.
    rewrite (Z.mul_comm base), Z.mod_add, Z.mod_mod, Z.div_add, Z.div_small by lia.
    split; reflexivity.
  Qed.

Lemma split_digits_mod n z :
    split_digits n (z mod base ^ Z.of_nat n) = split_digits n z.
  Proof.
    revert z; induction n as [|n IH]; intros z; cbn [split_digits combine_digits length]; auto.
    rewrite Nat2Z.inj_succ, Z.pow_succ_r by lia.
    destruct (mod_mul_parts z (base ^ Z.of_nat n)) as [H1 H2];
      [apply Z.pow_pos_nonneg; lia|].
    rewrite <- (of_Z_mod (z mod _)), H1, of_Z_mod, H2, IH. reflexivity.
  Qed.
End Digits.

(** ** Bytes *)

Definition byte_to_Z (b : Byte.byte) : Z := Z.of_N (Byte.to_N b).

Definition byte_of_Z (z : Z) : Byte.byte :=
  match Byte.of_N (Z.to_N (z mod 256)) with
  | Some b => b
  | None => Byte.x00
  end.

Lemma byte_to_Z_range b : 0 <= byte_to_Z b < 256.
Proof. unfold byte_to_Z. pose proof (Byte.to_N_bounded b). lia. Qed.

Lemma byte_to_of_Z z : byte_to_Z (byte_of_Z z) = z mod 256.
Proof.
  unfold byte_of_Z, byte_to_Z.
  pose proof (Z.mod_pos_bound z 256 ltac:(lia)) as Hz.
  destruct (Byte.of_N (Z.to_N (z mod 256))) as [b|] eqn:E.
  - apply Byte.to_of_N in E. rewrite E. lia.
  - apply Byte.of_N_None_iff in E. lia.
Qed.

Lemma byte_of_to_Z b : byte_of_Z (byte_to_Z b) = b.
Proof.
  unfold byte_of_Z, byte_to_Z.
  rewrite Z.mod_small by (pose proof (Byte.to_N_bounded b); lia).
  now rewrite N2Z.id, Byte.of_to_N.
Qed.

(** [le_bytes n z]: the [n]-byte little-endian representation of [z]
    (what [to_bytes] of a field element writes); [le_value]: its inverse. *)
Definition le_bytes : nat -> Z -> list Byte.byte := split_digits 256 byte_of_Z.
Definition le_value : list Byte.byte -> Z := combine_digits 256 byte_to_Z.

Lemma length_le_bytes n z : length (le_bytes n z) = n.
Proof. apply length_split_digits. Qed.

Lemma le_value_le_bytes n z : le_value (le_bytes n z) = z mod 2 ^ (8 * Z.of_nat n).
Proof.
  unfold le_value, le_bytes. rewrite combine_split_digits by first [lia | apply byte_to_of_Z].
  now rewrite Z.pow_mul_r by lia.
Qed.

Lemma le_bytes_le_value bs : le_bytes (length bs) (le_value bs) = bs.
Proof.
  apply split_combine_digits; auto using byte_to_of_Z, byte_of_to_Z, byte_to_Z_range; lia.
Qed.

Lemma le_value_range bs : 0 <= le_value bs < 2 ^ (8 * Z.of_nat (length bs)).
Proof.
  rewrite Z.pow_mul_r by lia. apply combine_digits_range; [lia | apply byte_to_Z_range].
Qed.

Lemma le_value_app bs1 bs2 :
  le_value (bs1 ++ bs2) = le_value bs1 + 2 ^ (8 * Z.of_nat (length bs1)) * le_value bs2.
Proof. unfold le_value. rewrite combine_digits_app, Z.pow_mul_r by lia. reflexivity. Qed.

(** ** Bits *)

Definition bits_le : nat -> Z -> list bool := split_digits 2 Z.odd.
Definition bits_value : list bool -> Z := combine_digits 2 Z.b2z.

Lemma b2z_odd z : Z.b2z (Z.odd z) = z mod 2.
Proof.
  rewrite Zmod_odd. now destruct (Z.odd z).
Qed.

Lemma odd_b2z b : Z.odd (Z.b2z b) = b.
Proof. now destruct b. Qed.

Lemma b2z_range b : 0 <= Z.b2z b < 2.
Proof. destruct b; simpl; lia. Qed.

Lemma length_bits_le n z : length (bits_le n z) = n.
Proof. apply length_split_digits. Qed.

Lemma bits_value_bits_le n z : bits_value (bits_le n z) = z mod 2 ^ Z.of_nat n.
Proof. apply combine_split_digits; [lia | apply b2z_odd]. Qed.

Lemma bits_le_bits_value bs : bits_le (length bs) (bits_value bs) = bs.
Proof. apply split_combine_digits; auto using b2z_odd, odd_b2z, b2z_range; lia. Qed.

Lemma bits_value_range bs : 0 <= bits_value bs < 2 ^ Z.of_nat (length bs).
Proof. apply combine_digits_range; [lia | apply b2z_range]. Qed.

Lemma bits_value_app bs1 bs2 :
  bits_value (bs1 ++ bs2) = bits_value bs1 + 2 ^ Z.of_nat (length bs1) * bits_value bs2.
Proof. apply combine_digits_app. Qed.

Lemma bits_le_add n m z :
  bits_le (n + m) z = bits_le n z ++ bits_le m (z / 2 ^ Z.of_nat n).
Proof. apply split_digits_add; lia. Qed.

Lemma firstn_bits_le k n z : (k <= n)%nat -> firstn k (bits_le n z) = bits_le k z.
Proof. intros; apply firstn_split_digits; lia. Qed.

Lemma bits_le_mod n z : bits_le n (z mod 2 ^ Z.of_nat n) = bits_le n z.
Proof. apply (split_digits_mod 2 Z.b2z); [lia | apply b2z_odd | apply odd_b2z]. Qed.

(** A value below [2^n] is its own [n]-bit truncation. *)
Lemma bits_value_bits_le_small n z :
  0 <= z < 2 ^ Z.of_nat n -> bits_value (bits_le n z) = z.
Proof. intros. rewrite bits_value_bits_le. now apply Z.mod_small. Qed.

(** Bit [j] of a bit string's value is its [j]-th bit, [false] past the
    end. *)
Lemma testbit_bits_value bs j : Z.testbit (bits_value bs) (Z.of_nat j) = nth j bs false.
Proof.
  revert j; induction bs as [|b bs IH]; intros j.
  - destruct j; apply Z.testbit_0_l.
  - change (bits_value (b :: bs)) with (Z.b2z b + 2 * bits_value bs).
    rewrite Z.add_comm. destruct j as [|j].
    + apply Z.testbit_0_r.
    + rewrite Nat2Z.inj_succ, Z.testbit_succ_r by lia. apply IH.
Qed.

#[export] Hint Rewrite length_le_bytes length_bits_le le_value_le_bytes
  bits_value_bits_le le_bytes_le_value bits_le_bits_value : iron_rw.

(** ** Bytes as bits *)

(** Each byte contributes its 8 bits, least significant first. *)
Definition byte_bits (b : Byte.byte) : list bool := bits_le 8 (byte_to_Z b).
Definition bytes_to_bits (bs : list Byte.byte) : list bool := flat_map byte_bits bs.

(** Bits packed into bytes, the last byte padded with zero bits. *)
Definition bits_to_bytes (bs : list bool) : list Byte.byte :=
  le_bytes (Nat.div (length bs + 7) 8) (bits_value bs).

Lemma length_bytes_to_bits bs : length (bytes_to_bits bs) = (8 * length bs)%nat.
Proof.
  unfold bytes_to_bits; induction bs as [|b bs IH]; cbn [flat_map length]; auto.
  rewrite length_app, IH. unfold byte_bits. rewrite length_bits_le. lia.
Qed.

Lemma bits_value_bytes_to_bits bs : bits_value (bytes_to_bits bs) = le_value bs.
Proof.
  unfold bytes_to_bits; induction bs as [|b bs IH]; cbn [flat_map]; auto.
  rewrite bits_value_app, IH. unfold byte_bits.
  rewrite length_bits_le, bits_value_bits_le, Z.mod_small by
    (pose proof (byte_to_Z_range b); simpl; lia).
  reflexivity.
Qed.

Lemma bytes_to_bits_le_bytes n z : bytes_to_bits (le_bytes n z) = bits_le (8 * n) z.
Proof.
  revert z; induction n as [|n IH]; intros z; auto.
  replace (8 * S n)%nat with (8 + 8 * n)%nat by lia.
  rewrite bits_le_add. unfold bytes_to_bits in *. cbn [le_bytes split_digits flat_map]. rewrite IH. unfold byte_bits.
  rewrite byte_to_of_Z.
  change 256 with (2 ^ Z.of_nat 8). rewrite bits_le_mod. reflexivity.
Qed.

Lemma bits_to_bytes_bytes_to_bits bs : bits_to_bytes (bytes_to_bits bs) = bs.
Proof.
  unfold bits_to_bytes. rewrite length_bytes_to_bits, bits_value_bytes_to_bits.
  replace ((8 * length bs + 7) / 8)%nat with (length bs)
    by (apply (Nat.div_unique _ _ _ 7); lia).
  apply le_bytes_le_value.
Qed.

#[export] Hint Rewrite length_bytes_to_bits bits_value_bytes_to_bits
  bytes_to_bits_le_bytes bits_to_bytes_bytes_to_bits : iron_rw.

(** Setting a bit above a value's width ([x |= b << n]) adds [b * 2^n]. *)
Lemma lor_shiftl_high a b n :
  0 <= n -> 0 <= a < 2 ^ n -> (b = 0 \/ b = 1) ->
  Z.lor a (Z.shiftl b n) = a + b * 2 ^ n.
Proof.
  intros Hn Ha Hb. rewrite Z.shiftl_mul_pow2 by lia.
  assert (Hland : Z.land a (b * 2 ^ n) = 0).
  2: { rewrite <- Z.lxor_lor, <- Z.add_nocarry_lxor by exact Hland. reflexivity. }
  destruct Hb as [-> | ->]; [now rewrite Z.mul_0_l, Z.land_0_r|].
  rewrite Z.mul_1_l. apply Z.bits_inj'. intros i Hi.
  rewrite Z.land_spec, Z.bits_0, Z.pow2_bits_eqb by lia.
  destruct (Z.eqb_spec n i) as [<-|]; [|apply andb_false_r].
  rewrite <- (Z.mod_small a (2 ^ n)) by lia.
  rewrite Z.mod_pow2_bits_high by lia. reflexivity.
Qed.

(** The top bit of an [(n+1)]-bit string splits off as the last bit. *)
Lemma bits_le_high_bit n a b :
  0 <= a < 2 ^ Z.of_nat n ->
  bits_le (S n) (a + Z.b2z b * 2 ^ Z.of_nat n) = bits_le n a ++ [b].
Proof.
  intros Ha. replace (S n) with (n + 1)%nat by lia.
  rewrite bits_le_add. f_equal.
  - rewrite <- bits_le_mod, Z.mod_add, Z.mod_small by lia. reflexivity.
  - rewrite Z.div_add, Z.div_small by lia. simpl. now destruct b.
Qed.

Lemma bytes_to_bits_app bs1 bs2 :
  bytes_to_bits (bs1 ++ bs2) = bytes_to_bits bs1 ++ bytes_to_bits bs2.
Proof. apply flat_map_app. Qed.

Lemma le_value_single b : le_value [b] = byte_to_Z b.
Proof. unfold le_value. simpl. lia. Qed.

(** Masking the last byte of an [(n+1)]-byte string with [2^k - 1]
    ([bs[n] &= ones(k)]) keeps the [8n + k] low bits of its value. *)
Lemma le_value_mask_last bs n k :
  length bs = S n -> 0 <= k <= 8 ->
  le_value (firstn n bs ++ [byte_of_Z (Z.land (byte_to_Z (nth n bs Byte.x00)) (Z.ones k))]) =
  le_value bs mod 2 ^ (8 * Z.of_nat n + k).
Proof.
  intros Hl Hk. rewrite (split_last bs n Byte.x00 Hl) at 3.
  rewrite !le_value_app, !le_value_single, byte_to_of_Z, length_firstn.
  replace (Nat.min n (length bs)) with n by lia.
  set (L := le_value (firstn n bs)). set (b := byte_to_Z (nth n bs Byte.x00)).
  assert (HL : 0 <= L < 2 ^ (8 * Z.of_nat n)).
  { pose proof (le_value_range (firstn n bs)) as R. rewrite length_firstn in R.
    replace (Nat.min n (length bs)) with n in R by lia. exact R. }
  assert (Hb : 0 <= b < 256) by apply byte_to_Z_range.
  assert (Hpk : 0 < 2 ^ k) by (apply Z.pow_pos_nonneg; lia).
  assert (Hpk8 : 2 ^ k <= 256) by (change 256 with (2 ^ 8); apply Z.pow_le_mono_r; lia).
  rewrite Z.land_ones by lia.
  rewrite (Z.mod_small (b mod 2 ^ k)) by (pose proof (Z.mod_pos_bound b (2 ^ k)); lia).
  rewrite Z.pow_add_r, Z.rem_mul_r by lia.
  rewrite (Z.mul_comm _ b).
  rewrite Z.mod_add by lia. rewrite (Z.mod_small L) by lia.
  rewrite Z.div_add by lia. rewrite Z.div_small by lia. reflexivity.
Qed.

(** The top [8 - k] bits of the last byte ([bs[n] >> k]) are the value's
    bits from [8n + k] on. *)
Lemma le_value_shiftr_last bs n k :
  length bs = S n -> 0 <= k <= 8 ->
  Z.shiftr (byte_to_Z (nth n bs Byte.x00)) k = le_value bs / 2 ^ (8 * Z.of_nat n + k).
Proof.
  intros Hl Hk. rewrite (split_last bs n Byte.x00 Hl) at 2.
  rewrite le_value_app, le_value_single, length_firstn.
  replace (Nat.min n (length bs)) with n by lia.
  pose proof (le_value_range (firstn n bs)) as R. rewrite length_firstn in R.
  replace (Nat.min n (length bs)) with n in R by lia.
  rewrite Z.shiftr_div_pow2, Z.pow_add_r, <- Z.div_div by (try apply Z.pow_pos_nonneg; lia).
  assert (0 < 2 ^ (8 * Z.of_nat n)) by (apply Z.pow_pos_nonneg; lia).
  rewrite (Z.mul_comm (2 ^ _)), Z.div_add, (Z.div_small (le_value _)) by lia. reflexivity.
Qed.

(** The first byte of an encoding has the parity of the value. *)
Lemma le_bytes_first_odd n z : Z.odd (byte_to_Z (nth 0 (le_bytes (S n) z) Byte.x00)) = Z.odd z.
Proof.
  cbn [le_bytes split_digits nth]. rewrite byte_to_of_Z, <- !Z.bit0_odd.
  change 256 with (2 ^ 8). apply Z.mod_pow2_bits_low. lia.
Qed.
