(* ===== verification/Field.v ===== *)
(** * Prime fields: the circuit field [Fq] and the Jubjub scalar field [Fr]

    An element of the field of order [m] is an integer in [[0, m)] carrying
    its range check as a boolean equation, so that equality of elements is
    equality of their values (as for Rust's canonical [ff::PrimeField]
    types).  The operations are the ones the sources and their collaborators
    use: arithmetic modulo [m], [invert] as Fermat's [a^(m-2)], the canonical
    32-byte little-endian encoding [to_bytes]/[from_bytes] (which rejects a
    non-canonical value), the little-endian bit decomposition, [is_odd],
    [NUM_BITS] and [CAPACITY].  [Fq] is BLS12-381's scalar field, the field of
    the constraint system and of Jubjub's coordinates ([blstrs::Scalar],
    [jubjub::Fq]); [Fr] is the scalar field of Jubjub's prime-order subgroup
    ([jubjub::Fr]). *)

From Stdlib Require Import ZArith List Lia Bool Eqdep_dec Strings.Byte.
From stdpp Require Import base decidable.
From S2P Require Import Prelude Encoding.
Import ListNotations.
Local Open Scope Z_scope.

Record Fe (m : positive) := mkFe {
  val : Z;
  val_range : (0 <=? val) && (val <? Zpos m) = true
}.
Arguments mkFe {m} val val_range.
Arguments val {m} _.
Arguments val_range {m} _.

Lemma Fe_range {m} (a : Fe m) : 0 <= val a < Zpos m.
Proof. pose proof (val_range a) as H. apply andb_prop in H. lia. Qed.

Lemma Fe_eq {m} (a b : Fe m) : val a = val b -> a = b.
Proof.
  destruct a as [x Hx], b as [y Hy]; simpl; intros ->.
  f_equal. apply UIP_dec, bool_dec.
Qed.

#[export] Instance Fe_eq_dec m : EqDecision (Fe m).
Proof.
  intros a b. destruct (Z.eq_dec (val a) (val b)) as [E|E].
  - left. now apply Fe_eq.
  - right. intros ->. now apply E.
Defined.

Section Ops.
Context {m : positive}.

Lemma mod_range z : (0 <=? z mod Zpos m) && (z mod Zpos m <? Zpos m) = true.
  Proof. pose proof (Z.mod_pos_bound z (Zpos m) ltac:(lia)). lia. Qed.

  (** Reduction of an integer into the field. *)
Definition of_Z (z : Z) : Fe m := mkFe (z mod Zpos m) (mod_range z).

Definition zero : Fe m := of_Z 0.
Definition one : Fe m := of_Z 1.
Definition add (a b : Fe m) : Fe m := of_Z (val a + val b).
Definition sub (a b : Fe m) : Fe m := of_Z (val a - val b).
Definition mul (a b : Fe m) : Fe m := of_Z (val a * val b).
Definition neg (a : Fe m) : Fe m := of_Z (- val a).
Definition square (a : Fe m) : Fe m := mul a a.
Definition is_zero (a : Fe m) : bool := val a =? 0.
Definition is_odd (a : Fe m) : bool := Z.odd (val a).

  (** Square-and-multiply, reducing at each step. *)
Fixpoint pow_pos (a : Z) (e : positive) : Z :=
    match e with
    | xH => a mod Zpos m
    | xO e => let h := pow_pos a e in (h * h) mod Zpos m
    | xI e => let h := pow_pos a e in (a * ((h * h) mod Zpos m)) mod Zpos m
    end.

Definition pow (a : Fe m) (e : Z) : Fe m :=
    match e with
    | Zpos e => of_Z (pow_pos (val a) e)
    | _ => one
    end.

  (** [invert] of the libraries: [a^(m-2)]; [0] has no inverse ([None]). *)
Definition invert (a : Fe m) : option (Fe m) :=
    if is_zero a then None else Some (pow a (Zpos m - 2)).

  (** Division with the convention [x / 0 = 0] ([a^(m-2)] of [0] is [0]). *)
Definition div (a b : Fe m) : Fe m := mul a (pow b (Zpos m - 2)).

  (** Canonical 32-byte little-endian encoding ([to_bytes]/[to_repr]). *)
Definition to_bytes (a : Fe m) : list Byte.byte := le_bytes 32 (val a).

  (** [from_bytes]/[from_repr]: [None] for a non-canonical value. *)
Definition from_bytes (bs : list Byte.byte) : option (Fe m) :=
    if (length bs =? 32)%nat && (le_value bs <? Zpos m)
    then Some (of_Z (le_value bs)) else None.

  (** The [n] low bits of the canonical representative, least significant
      first ([to_le_bits] truncated to [n] bits). *)
Definition to_le_bits (n : nat) (a : Fe m) : list bool := bits_le n (val a).

Lemma val_of_Z z : val (of_Z z) = z mod Zpos m.
  Proof. reflexivity. Qed.

Lemma of_Z_val a : of_Z (val a) = a.
  Proof. apply Fe_eq. simpl. apply Z.mod_small, Fe_range. Qed.

Lemma of_Z_small z : 0 <= z < Zpos m -> val (of_Z z) = z.
  Proof. intros. simpl. now apply Z.mod_small. Qed.

  (** Square-and-multiply computes [a^e mod m]. *)
Lemma pow_pos_spec a e : pow_pos a e = a ^ Zpos e mod Zpos m.
  Proof.
    induction e as [e IH|e IH|]; cbn [pow_pos]; rewrite ?IH, <- ?Z.mul_mod by lia.
    - rewrite Z.mul_mod_idemp_r, Pos2Z.inj_xI, Z.pow_add_r, Z.pow_1_r by lia.
      replace (2 * Zpos e) with (Zpos e + Zpos e) by lia.
      rewrite Z.pow_add_r by lia. f_equal. ring.
    - rewrite Pos2Z.inj_xO. replace (2 * Zpos e) with (Zpos e + Zpos e) by lia.
      now rewrite Z.pow_add_r by lia.
    - now rewrite Z.pow_1_r.
  Qed.

Lemma val_pow a e : 0 <= e -> val (pow a e) = val a ^ e mod Zpos m.
  Proof.
    intros He. destruct e as [|e|e]; [reflexivity | | lia].
    simpl. now rewrite pow_pos_spec, Z.mod_mod by lia.
  Qed.
End Ops.

#[export] Hint Rewrite @val_of_Z @of_Z_val : iron_rw.

(** ** The canonical encodings *)

Section Codec.
Context {m : positive}.
Hypothesis m_fits : Zpos m <= 2 ^ 256.

Lemma length_to_bytes (a : Fe m) : length (to_bytes a) = 32%nat.
  Proof. apply length_le_bytes. Qed.

Lemma le_value_to_bytes (a : Fe m) : le_value (to_bytes a) = val a.
  Proof.
    unfold to_bytes. rewrite le_value_le_bytes. apply Z.mod_small.
    pose proof (Fe_range a). simpl. lia.
  Qed.

  (** Decoding an encoding gives the element back. *)
Lemma from_bytes_to_bytes (a : Fe m) : from_bytes (to_bytes a) = Some a.
  Proof.
    unfold from_bytes. rewrite length_to_bytes, le_value_to_bytes.
    pose proof (Fe_range a).
    replace (val a <? Zpos m) with true by lia. simpl. now rewrite of_Z_val.
  Qed.

  (** Decoding is injective: a successful decoding re-encodes to its input. *)
Lemma to_bytes_from_bytes bs (a : Fe m) : from_bytes bs = Some a -> to_bytes a = bs.
  Proof.
    unfold from_bytes. destruct (Nat.eqb_spec (length bs) 32) as [Hl|];
      destruct (Z.ltb_spec (le_value bs) (Zpos m)); simpl; try discriminate.
    intros Heq; inv Heq. unfold to_bytes.
    pose proof (le_value_range bs).
    rewrite of_Z_small by lia. rewrite <- Hl. apply le_bytes_le_value.
  Qed.

  (** The decoding fails exactly on a wrong length or a non-canonical value. *)
Lemma from_bytes_None bs :
    from_bytes (m := m) bs = None <-> length bs <> 32%nat \/ Zpos m <= le_value bs.
  Proof.
    unfold from_bytes. destruct (Nat.eqb_spec (length bs) 32);
      destruct (Z.ltb_spec (le_value bs) (Zpos m)); simpl; split;
      first [discriminate | lia | auto].
  Qed.

  (** The [n]-bit decomposition of an element below [2^n] loses nothing. *)
Lemma bits_value_to_le_bits n (a : Fe m) :
    Zpos m <= 2 ^ Z.of_nat n -> bits_value (to_le_bits n a) = val a.
  Proof.
    intros Hn. apply bits_value_bits_le_small. pose proof (Fe_range a). lia.
  Qed.
Lemma bits_value_bits_le_val n (a : Fe m) :
    Zpos m <= 2 ^ Z.of_nat n -> bits_value (bits_le n (val a)) = val a.
  Proof. apply bits_value_to_le_bits. Qed.
End Codec.

(** ** The two fields *)

(** [blstrs::Scalar] = [jubjub::Fq]: the field of the constraint system and
    of Jubjub's coordinates. *)
Module Fq.
Definition modulus : positive :=
    0x73eda753299d7d483339d80809a1d80553bda402fffe5bfeffffffff00000001.
Abbreviation t := (Fe modulus).
Definition NUM_BITS : nat := 255.
Definition CAPACITY : nat := 254.

Lemma q_fits_256 : Zpos modulus <= 2 ^ 256.
  Proof. vm_compute. discriminate. Qed.

Lemma q_num_bits : 2 ^ Z.of_nat (NUM_BITS - 1) < Zpos modulus <= 2 ^ Z.of_nat NUM_BITS.
  Proof. split; vm_compute; [reflexivity | discriminate]. Qed.
End Fq.

(** [jubjub::Fr]: the scalar field of Jubjub's prime-order subgroup. *)
Module Fr.
Definition modulus : positive :=
    0x0e7db4ea6533afa906673b0101343b00a6682093ccc81082d0970e5ed6f72cb7.
Abbreviation t := (Fe modulus).
Definition NUM_BITS : nat := 252.
Definition CAPACITY : nat := 251.

Lemma r_fits_256 : Zpos modulus <= 2 ^ 256.
  Proof. vm_compute. discriminate. Qed.

Lemma r_num_bits : 2 ^ Z.of_nat (NUM_BITS - 1) < Zpos modulus <= 2 ^ Z.of_nat NUM_BITS.
  Proof. split; vm_compute; [reflexivity | discriminate]. Qed.

  (** Every [CAPACITY]-bit integer is a canonical scalar: this is why the
      truncation of the ivk hash needs no range check. *)
Lemma capacity_below_modulus : 2 ^ Z.of_nat CAPACITY < Zpos modulus.
  Proof. vm_compute. reflexivity. Qed.
End Fr.

#[export] Hint Resolve Fq.q_fits_256 Fr.r_fits_256 : iron.

(** ** Units *)

Section Units.
Context {m : positive}.
Hypothesis m_gt_1 : 1 < Zpos m.

Lemma pow_pos_one e : pow_pos (m := m) 1 e = 1.
  Proof.
    assert (H1 : 1 mod Zpos m = 1) by (apply Z.mod_small; lia).
    induction e as [e IH|e IH|]; cbn [pow_pos]; rewrite ?IH, ?Z.mul_1_l, ?H1; auto.
  Qed.

Lemma pow_one e : pow (m := m) one e = one.
  Proof.
    assert (H1 : val (of_Z (m := m) 1) = 1) by (rewrite val_of_Z; apply Z.mod_small; lia).
    destruct e; try reflexivity. apply Fe_eq. unfold one, pow.
    rewrite H1, pow_pos_one. exact H1.
  Qed.

Lemma mul_one_r (a : Fe m) : mul a one = a.
  Proof.
    apply Fe_eq. unfold mul, one. rewrite !val_of_Z, (Z.mod_small 1) by lia.
    rewrite Z.mul_1_r. apply Z.mod_small, Fe_range.
  Qed.
End Units.

Lemma Fq_modulus_gt_1 : 1 < Zpos Fq.modulus.
Proof. reflexivity. Qed.

Lemma Fr_modulus_gt_1 : 1 < Zpos Fr.modulus.
Proof. reflexivity. Qed.

#[export] Hint Resolve Fq_modulus_gt_1 Fr_modulus_gt_1 : iron.
