(* ===== verification/Primality.v ===== *)
(** * The modulus of [Fq] is prime

    [Fq] (BLS12-381's scalar field, Jubjub's base field) is a field because
    its modulus [q] is prime; the correctness of [invert] ([a^(q-2)], Fermat),
    of [to_affine], of square roots and of point decompression all rest on
    it.  The primality is proved by a Pocklington certificate checked by
    computation: [q - 1 = 2^32 * 3 * 11 * 19 * 10177 * 125527 * 859267 *
    906349^2 * 2508409 * 2529403 * 52437899 * 254760293^2], the witness [7],
    and every factor prime by trial division.  Pocklington's criterion is
    proved here from Fermat's little theorem of Stdlib's [Zmod] library: for
    a prime [p] dividing [N], the order of [a] modulo [p] is a multiple of
    every prime power [f^e] of the certificate, so [F] divides [p - 1] and
    [p > F >= sqrt N]. *)

From Stdlib Require Import ZArith List Lia Bool Zdivisibility.
From Stdlib Require Import Zmod.ZmodInv.
From S2P Require Import Prelude Field.
Import ListNotations.
Local Open Scope Z_scope.

(** ** The checkers *)

(** Trial division by [d, d+1, ...] while [d * d <= n]. *)
Fixpoint trial_ok (fuel : nat) (d n : Z) : bool :=
  (n <? d * d) ||
  match fuel with
  | O => false
  | S fuel => negb (n mod d =? 0) && trial_ok fuel (d + 1) n
  end.

Definition trial_prime (n : Z) : bool := (1 <? n) && trial_ok (Z.to_nat (Z.sqrt n)) 2 n.

Fixpoint prod_factors (fs : list (Z * Z)) : Z :=
  match fs with
  | [] => 1
  | (f, e) :: fs => f ^ e * prod_factors fs
  end.

(** One prime power [f^e] of the certificate: [f] prime, [f^e | N - 1],
    coprime to the rest of the product, and [gcd(a^((N-1)/f) - 1, N) = 1]. *)
Definition factor_ok (N : positive) (a : Z) (fe : Z * Z) (rest : Z) : bool :=
  let '(f, e) := fe in
  let x := (Zpos N - 1) / f in
  trial_prime f && (0 <=? e) && ((Zpos N - 1) mod f ^ e =? 0) &&
  (Z.gcd (f ^ e) rest =? 1) && (0 <? x) &&
  (Z.gcd (pow_pos (m := N) a (Z.to_pos x) - 1) (Zpos N) =? 1).

Fixpoint factors_ok (N : positive) (a : Z) (fs : list (Z * Z)) : bool :=
  match fs with
  | [] => true
  | fe :: fs => factor_ok N a fe (prod_factors fs) && factors_ok N a fs
  end.

Definition pocklington_check (N : positive) (a : Z) (fs : list (Z * Z)) : bool :=
  let F := prod_factors fs in
  (1 <? Zpos N) && (0 <? F) && (Zpos N <? (F + 1) * (F + 1)) &&
  (pow_pos (m := N) a (Z.to_pos (Zpos N - 1)) =? 1) && factors_ok N a fs.

(** ** Divisors *)

(** A composite [n] has a divisor [j > 1] with [j * j <= n]. *)
Lemma cofactor_small n k : (k | n) -> 1 < k < n -> exists j, 1 < j /\ j * j <= n /\ (j | n).
Proof.
  intros [c Hc] Hk. destruct (Z.le_gt_cases (k * k) n).
  - exists k. repeat split; [lia | lia | now exists c].
  - exists c. assert (1 < c) by nia. repeat split; [lia | nia | exists k; lia].
Qed.

(** Every [n > 1] has a prime divisor (in double negation, which is all the
    proofs by contradiction below need). *)
Lemma prime_divisor_nn n : 1 < n -> ~ ~ exists p, Z.prime p /\ (p | n).
Proof.
  intros Hn. remember (Z.to_nat n) as k eqn:Hk. revert n Hn Hk.
  induction k as [k IH] using lt_wf_ind. intros n Hn Hk Hno.
  apply Hno. exists n. split; [|apply Z.divide_refl].
  split; [lia|]. intros d Hd Hdn.
  apply (IH (Z.to_nat d) ltac:(lia) d ltac:(lia) eq_refl).
  intros [p [Hp Hpd]]. apply Hno. exists p. split; [exact Hp | eapply Z.divide_trans; eauto].
Qed.

Lemma coprime_divide_mul a b n : Z.coprime a b -> (a | n) -> (b | n) -> (a * b | n).
Proof.
  intros C [k ->] Hb. rewrite Z.mul_comm in Hb.
  apply Z.gauss in Hb; [|unfold Z.coprime in C; now rewrite Z.gcd_comm].
  destruct Hb as [c ->]. exists c. ring.
Qed.

Lemma trial_ok_sound fuel : forall d n k,
  trial_ok fuel d n = true -> 0 < d -> d <= k -> k * k <= n -> ~ (k | n).
Proof.
  induction fuel as [|fuel IH]; intros d n k H Hd Hdk Hkn Hdiv; cbn [trial_ok] in H;
    apply orb_true_iff in H as [H|H]; try (apply Z.ltb_lt in H; nia); try discriminate.
  apply andb_true_iff in H as [H1 H2]. apply negb_true_iff, Z.eqb_neq in H1.
  destruct (Z.eq_dec k d) as [->|Hne].
  - apply H1. now apply Z.mod_divide; [lia|].
  - apply (IH (d + 1) n k); auto; lia.
Qed.

Lemma trial_prime_sound n : trial_prime n = true -> Z.prime n.
Proof.
  unfold trial_prime. intros H. apply andb_true_iff in H as [H1 H2]. apply Z.ltb_lt in H1.
  split; [exact H1|]. intros k Hk Hkn.
  destruct (cofactor_small n k Hkn Hk) as [j [Hj [Hjj Hjn]]].
  exact (trial_ok_sound _ 2 n j H2 ltac:(lia) ltac:(lia) Hjj Hjn).
Qed.

(** ** The order of [a] modulo a prime *)

Section Order.
Variables p a : Z.
Hypothesis Hp : Z.prime p.

Lemma pow_mod_one_mul x y : 0 <= x -> 0 <= y -> a ^ x mod p = 1 -> a ^ (x * y) mod p = 1.
Proof.
  intros Hx Hy H. pose proof (Z.prime_ge_2 _ Hp).
  rewrite Z.pow_mul_r, <- Z.mod_pow_l, H by lia. rewrite Z.pow_1_l by lia.
  apply Z.mod_1_l. lia.
Qed.

Lemma pow_mod_one_divide d n : 0 <= d -> 0 <= n -> (d | n) -> a ^ d mod p = 1 -> a ^ n mod p = 1.
Proof.
  intros Hd Hn [c ->] H. destruct (Z.eq_dec d 0) as [->|Hd0].
  - rewrite Z.mul_0_r. exact H.
  - rewrite Z.mul_comm. apply pow_mod_one_mul; nia.
Qed.

Lemma pow_mod_one_gcd : forall k x y, (Z.to_nat y < k)%nat -> 0 <= x -> 0 <= y ->
  a ^ x mod p = 1 -> a ^ y mod p = 1 -> a ^ Z.gcd x y mod p = 1.
Proof.
  pose proof (Z.prime_ge_2 _ Hp).
  induction k as [|k IH]; intros x y Hk Hx Hy Ha Hb; [lia|].
  destruct (Z.eq_dec y 0) as [->|Hy0]; [now rewrite Z.gcd_0_r, Z.abs_eq|].
  assert (Hm : a ^ (x mod y) mod p = 1).
  { pose proof (Z.mod_pos_bound x y ltac:(lia)). assert (0 <= x / y) by (apply Z.div_pos; lia).
    rewrite (Z.div_mod x y), Z.pow_add_r, Z.mul_mod in Ha by nia.
    rewrite (pow_mod_one_mul y (x / y)), Z.mul_1_l, Z.mod_mod in Ha by (auto; lia).
    exact Ha. }
  rewrite (Z.gcd_comm x y), <- (Z.gcd_mod x y), Z.gcd_comm by lia.
  pose proof (Z.mod_pos_bound x y ltac:(lia)).
  apply (IH y (x mod y)); auto; lia.
Qed.

(** If [a^x = 1], [a^(x/f) <> 1] and [f^k | x], then every [y] with
    [a^y = 1] is a multiple of [f^k]. *)
Lemma prime_power_order f k x y :
  Z.prime f -> (f ^ Z.of_nat k | x) -> 0 < x -> a ^ x mod p = 1 -> a ^ (x / f) mod p <> 1 ->
  0 <= y -> a ^ y mod p = 1 -> (f ^ Z.of_nat k | y).
Proof.
  intros Hf [m Hm] Hx Hax Haxf Hy Hay. pose proof (Z.prime_ge_2 _ Hf).
  assert (Hk : forall j, (j <= k)%nat -> (f ^ Z.of_nat j | y)); [|now apply Hk].
  induction j as [|j IH]; intros Hj; [exists y; simpl; lia|].
  destruct (IH ltac:(lia)) as [y' Hy'].
  destruct (Z.eq_dec (y' mod f) 0) as [Hd|Hnd].
  - destruct (proj1 (Z.mod_divide y' f ltac:(lia)) Hd) as [c Hc]. exists c.
    rewrite Nat2Z.inj_succ, Z.pow_succ_r, Hy', Hc by lia. ring.
  - exfalso. apply Haxf.
    assert (Hfj : f ^ Z.of_nat k = f ^ Z.of_nat (k - j) * f ^ Z.of_nat j)
      by (rewrite <- Z.pow_add_r by lia; f_equal; lia).
    assert (Hfj0 : f ^ Z.of_nat j <> 0) by (apply Z.pow_nonzero; lia).
    assert (Hg : (f ^ Z.of_nat j | Z.gcd x y)).
    { apply Z.gcd_greatest; [exists (m * f ^ Z.of_nat (k - j)); rewrite Hm, Hfj; ring
                            | exists y'; exact Hy']. }
    destruct Hg as [z Hz].
    assert (Hzy : (z | y')).
    { apply (Z.mul_divide_cancel_r _ _ (f ^ Z.of_nat j)); auto.
      rewrite <- Hz, <- Hy'. apply Z.gcd_divide_r. }
    assert (Hzm : (z | f ^ Z.of_nat (k - j) * m)).
    { apply (Z.mul_divide_cancel_r _ _ (f ^ Z.of_nat j)); auto.
      rewrite <- Hz. replace (f ^ Z.of_nat (k - j) * m * f ^ Z.of_nat j) with x
        by (rewrite Hm, Hfj; ring). apply Z.gcd_divide_l. }
    apply Z.gauss in Hzm.
    2: { apply Z.coprime_pow_r; [lia|]. unfold Z.coprime. rewrite Z.gcd_comm.
         apply Z.coprime_prime_l; auto. intros Hfz. apply Hnd, Z.mod_divide; [lia|].
         eapply Z.divide_trans; eauto. }
    apply (pow_mod_one_divide (Z.gcd x y)); [apply Z.gcd_nonneg | apply Z.div_pos; lia | |].
    + rewrite Hz, Hm. destruct Hzm as [c ->].
      assert (Hk1 : Z.of_nat k = Z.of_nat (k - j - 1) + Z.of_nat j + 1) by lia.
      rewrite Hk1, !Z.pow_add_r, Z.pow_1_r by lia.
      exists (c * f ^ Z.of_nat (k - j - 1)).
      replace (c * z * (f ^ Z.of_nat (k - j - 1) * f ^ Z.of_nat j * f))
        with ((c * f ^ Z.of_nat (k - j - 1) * (z * f ^ Z.of_nat j)) * f) by ring.
      rewrite Z.div_mul by lia. ring.
    + apply (pow_mod_one_gcd (S (Z.to_nat y))); lia.
Qed.
End Order.

(** ** Pocklington's criterion *)

Section Pocklington.
Variables (N : positive) (a p : Z).
Hypothesis Hp : Z.prime p.
Hypothesis HpN : (p | Zpos N).
Hypothesis HN : 1 < Zpos N.
Hypothesis Ha : pow_pos (m := N) a (Z.to_pos (Zpos N - 1)) = 1.

Lemma pow_pos_mod_divisor e : 0 < e -> pow_pos (m := N) a (Z.to_pos e) mod p = a ^ e mod p.
Proof. intros He. rewrite pow_pos_spec, Z2Pos.id by lia. apply Z.mod_mod_divide, HpN. Qed.

Lemma fermat_at_N : a ^ (Zpos N - 1) mod p = 1.
Proof.
  pose proof (Z.prime_ge_2 _ Hp).
  rewrite <- pow_pos_mod_divisor, Ha by lia. apply Z.mod_1_l. lia.
Qed.

Lemma witness_unit : a mod p <> 0.
Proof.
  intros H0. pose proof fermat_at_N as H.
  rewrite <- Z.mod_pow_l, H0, Z.pow_0_l, Z.mod_0_l in H by (pose proof (Z.prime_ge_2 _ Hp); lia).
  discriminate.
Qed.

Lemma gcd_check_not_one e :
  0 < e -> Z.gcd (pow_pos (m := N) a (Z.to_pos e) - 1) (Zpos N) = 1 -> a ^ e mod p <> 1.
Proof.
  intros He Hg H1. pose proof (Z.prime_ge_2 _ Hp).
  assert (Hd : (p | pow_pos (m := N) a (Z.to_pos e) - 1)).
  { apply Z.mod_divide; [lia|].
    rewrite Zminus_mod, pow_pos_mod_divisor, H1, Z.mod_1_l by lia. reflexivity. }
  pose proof (Z.gcd_greatest _ _ _ Hd HpN) as Hg1. rewrite Hg in Hg1.
  apply Z.divide_pos_le in Hg1; lia.
Qed.

Lemma factors_divide fs : factors_ok N a fs = true -> (prod_factors fs | p - 1).
Proof.
  pose proof (Z.prime_ge_2 _ Hp) as Hp2.
  induction fs as [|[f e] fs IH]; cbn [factors_ok prod_factors]; intros H;
    [apply Z.divide_1_l|].
  apply andb_true_iff in H as [Hfe Hrest]. unfold factor_ok in Hfe.
  rewrite !andb_true_iff, Z.leb_le, !Z.eqb_eq, Z.ltb_lt in Hfe.
  destruct Hfe as [[[[[Hf He] Hdiv] Hcop] Hx] Hg]. apply trial_prime_sound in Hf.
  pose proof (Z.prime_ge_2 _ Hf) as Hf2.
  apply coprime_divide_mul; [exact Hcop | | now apply IH].
  replace e with (Z.of_nat (Z.to_nat e)) by lia.
  apply (prime_power_order p a Hp f _ (Zpos N - 1)); auto; try lia.
  - rewrite Z2Nat.id by lia. apply Z.mod_divide; [apply Z.pow_nonzero; lia | exact Hdiv].
  - exact fermat_at_N.
  - now apply gcd_check_not_one.
  - apply Z.fermat_nz; [exact Hp | exact witness_unit].
Qed.
End Pocklington.

(** A successful check proves [N] prime: a prime divisor [p <= sqrt N] of a
    composite [N] would have [F | p - 1], so [F < p <= sqrt N]. *)
Theorem pocklington N a fs : pocklington_check N a fs = true -> Z.prime (Zpos N).
Proof.
  unfold pocklington_check. rewrite !andb_true_iff, !Z.ltb_lt, Z.eqb_eq.
  intros [[[[H1 HF0] Hsq] Ha] Hfs]. split; [exact H1|]. intros k Hk Hkn.
  destruct (cofactor_small _ k Hkn Hk) as [j [Hj [Hjj Hjn]]].
  apply (prime_divisor_nn j Hj). intros [p [Hp Hpj]].
  assert (HpN : (p | Zpos N)) by (eapply Z.divide_trans; eauto).
  pose proof (factors_divide N a p Hp HpN H1 Ha fs Hfs) as HF.
  pose proof (Z.prime_ge_2 _ Hp).
  pose proof (Z.divide_pos_le (prod_factors fs) (p - 1) ltac:(lia) HF).
  pose proof (Z.divide_pos_le p j ltac:(lia) Hpj).
  nia.
Qed.

(** ** The certificate of [q] *)

Definition q_certificate : list (Z * Z) :=
  [(2, 32); (3, 1); (11, 1); (19, 1); (10177, 1); (125527, 1); (859267, 1);
   (906349, 2); (2508409, 1); (2529403, 1); (52437899, 1); (254760293, 2)].

Theorem Fq_prime : Z.prime (Zpos Fq.modulus).
Proof. apply (pocklington _ 7 q_certificate). vm_compute. reflexivity. Qed.
