(* ===== verification/FieldTheory.v ===== *)
(** * [Fe m] is a commutative ring, and [Fq] a field

    The arithmetic of [Field] is arithmetic on canonical representatives
    reduced modulo [m]; this file proves the ring laws for every modulus and,
    from the primality of [q] ([Primality.Fq_prime]), the field law of
    [invert]: [a * a^(q-2) = 1] for [a <> 0] (Fermat).  Both are registered
    with Stdlib's [ring] and [field] tactics for [Fq], the field of Jubjub's
    coordinates, and give the facts the curve code relies on: [invert]
    fails exactly on zero, products vanish only with a factor, and two
    square roots of the same value are equal up to sign. *)

From Stdlib Require Import ZArith List Lia Bool Zdivisibility Ring Field.
From Stdlib Require Import Zmod.ZmodInv.
From stdpp Require Import base decidable.
From S2P Require Import Prelude Field Primality.
Local Open Scope Z_scope.

(** ** The ring laws, for every modulus *)

Section Ring.
Context {m : positive}.

Lemma Fe_eq_mod (a b : Fe m) : val a mod Zpos m = val b mod Zpos m -> a = b.
Proof.
  intros H. apply Fe_eq. pose proof (Fe_range a). pose proof (Fe_range b).
  now rewrite !Z.mod_small in H.
Qed.

Lemma opp_mod_idemp x : (- (x mod Zpos m)) mod Zpos m = (- x) mod Zpos m.
Proof. rewrite <- !Z.sub_0_l. apply Zminus_mod_idemp_r. Qed.

(** Push every reduction out of a goal on values, then compare the
    polynomials. *)
Ltac fe_mod :=
  intros; apply Fe_eq_mod;
  unfold add, mul, sub, neg, zero, one; rewrite ?val_of_Z;
  repeat rewrite ?Z.mod_mod, ?Z.add_mod_idemp_l, ?Z.add_mod_idemp_r, ?Z.mul_mod_idemp_l,
    ?Z.mul_mod_idemp_r, ?Zminus_mod_idemp_l, ?Zminus_mod_idemp_r, ?opp_mod_idemp by lia;
  f_equal; ring.

Lemma Fe_ring_theory : ring_theory (@zero m) one add mul sub neg eq.
Proof. split; fe_mod. Qed.

Lemma mul_zero_l (a : Fe m) : mul zero a = zero.
Proof. fe_mod. Qed.

(** ** Powers *)

Lemma pow_add_r (a : Fe m) e1 e2 :
  0 <= e1 -> 0 <= e2 -> pow a (e1 + e2) = mul (pow a e1) (pow a e2).
Proof.
  intros H1 H2. apply Fe_eq_mod. unfold mul. rewrite val_of_Z, !val_pow by lia.
  now rewrite !Z.mod_mod, <- Z.mul_mod, Z.pow_add_r by lia.
Qed.

Lemma pow_mul_l (a b : Fe m) e : 0 <= e -> pow (mul a b) e = mul (pow a e) (pow b e).
Proof.
  intros He. apply Fe_eq_mod. unfold mul. rewrite !val_of_Z, !val_pow, val_of_Z by lia.
  now rewrite !Z.mod_mod, Z.mod_pow_l, <- Z.mul_mod, Z.pow_mul_l by lia.
Qed.

Lemma pow_pow (a : Fe m) e1 e2 : 0 <= e1 -> 0 <= e2 -> pow (pow a e1) e2 = pow a (e1 * e2).
Proof.
  intros H1 H2. apply Fe_eq_mod. rewrite !val_pow by nia.
  now rewrite Z.mod_pow_l, Z.pow_mul_r by lia.
Qed.

Lemma pow_1_r (a : Fe m) : pow a 1 = a.
Proof. apply Fe_eq_mod. rewrite val_pow by lia. now rewrite Z.pow_1_r, Z.mod_mod by lia. Qed.

Lemma pow_2_r (a : Fe m) : pow a 2 = mul a a.
Proof.
  apply Fe_eq_mod. unfold mul. rewrite val_pow, val_of_Z by lia.
  now rewrite Z.pow_2_r, Z.mod_mod by lia.
Qed.
End Ring.

(** ** [Fq] is a field *)

Module FqField.

Lemma q_gt_2 : 2 < Zpos Fq.modulus.
Proof. reflexivity. Qed.

Lemma one_neq_zero : @one Fq.modulus <> zero.
Proof. intros H. apply (f_equal val) in H. discriminate H. Qed.

(** Fermat's little theorem on field elements. *)
Lemma mul_pow_q_minus_2 (a : Fq.t) : a <> zero -> mul (pow a (Zpos Fq.modulus - 2)) a = one.
Proof.
  intros Ha. pose proof q_gt_2. apply Fe_eq_mod. unfold mul, one. rewrite !val_of_Z, val_pow by lia.
  rewrite Z.mod_mod, Z.mul_mod_idemp_l by lia.
  rewrite Z.mul_comm, <- Z.pow_succ_r by lia.
  replace (Z.succ (Zpos Fq.modulus - 2)) with (Zpos Fq.modulus - 1) by lia.
  rewrite Z.fermat_nz, Z.mod_1_l; [reflexivity | lia | exact Fq_prime |].
  rewrite Z.mod_small by apply Fe_range. intros H0. apply Ha, Fe_eq. exact H0.
Qed.

Definition inv (a : Fq.t) : Fq.t := pow a (Zpos Fq.modulus - 2).

Lemma Fq_field_theory : field_theory zero one add mul sub neg div inv eq.
Proof.
  split; [apply Fe_ring_theory | apply one_neq_zero | reflexivity | apply mul_pow_q_minus_2].
Qed.

End FqField.

Add Field Fq_field : FqField.Fq_field_theory.

(** ** Consequences for [Fq] *)

Section FqFacts.
Implicit Types a b x y : Fq.t.

(** [invert] fails exactly on zero, and otherwise returns the inverse. *)
Lemma invert_None a : invert a = None <-> a = zero.
Proof.
  unfold invert, is_zero. destruct (Z.eqb_spec (val a) 0) as [H|H]; split; try easy.
  - intros _. now apply Fe_eq.
  - intros ->. now contradict H.
Qed.

Lemma invert_Some a b : invert a = Some b -> mul a b = one.
Proof.
  unfold invert. destruct (is_zero a) eqn:Hz; [discriminate|]. intros Hb. apply Some_inj' in Hb.
  subst b. transitivity (mul (pow a (Zpos Fq.modulus - 2)) a); [ring|].
  apply FqField.mul_pow_q_minus_2. intros ->. discriminate.
Qed.

Lemma mul_eq_zero a b : mul a b = zero -> a = zero \/ b = zero.
Proof.
  intros H. destruct (decide (a = zero)) as [|Ha]; [now left|right].
  replace b with (mul (mul (FqField.inv a) a) b) by (field; exact Ha).
  change (mul (mul (pow a (Zpos Fq.modulus - 2)) a) b = zero).
  replace (mul (mul (pow a (Zpos Fq.modulus - 2)) a) b) with (mul (pow a (Zpos Fq.modulus - 2)) (mul a b))
    by ring.
  rewrite H. ring.
Qed.

(** Two square roots of the same value are equal up to sign. *)
Lemma square_eq x y : mul x x = mul y y -> x = y \/ x = neg y.
Proof.
  intros H. assert (Hp : mul (sub x y) (add x y) = zero)
    by (transitivity (sub (mul x x) (mul y y)); [ring | rewrite H; ring]).
  apply mul_eq_zero in Hp as [Hp|Hp]; [left|right].
  - transitivity (add (sub x y) y); [ring | rewrite Hp; ring].
  - transitivity (sub (add x y) y); [ring | rewrite Hp; ring].
Qed.
End FqFacts.

Section FqMore.
Implicit Types a b x y : Fq.t.

Lemma invert_nonzero a : a <> zero -> invert a = Some (FqField.inv a).
Proof.
  intros Ha. unfold invert, is_zero. destruct (Z.eqb_spec (val a) 0) as [H|H]; [|reflexivity].
  exfalso. apply Ha, Fe_eq. exact H.
Qed.

(** Fermat: [a^(q-1) = 1] for [a <> 0]. *)
Lemma pow_q_minus_1 a : a <> zero -> pow a (Zpos Fq.modulus - 1) = one.
Proof.
  intros Ha. pose proof FqField.q_gt_2.
  replace (Zpos Fq.modulus - 1) with ((Zpos Fq.modulus - 2) + 1) by lia.
  rewrite pow_add_r, pow_1_r by lia. now apply FqField.mul_pow_q_minus_2.
Qed.

Lemma neg_one_neq_one : @neg Fq.modulus one <> one.
Proof. intros H. apply (f_equal val) in H. discriminate H. Qed.

(** Parity of the opposite of a non-zero element ([q] is odd). *)
Lemma is_odd_neg a : a <> zero -> is_odd (neg a) = negb (is_odd a).
Proof.
  intros Ha. pose proof (Fe_range a).
  assert (val a <> 0) by (intros E; apply Ha, Fe_eq; exact E).
  assert (val a mod Zpos Fq.modulus <> 0) by (rewrite Z.mod_small; lia).
  unfold is_odd, neg. rewrite val_of_Z, Z.mod_opp_l_nz, Z.mod_small by lia.
  rewrite Z.odd_sub. reflexivity.
Qed.
End FqMore.
