(* ===== verification/Sqrt.v ===== *)
(** * Square roots in [Fq]

    [Fq::sqrt] (BLS12-381's scalar field, used by Jubjub's point
    decompression) is Tonelli–Shanks for [q - 1 = 2^S t] with [S = 32] and
    [t] odd: [w = a^((t-1)/2)], [x = a w], [b = x w = a^t], [z] the
    primitive [2^S]-th root of unity [ROOT_OF_UNITY = 7^t]; while [b <> 1],
    find the least [i] with [b^(2^i) = 1], and multiply [x] by
    [w = z^(2^(m-i-1))], [b] by [w^2], replace [z] by [w^2] and [m] by [i].
    The result is accepted only if it squares to [a] ([CtOption::new(x,
    x * x == a)]).  The crate runs the same iteration in constant time (a
    fixed number of rounds with conditional selects); the model is the
    variable-time loop with the same contract, run on fuel [S].

    Theorems: the loop keeps the invariant [x^2 = a b], [b^(2^(m-1)) = 1],
    [z^(2^(m-1)) = -1] with [m] strictly decreasing, so it halts within
    [S] rounds (more fuel changes nothing) with [b = 1]; hence [sqrt] returns
    a root for every square, and the root is the square's root up to sign. *)

From Stdlib Require Import ZArith List Lia Bool Ring Field.
From stdpp Require Import base decidable.
From S2P Require Import Prelude Field Primality FieldTheory.
Local Open Scope Z_scope.

Module Sqrt.

(** [x^(2^n)] by [n] squarings. *)
Fixpoint sqn (n : nat) (x : Fq.t) : Fq.t :=
  match n with
  | O => x
  | S n => square (sqn n x)
  end.

Definition S : nat := 32.

(** [(t - 1) / 2] for [q - 1 = 2^32 t]. *)
Definition T_MINUS1_OVER2 : Z :=
  6104339283789297388802252303364915521546564123189034618274734669823.

(** [7^t], a primitive [2^32]-th root of unity. *)
Definition ROOT_OF_UNITY : Fq.t :=
  of_Z 10238227357739495823651030575849232062558860180284477541189508159991286009131.

(** The least [i >= i0] with [c^(2^(i - i0)) = 1], where [c = b^(2^i0)];
    [fuel] bounds the search. *)
Fixpoint least_square_one (fuel i : nat) (c : Fq.t) : nat :=
  if decide (c = one) then i
  else match fuel with
       | O => i
       | Datatypes.S fuel => least_square_one fuel (Datatypes.S i) (square c)
       end.

(** The Tonelli–Shanks rounds. *)
Fixpoint ts_loop (fuel m : nat) (x b z : Fq.t) : Fq.t :=
  match fuel with
  | O => x
  | Datatypes.S fuel =>
      if decide (b = one) then x
      else
        let i := least_square_one m 0 b in
        let w := sqn (m - i - 1) z in
        ts_loop fuel i (mul x w) (mul b (square w)) (square w)
  end.

(** [Fq::sqrt]. *)
Definition sqrt (a : Fq.t) : option Fq.t :=
  let w := pow a T_MINUS1_OVER2 in
  let x := mul a w in
  let b := mul x w in
  let x := ts_loop S S x b ROOT_OF_UNITY in
  if decide (square x = a) then Some x else None.

(** The loop invariant: [x^2 = a b], [b] of order dividing [2^(m-1)], [z]
    of order exactly [2^m]. *)
Definition ts_inv (a : Fq.t) (m : nat) (x b z : Fq.t) : Prop :=
  (1 <= m)%nat /\ mul x x = mul a b /\ sqn (m - 1) b = one /\ sqn (m - 1) z = neg one.

(** ** Repeated squaring *)

Lemma sqn_add n k (x : Fq.t) : sqn n (sqn k x) = sqn (n + k) x.
Proof. induction n as [|n IH]; cbn [sqn]; [reflexivity|]. now rewrite IH. Qed.

Lemma sqn_mul n (x y : Fq.t) : sqn n (mul x y) = mul (sqn n x) (sqn n y).
Proof. induction n as [|n IH]; cbn [sqn]; [reflexivity|]. rewrite IH. unfold square. ring. Qed.

Lemma sqn_one n : sqn n one = one.
Proof. induction n as [|n IH]; cbn [sqn]; [reflexivity|]. rewrite IH. unfold square. ring. Qed.

Lemma sqn_pow n (x : Fq.t) : sqn n x = pow x (2 ^ Z.of_nat n).
Proof.
  induction n as [|n IH]; cbn [sqn].
  - now rewrite pow_1_r.
  - rewrite IH, Nat2Z.inj_succ, Z.pow_succ_r, Z.mul_comm, <- pow_pow by lia.
    now rewrite pow_2_r.
Qed.

(** A square root of one is [1] or [-1]. *)
Lemma square_one_cases (y : Fq.t) : square y = one -> y = one \/ y = neg one.
Proof.
  intros H. apply square_eq. unfold square in H. rewrite H. ring.
Qed.

(** ** The search for the order of [b] *)

Lemma least_square_one_spec (b : Fq.t) fuel : forall i,
  (forall j, (j < i)%nat -> sqn j b <> one) ->
  (exists k, (k <= i + fuel)%nat /\ sqn k b = one) ->
  let r := least_square_one fuel i (sqn i b) in
  sqn r b = one /\ forall j, (j < r)%nat -> sqn j b <> one.
Proof.
  induction fuel as [|fuel IH]; intros i Hlt [k [Hk Hb]]; cbn [least_square_one];
    destruct (decide (sqn i b = one)) as [E|E]; auto.
  - exfalso. assert (k = i) as -> by (destruct (Nat.lt_ge_cases k i); [now apply Hlt in H | lia]).
    contradiction.
  - apply (IH (Datatypes.S i)); [|exists k; split; [|exact Hb]].
    + intros j Hj. destruct (Nat.eq_dec j i) as [->|]; [exact E | apply Hlt; lia].
    + destruct (Nat.eq_dec k i) as [->|]; [contradiction|].
      destruct (Nat.lt_ge_cases k i); [now apply Hlt in H | lia].
Qed.

(** ** One round *)

Section Round.
Variables (a x b z : Fq.t) (m : nat).
Hypothesis Hinv : ts_inv a m x b z.
Hypothesis Hb : b <> one.

Lemma round_order :
  let i := least_square_one m 0 b in (1 <= i < m)%nat /\ sqn (i - 1) b = neg one.
Proof.
  intros i. destruct Hinv as [Hm [_ [Hbm _]]].
  destruct (least_square_one_spec b m 0 ltac:(intros; lia)) as [Hi Hmin].
  { exists (m - 1)%nat. split; [lia | exact Hbm]. }
  change (sqn 0 b) with b in Hi, Hmin. change (least_square_one m 0 b) with i in Hi, Hmin.
  clearbody i.
  assert (1 <= i)%nat by (destruct i; [cbn [sqn] in Hi; contradiction | lia]).
  assert (i < m)%nat.
  { destruct (Nat.lt_ge_cases i m); [auto | exfalso; apply (Hmin (m - 1)%nat); [lia | exact Hbm]]. }
  split; [lia|].
  destruct (square_one_cases (sqn (i - 1) b)) as [E|E]; [| |exact E].
  - change (square (sqn (i - 1) b)) with (sqn (Datatypes.S (i - 1)) b).
    now replace (Datatypes.S (i - 1)) with i by lia.
  - exfalso. apply (Hmin (i - 1)%nat); [lia | exact E].
Qed.

Lemma round_inv :
  let i := least_square_one m 0 b in
  let w := sqn (m - i - 1) z in
  ts_inv a i (mul x w) (mul b (square w)) (square w) /\ (i < m)%nat.
Proof.
  pose proof round_order as Hr. cbv zeta in *. destruct Hr as [Hi Hbi].
  destruct Hinv as [Hm [Hx [Hbm Hzm]]].
  remember (least_square_one m 0 b) as i eqn:Ei. clear Ei.
  assert (Hw : sqn (i - 1) (square (sqn (m - i - 1) z)) = neg one).
  { change (square (sqn (m - i - 1) z)) with (sqn 1 (sqn (m - i - 1) z)). rewrite !sqn_add.
    replace (i - 1 + 1 + (m - i - 1))%nat with (m - 1)%nat by lia. exact Hzm. }
  repeat split; try lia.
  - transitivity (mul (mul x x) (square (sqn (m - i - 1) z))); [unfold square; ring|].
    rewrite Hx. unfold square. ring.
  - rewrite sqn_mul, Hbi, Hw. ring.
  - exact Hw.
Qed.
End Round.

(** ** The loop *)

(** With fuel at least [m], the loop ends on a square root of [a]. *)
Lemma ts_loop_root fuel : forall m x b z a,
  ts_inv a m x b z -> (m <= fuel)%nat -> mul (ts_loop fuel m x b z) (ts_loop fuel m x b z) = a.
Proof.
  induction fuel as [|fuel IH]; intros m x b z a Hinv Hf; [destruct Hinv; lia|].
  cbn [ts_loop]. destruct (decide (b = one)) as [->|Hb].
  - destruct Hinv as [_ [Hx _]]. rewrite Hx. ring.
  - destruct (round_inv a x b z m Hinv Hb) as [Hinv' Hi].
    apply IH; [exact Hinv' | lia].
Qed.

(** The loop halts within [m] rounds: more fuel gives the same result. *)
Lemma ts_loop_stable fuel : forall m x b z a k,
  ts_inv a m x b z -> (m <= fuel)%nat -> ts_loop (fuel + k) m x b z = ts_loop fuel m x b z.
Proof.
  induction fuel as [|fuel IH]; intros m x b z a k Hinv Hf; [destruct Hinv; lia|].
  cbn [ts_loop Nat.add]. destruct (decide (b = one)) as [->|Hb]; [reflexivity|].
  destruct (round_inv a x b z m Hinv Hb) as [Hinv' Hi].
  apply (IH _ _ _ _ a); [exact Hinv' | lia].
Qed.

(** On [0] every round keeps [x = 0]. *)
Lemma ts_loop_zero fuel : forall m b z, ts_loop fuel m zero b z = zero.
Proof.
  induction fuel as [|fuel IH]; intros m b z; cbn [ts_loop]; [reflexivity|].
  destruct (decide (b = one)); [reflexivity|]. rewrite mul_zero_l. apply IH.
Qed.

(** ** The start *)

Lemma root_of_unity_order : sqn (S - 1) ROOT_OF_UNITY = neg one.
Proof. apply Fe_eq. vm_compute. reflexivity. Qed.

(** [b = a^t] for [a = y^2], [y <> 0]: Euler's criterion [a^((q-1)/2) = 1]. *)
Lemma start_order (y : Fq.t) :
  y <> zero ->
  let a := mul y y in
  let w := pow a T_MINUS1_OVER2 in
  sqn (S - 1) (mul (mul a w) w) = one.
Proof.
  intros Hy a w. unfold w, a. pose proof FqField.q_gt_2.
  assert (0 <= T_MINUS1_OVER2) by (unfold T_MINUS1_OVER2; lia).
  replace (mul (mul (mul y y) (pow (mul y y) T_MINUS1_OVER2)) (pow (mul y y) T_MINUS1_OVER2))
    with (pow y (2 + 2 * T_MINUS1_OVER2 + 2 * T_MINUS1_OVER2)).
  2: { rewrite !pow_add_r, <- !pow_pow, pow_2_r by lia. ring. }
  rewrite sqn_pow, pow_pow by (lia || (apply Z.pow_nonneg; lia)).
  replace ((2 + 2 * T_MINUS1_OVER2 + 2 * T_MINUS1_OVER2) * 2 ^ Z.of_nat (S - 1))
    with ((Zpos Fq.modulus - 2) + 1) by reflexivity.
  rewrite pow_add_r, pow_1_r by lia.
  exact (FqField.mul_pow_q_minus_2 y Hy).
Qed.

Lemma start_inv (y : Fq.t) :
  y <> zero ->
  let a := mul y y in
  let w := pow a T_MINUS1_OVER2 in
  ts_inv a S (mul a w) (mul (mul a w) w) ROOT_OF_UNITY.
Proof.
  intros Hy a w. unfold ts_inv. split; [unfold S; lia|].
  split; [unfold a, w; ring|]. split; [apply start_order, Hy | exact root_of_unity_order].
Qed.

(** ** The contract of [sqrt] *)

Lemma sqrt_sound (a x : Fq.t) : sqrt a = Some x -> mul x x = a.
Proof.
  unfold sqrt. case_decide as H; [|discriminate]. intros E. apply Some_inj' in E. now subst x.
Qed.

Lemma sqrt_square (y : Fq.t) : exists x, sqrt (mul y y) = Some x /\ mul x x = mul y y.
Proof.
  unfold sqrt. cbv zeta. destruct (decide (y = zero)) as [->|Hy].
  - assert (Hz : mul (@zero Fq.modulus) zero = zero) by ring.
    rewrite Hz, !mul_zero_l, ts_loop_zero.
    rewrite decide_True by (unfold square; ring). eexists; split; [reflexivity | ring].
  - pose proof (ts_loop_root S _ _ _ _ _ (start_inv y Hy) (le_n _)) as Hr.
    rewrite decide_True by exact Hr. eexists; split; [reflexivity | exact Hr].
Qed.

(** [sqrt] finds a root of every square, and that root is the square's
    root up to sign. *)
Theorem sqrt_complete (y : Fq.t) : exists x, sqrt (mul y y) = Some x /\ (x = y \/ x = neg y).
Proof.
  destruct (sqrt_square y) as [x [Hs Hx]]. exists x. split; [exact Hs | now apply square_eq].
Qed.

(** On a non-zero square the Tonelli–Shanks loop of [sqrt] halts
    within its [S] rounds: any further fuel returns the same root. *)
Theorem sqrt_loop_halts (y : Fq.t) (k : nat) :
  is_zero y = false ->
  let a := mul y y in
  let w := pow a T_MINUS1_OVER2 in
  ts_loop (S + k) S (mul a w) (mul (mul a w) w) ROOT_OF_UNITY =
  ts_loop S S (mul a w) (mul (mul a w) w) ROOT_OF_UNITY.
Proof.
  intros Hy a w. apply (ts_loop_stable _ _ _ _ _ a); [|reflexivity].
  apply start_inv. intros ->. discriminate Hy.
Qed.

End Sqrt.

Module SqrtWitnesses.
Import Sqrt.

Lemma sqrt_loop_halts_witness :
  is_zero (@one Fq.modulus) = false /\
  ts_loop (S + 3) S (mul (mul one one) (pow (mul one one) T_MINUS1_OVER2))
    (mul (mul (mul one one) (pow (mul one one) T_MINUS1_OVER2)) (pow (mul one one) T_MINUS1_OVER2))
    ROOT_OF_UNITY =
  ts_loop S S (mul (mul one one) (pow (mul one one) T_MINUS1_OVER2))
    (mul (mul (mul one one) (pow (mul one one) T_MINUS1_OVER2)) (pow (mul one one) T_MINUS1_OVER2))
    ROOT_OF_UNITY.
Proof.
  assert (H : is_zero (@one Fq.modulus) = false) by reflexivity.
  split; [exact H | exact (sqrt_loop_halts one 3 H)].
Defined.

End SqrtWitnesses.
