(* ===== verification/Jubjub.v ===== *)
(** * The Jubjub curve

    Jubjub is the twisted Edwards curve [-u^2 + v^2 = 1 + d u^2 v^2] over
    [Fq] with [d = -(10240/10241)].  This file holds what the sources use of
    the [jubjub] crate and of bellperson's [EdwardsPoint] gadget:
    - [AffinePoint] with the curve equation [is_on_curve], the group law
      [add] (the complete twisted Edwards formula the in-circuit [add]
      gadget computes), [double], [scalar_mul] ([[s] P]), and the test
      [u([8] P) = 0] of [assert_not_small_order];
    - the compressed 32-byte encoding [to_bytes] ([v] little-endian with the
      parity of [u] in the top bit) and the in-circuit bit representation
      [repr_bits] ([v]'s 255 bits followed by [u]'s low bit), which agree
      bit for bit ([bytes_to_bits_to_bytes]);
    - [ExtendedPoint] [(u, v, z, t1, t2)], the representation of
      [SubgroupPoint], with the projective equality [ext_eq] (two points are
      equal when their affine images are) as a setoid, the group operations
      lifted to it as [Proper] morphisms, and the 160-byte extended encoding
      [to_bytes_le]/[from_bytes_le] of [SubgroupPoint]. *)

From Stdlib Require Import ZArith List Lia Bool Strings.Byte Morphisms Setoid.
From stdpp Require Import base decidable.
From S2P Require Import Prelude Encoding Field.
Import ListNotations.
Local Open Scope Z_scope.

Definition EDWARDS_D : Fq.t :=
  of_Z 19257038036680949359750312669786877991949435402254120286184196891950884077233.

Record AffinePoint := mkAffine { get_u : Fq.t; get_v : Fq.t }.

#[export] Instance AffinePoint_eq_dec : EqDecision AffinePoint.
Proof. intros [u1 v1] [u2 v2]. unfold Decision. decide equality; apply Fe_eq_dec. Defined.

Definition identity : AffinePoint := mkAffine zero one.

Definition is_on_curve (p : AffinePoint) : bool :=
  let u2 := square (get_u p) in
  let v2 := square (get_v p) in
  bool_decide (add (neg u2) v2 = add one (mul EDWARDS_D (mul u2 v2))).

(** [u3 = (u1 v2 + v1 u2) / (1 + d u1 u2 v1 v2)],
    [v3 = (v1 v2 + u1 u2) / (1 - d u1 u2 v1 v2)]. *)
Definition point_add (p q : AffinePoint) : AffinePoint :=
  let (u1, v1) := p in
  let (u2, v2) := q in
  let t := mul EDWARDS_D (mul (mul u1 u2) (mul v1 v2)) in
  mkAffine (div (add (mul u1 v2) (mul v1 u2)) (add one t))
           (div (add (mul v1 v2) (mul u1 u2)) (sub one t)).

Definition point_double (p : AffinePoint) : AffinePoint := point_add p p.

Definition point_neg (p : AffinePoint) : AffinePoint := mkAffine (neg (get_u p)) (get_v p).

(** [[e] P] for a positive [e], least significant bit first. *)
Fixpoint mul_pos (e : positive) (p : AffinePoint) : AffinePoint :=
  match e with
  | xH => p
  | xO e => mul_pos e (point_double p)
  | xI e => point_add p (mul_pos e (point_double p))
  end.

(** [[s] P]; scalars are canonical field elements, so [s >= 0]. *)
Definition scalar_mul (s : Z) (p : AffinePoint) : AffinePoint :=
  match s with
  | Zpos e => mul_pos e p
  | _ => identity
  end.

(** [assert_not_small_order] doubles three times and requires a non-zero
    [u]: the points of order dividing 8 have [u([8] P) = 0]. *)
Definition small_order_u (p : AffinePoint) : bool :=
  is_zero (get_u (point_double (point_double (point_double p)))).

(** ** The compressed encoding and the bit representation *)

(** [AffinePoint::to_bytes]: [tmp = v.to_bytes(); tmp[31] |= u[0] << 7]. *)
Definition point_to_bytes (p : AffinePoint) : list Byte.byte :=
  le_bytes 32 (Z.lor (val (get_v p)) (Z.shiftl (Z.b2z (is_odd (get_u p))) 255)).

(** [EdwardsPoint::repr]: [v.to_bits_le_strict()] followed by the first bit
    of [u.to_bits_le_strict()]. *)
Definition repr_bits (p : AffinePoint) : list bool :=
  to_le_bits Fq.NUM_BITS (get_v p) ++ [is_odd (get_u p)].

Lemma Fq_below_2_255 (a : Fq.t) : 0 <= val a < 2 ^ Z.of_nat Fq.NUM_BITS.
Proof. pose proof (Fe_range a). pose proof Fq.q_num_bits. lia. Qed.

Lemma point_to_bytes_value p :
  Z.lor (val (get_v p)) (Z.shiftl (Z.b2z (is_odd (get_u p))) 255) =
  val (get_v p) + Z.b2z (is_odd (get_u p)) * 2 ^ Z.of_nat Fq.NUM_BITS.
Proof.
  apply lor_shiftl_high; [lia | apply Fq_below_2_255 | now destruct (is_odd _); [right|left]].
Qed.

Lemma length_point_to_bytes p : length (point_to_bytes p) = 32%nat.
Proof. apply length_le_bytes. Qed.

Lemma length_repr_bits p : length (repr_bits p) = 256%nat.
Proof. unfold repr_bits, to_le_bits. rewrite length_app, length_bits_le. reflexivity. Qed.

(** The in-circuit [repr] of a point is the bit expansion of its compressed
    encoding: hashing [repr] bits in circuit and hashing [to_bytes] out of
    circuit see the same input. *)
Lemma bytes_to_bits_point_to_bytes p : bytes_to_bits (point_to_bytes p) = repr_bits p.
Proof.
  unfold point_to_bytes, repr_bits, to_le_bits.
  rewrite point_to_bytes_value, bytes_to_bits_le_bytes.
  apply bits_le_high_bit, Fq_below_2_255.
Qed.

#[export] Hint Rewrite length_point_to_bytes length_repr_bits bytes_to_bits_point_to_bytes : iron_rw.

(** ** Extended points and [SubgroupPoint] *)

(** [jubjub::ExtendedPoint]: [u = U/Z], [v = V/Z], [T1 T2 = U V / Z]. *)
Record ExtendedPoint := mkExtended {
  ext_u : Fq.t; ext_v : Fq.t; ext_z : Fq.t; ext_t1 : Fq.t; ext_t2 : Fq.t
}.

#[export] Instance ExtendedPoint_eq_dec : EqDecision ExtendedPoint.
Proof. intros [] []. unfold Decision. repeat decide equality; apply Fe_eq_dec. Defined.

(** [AffinePoint::from(ExtendedPoint)]: multiply by [z^-1]. *)
Definition to_affine (e : ExtendedPoint) : AffinePoint :=
  let zinv := pow (ext_z e) (Zpos Fq.modulus - 2) in
  mkAffine (mul (ext_u e) zinv) (mul (ext_v e) zinv).

(** [ExtendedPoint::from(AffinePoint)]: [(u, v, 1, u, v)]. *)
Definition from_affine (p : AffinePoint) : ExtendedPoint :=
  mkExtended (get_u p) (get_v p) one (get_u p) (get_v p).

(** [PartialEq] of [ExtendedPoint]/[SubgroupPoint]: the same affine point. *)
Definition ext_eq (e1 e2 : ExtendedPoint) : Prop := to_affine e1 = to_affine e2.

#[export] Instance ext_eq_Equivalence : Equivalence ext_eq.
Proof. unfold ext_eq. split; repeat intro; congruence. Qed.

#[export] Instance ext_eq_dec : RelDecision ext_eq.
Proof. intros e1 e2. unfold Decision, ext_eq. apply AffinePoint_eq_dec. Defined.

Infix "==" := ext_eq (at level 70, no associativity) : iron_scope.
Local Open Scope iron_scope.

Definition ext_identity : ExtendedPoint := from_affine identity.

(** [SubgroupPoint + SubgroupPoint] and [SubgroupPoint * Fr]. *)
Definition ext_add (e1 e2 : ExtendedPoint) : ExtendedPoint :=
  from_affine (point_add (to_affine e1) (to_affine e2)).

Definition ext_mul (e : ExtendedPoint) (s : Fr.t) : ExtendedPoint :=
  from_affine (scalar_mul (val s) (to_affine e)).

(** ** The 160-byte extended encoding of [SubgroupPoint] *)

(** [to_bytes_le]: [u], [v], [z], [t1], [t2], 32 bytes each. *)
Definition ext_to_bytes_le (e : ExtendedPoint) : list Byte.byte :=
  to_bytes (ext_u e) ++ to_bytes (ext_v e) ++ to_bytes (ext_z e) ++
  to_bytes (ext_t1 e) ++ to_bytes (ext_t2 e).

(** [from_bytes_le]: each coordinate must be canonical, else the decoding
    fails (a panic of the caller). *)
Definition ext_from_bytes_le (bs : list Byte.byte) : option ExtendedPoint :=
  let chunk i := firstn 32 (skipn (32 * i) bs) in
  match from_bytes (chunk 0%nat), from_bytes (chunk 1%nat), from_bytes (chunk 2%nat),
        from_bytes (chunk 3%nat), from_bytes (chunk 4%nat) with
  | Some u, Some v, Some z, Some t1, Some t2 =>
      if (length bs =? 160)%nat then Some (mkExtended u v z t1 t2) else None
  | _, _, _, _, _ => None
  end.

Lemma to_affine_from_affine p : to_affine (from_affine p) = p.
Proof.
  destruct p as [u v]. unfold to_affine, from_affine. cbn [ext_u ext_v ext_z].
  rewrite pow_one, !mul_one_r by apply Fq_modulus_gt_1. reflexivity.
Qed.

#[export] Hint Rewrite to_affine_from_affine : iron_rw.

#[export] Instance to_affine_Proper : Proper (ext_eq ==> eq) to_affine.
Proof. intros e1 e2 H. exact H. Qed.

#[export] Instance ext_add_Proper : Proper (ext_eq ==> ext_eq ==> ext_eq) ext_add.
Proof. intros e1 e2 H1 f1 f2 H2. unfold ext_eq, ext_add in *. now rewrite H1, H2. Qed.

#[export] Instance ext_mul_Proper : Proper (ext_eq ==> eq ==> ext_eq) ext_mul.
Proof. intros e1 e2 H s ? <-. unfold ext_eq, ext_mul in *. now rewrite H. Qed.

(** A point built from affine coordinates is its own affine image. *)
Lemma from_affine_ext_eq e : from_affine (to_affine e) == e.
Proof. unfold ext_eq. apply to_affine_from_affine. Qed.

Lemma length_ext_to_bytes_le e : length (ext_to_bytes_le e) = 160%nat.
Proof.
  unfold ext_to_bytes_le. rewrite !length_app, !length_to_bytes.
  reflexivity.
Qed.

(** The extended encoding round-trips exactly (coordinates included, not
    only up to [==]). *)
Lemma ext_from_bytes_le_to_bytes_le e : ext_from_bytes_le (ext_to_bytes_le e) = Some e.
Proof.
  pose proof (length_ext_to_bytes_le e) as Hlen.
  assert (L : forall a : Fq.t, length (to_bytes a) = 32%nat)
    by (intros; apply length_to_bytes).
  destruct e as [u v z t1 t2]. unfold ext_from_bytes_le. cbv beta zeta.
  unfold ext_to_bytes_le in *. cbn [ext_u ext_v ext_z ext_t1 ext_t2] in *. rewrite Hlen.
  rewrite !skipn_chunk by apply L. rewrite !Nat.mul_0_r, !skipn_0.
  rewrite !firstn_app_exact' by apply L.
  rewrite (firstn_all2 (to_bytes t2)) by (rewrite L; lia).
  rewrite !from_bytes_to_bytes by apply Fq.q_fits_256. reflexivity.
Qed.

(** The extended encoding is canonical: a successful decoding re-encodes
    to its input. *)
Lemma ext_to_bytes_le_from_bytes_le bs e :
  ext_from_bytes_le bs = Some e -> ext_to_bytes_le e = bs.
Proof.
  unfold ext_from_bytes_le. cbv zeta.
  destruct (from_bytes (firstn 32 (skipn (32 * 0) bs))) as [u|] eqn:Hu; [|discriminate].
  destruct (from_bytes (firstn 32 (skipn (32 * 1) bs))) as [v|] eqn:Hv; [|discriminate].
  destruct (from_bytes (firstn 32 (skipn (32 * 2) bs))) as [z|] eqn:Hz; [|discriminate].
  destruct (from_bytes (firstn 32 (skipn (32 * 3) bs))) as [t1|] eqn:Ht1; [|discriminate].
  destruct (from_bytes (firstn 32 (skipn (32 * 4) bs))) as [t2|] eqn:Ht2; [|discriminate].
  destruct (Nat.eqb_spec (length bs) 160) as [Hl|]; [|discriminate].
  intros E. apply Some_inj' in E. subst e. unfold ext_to_bytes_le. cbn [ext_u ext_v ext_z ext_t1 ext_t2].
  apply to_bytes_from_bytes in Hu, Hv, Hz, Ht1, Ht2. rewrite Hu, Hv, Hz, Ht1, Ht2.
  pose proof (skipn_split_chunk 0 32 bs) as E0. pose proof (skipn_split_chunk 32 32 bs) as E1.
  pose proof (skipn_split_chunk 64 32 bs) as E2. pose proof (skipn_split_chunk 96 32 bs) as E3.
  pose proof (skipn_split_chunk 128 32 bs) as E4. cbn [Nat.add] in E0, E1, E2, E3, E4.
  rewrite (@skipn_all2 _ 160 bs), app_nil_r in E4 by lia.
  rewrite E4 in E3. rewrite E3 in E2. rewrite E2 in E1. rewrite E1 in E0.
  exact (eq_sym E0).
Qed.

(** [ExtendedPoint::identity()]: [(0, 1, 1, 0, 0)] (note [t2 = 0], unlike
    [from_affine identity]); the [Default] of [SubgroupPoint]. *)
Definition ext_identity_default : ExtendedPoint := mkExtended zero one one zero zero.

Lemma to_affine_identity_default : to_affine ext_identity_default = identity.
Proof.
  unfold to_affine, ext_identity_default. cbn [ext_u ext_v ext_z].
  rewrite pow_one, !mul_one_r by apply Fq_modulus_gt_1. reflexivity.
Qed.

(** ** The protocol constants

    The generators ([ironfish_zkp::constants] and [zcash_proofs::constants])
    and the personalisation of the ivk hash are fixed values the sources
    import; the development is generic in them. *)
Class Constants := {
  SPENDING_KEY_GENERATOR : ExtendedPoint;
  PROOF_GENERATION_KEY_GENERATOR : ExtendedPoint;
  PUBLIC_KEY_GENERATOR : ExtendedPoint;
  CRH_IVK_PERSONALIZATION : list Byte.byte
}.

(** ** A test fixture

    A point [P = (u, 3)] of the curve, found off-line, and the points
    [[8] P], [[16] P], [[24] P] of the prime-order subgroup standing for the
    three generators; the personalisation is ["Zcashivk"].  The fixture only
    serves to evaluate the theorems' hypotheses on concrete inputs. *)
Definition test_point : AffinePoint :=
  mkAffine (of_Z 51488394382096143788926367714674856992866141645709887174647582669943322187927)
           (of_Z 3).

(** The test point has order greater than 8. *)
Lemma test_point_not_small_order : small_order_u test_point = false.
Proof. vm_compute. reflexivity. Qed.

Definition test_constants : Constants := {|
  SPENDING_KEY_GENERATOR := from_affine (mkAffine
    (of_Z 26010153862830793743911730662926303622536112353870575676876095452509902076443)
    (of_Z 33870355149453697655464584064870436861767017640968433840972803788419917420560));
  PROOF_GENERATION_KEY_GENERATOR := from_affine (mkAffine
    (of_Z 27023251929100209534905924037385939711206244041319232230011117781850654475515)
    (of_Z 47106801227036864058848071398736801011035485813102504718926205395746669611641));
  PUBLIC_KEY_GENERATOR := from_affine (mkAffine
    (of_Z 2686265181966071033415426304871929644865216735266063503072403916767233112522)
    (of_Z 774782064354835431016183931930312856643015228293940951799814226965246331256));
  CRH_IVK_PERSONALIZATION := map byte_of_Z [90; 99; 97; 115; 104; 105; 118; 107]
|}.
