(* ===== verification/Decompress.v ===== *)
(** * Decompression of Jubjub points

    [AffinePoint::from_bytes] of the [jubjub] crate (ZIP 216 enabled), which
    [SubgroupPoint::from_bytes] runs before its subgroup check: the top bit
    of byte 31 is the sign of [u]; the remaining 255 bits must be a canonical
    [v]; [u^2 = (v^2 - 1) / (1 + d v^2)] ([invert().unwrap_or(zero)]) must
    have a square root, whose sign is flipped when its parity differs from
    the sign bit; the encoding of [u = 0] with the sign bit set is rejected
    (ZIP 216).  [SubgroupPoint::from_bytes] then requires [[r] P] to be the
    identity ([is_torsion_free]).

    Theorems: [1 + d v^2] never vanishes ([d] is not a square), so every
    decoded point is on the curve; decoding inverts [to_bytes] on the curve;
    a successful decoding re-encodes to its input (the encoding is
    canonical); the non-canonical encoding of [u = 0] is rejected. *)

From Stdlib Require Import ZArith List Lia Bool Strings.Byte Ring Field.
From stdpp Require Import base decidable.
From S2P Require Import Prelude Encoding Field Primality FieldTheory Sqrt Jubjub.
Import ListNotations.
Local Open Scope Z_scope.

(** [AffinePoint::from_bytes]. *)
Definition point_from_bytes (b : list Byte.byte) : option AffinePoint :=
  let sign := Z.shiftr (byte_to_Z (nth 31 b Byte.x00)) 7 in
  let b := firstn 31 b ++ [byte_of_Z (Z.land (byte_to_Z (nth 31 b Byte.x00)) 127)] in
  match from_bytes b with
  | None => None
  | Some v =>
      let v2 := square v in
      let den := match invert (add one (mul EDWARDS_D v2)) with
                 | Some i => i
                 | None => zero
                 end in
      match Sqrt.sqrt (mul (sub v2 one) den) with
      | None => None
      | Some u =>
          let flip_sign := Z.land (Z.lxor (byte_to_Z (nth 0 (to_bytes u) Byte.x00)) sign) 1 =? 1 in
          let final_u := if flip_sign then neg u else u in
          let u_is_zero := bool_decide (u = zero) in
          if u_is_zero && flip_sign then None else Some (mkAffine final_u v)
      end
  end.

(** [ExtendedPoint::is_torsion_free]: [[r] P] is the identity. *)
Definition is_torsion_free (e : ExtendedPoint) : bool :=
  bool_decide (scalar_mul (Zpos Fr.modulus) (to_affine e) = identity).

(** [SubgroupPoint::from_bytes]: decompress, convert to extended
    coordinates, and keep the point only if it is torsion free. *)
Definition subgroup_from_bytes (b : list Byte.byte) : option ExtendedPoint :=
  match point_from_bytes b with
  | None => None
  | Some p => let e := from_affine p in if is_torsion_free e then Some e else None
  end.

(** [SubgroupPoint::to_bytes]: the compressed encoding of the affine point. *)
Definition subgroup_to_bytes (e : ExtendedPoint) : list Byte.byte := point_to_bytes (to_affine e).

(** ** The curve's denominators *)

Definition euler_exponent : Z := (Zpos Fq.modulus - 1) / 2.

Lemma d_non_square : pow EDWARDS_D euler_exponent = neg one.
Proof. apply Fe_eq. vm_compute. reflexivity. Qed.

Lemma neg_one_euler : pow (neg one) euler_exponent = @one Fq.modulus.
Proof. apply Fe_eq. vm_compute. reflexivity. Qed.

(** [1 + d v^2 <> 0]: otherwise [d v^2 = -1] and Euler's criterion would
    make [d] a square. *)
Lemma den_nonzero (v : Fq.t) : add one (mul EDWARDS_D (mul v v)) <> zero.
Proof.
  intros H. pose proof FqField.q_gt_2 as Hq.
  assert (Hd : mul EDWARDS_D (mul v v) = neg one).
  { transitivity (sub (add one (mul EDWARDS_D (mul v v))) one); [ring | rewrite H; ring]. }
  assert (Hv : v <> zero).
  { intros ->. apply FqField.one_neq_zero.
    transitivity (add one (mul EDWARDS_D (mul zero zero))); [ring | exact H]. }
  apply (f_equal (fun x => pow x euler_exponent)) in Hd.
  rewrite neg_one_euler, pow_mul_l, pow_mul_l, <- pow_add_r, d_non_square in Hd
    by (unfold euler_exponent; vm_compute; discriminate).
  replace (euler_exponent + euler_exponent) with (Zpos Fq.modulus - 1) in Hd by reflexivity.
  rewrite pow_q_minus_1 in Hd by exact Hv. apply neg_one_neq_one.
  transitivity (mul (m := Fq.modulus) (neg one) one); [ring | exact Hd].
Qed.

(** [u^2] from [v] on the curve. *)
Lemma curve_u2 (u v : Fq.t) :
  is_on_curve (mkAffine u v) = true ->
  mul (sub (square v) one) (FqField.inv (add one (mul EDWARDS_D (square v)))) = mul u u.
Proof.
  unfold is_on_curve, square. cbn [get_u get_v]. intros H%bool_decide_eq_true_1.
  pose proof (den_nonzero v) as Hd.
  transitivity (mul (mul (mul u u) (add one (mul EDWARDS_D (mul v v))))
                    (FqField.inv (add one (mul EDWARDS_D (mul v v))))); [|field; exact Hd].
  f_equal. transitivity (add (sub (add (neg (mul u u)) (mul v v))
                                  (add one (mul EDWARDS_D (mul (mul u u) (mul v v)))))
                             (mul (mul u u) (add one (mul EDWARDS_D (mul v v))))); [ring|].
  rewrite H. ring.
Qed.

(** The sign flip: [(u.to_bytes()[0] ^ sign) & 1] is the parity of [u]
    against the sign bit. *)
Lemma flip_sign_spec (x : Fq.t) s :
  (s = 0 \/ s = 1) ->
  (Z.land (Z.lxor (byte_to_Z (nth 0 (to_bytes x) Byte.x00)) s) 1 =? 1) = xorb (is_odd x) (Z.odd s).
Proof.
  intros Hs. change 1 with (Z.ones 1) at 1. rewrite Z.land_ones by lia.
  rewrite Zmod_odd. unfold to_bytes, is_odd.
  replace (Z.odd (Z.lxor _ s)) with (xorb (Z.odd (val x)) (Z.odd s)).
  - now destruct (xorb _ _).
  - rewrite <- !Z.bit0_odd, Z.lxor_spec, !Z.bit0_odd. f_equal. symmetry. apply le_bytes_first_odd.
Qed.

(** ** The bytes of an encoding *)

Lemma le_value_point_to_bytes p :
  le_value (point_to_bytes p) = val (get_v p) + Z.b2z (is_odd (get_u p)) * 2 ^ 255.
Proof.
  unfold point_to_bytes. rewrite le_value_le_bytes, point_to_bytes_value. apply Z.mod_small.
  pose proof (Fq_below_2_255 (get_v p)). change (Z.of_nat Fq.NUM_BITS) with 255 in *.
  destruct (is_odd _); simpl; lia.
Qed.

Lemma point_to_bytes_sign p :
  Z.shiftr (byte_to_Z (nth 31 (point_to_bytes p) Byte.x00)) 7 = Z.b2z (is_odd (get_u p)).
Proof.
  rewrite le_value_shiftr_last by (try apply length_point_to_bytes; lia).
  rewrite le_value_point_to_bytes. pose proof (Fq_below_2_255 (get_v p)).
  change (Z.of_nat Fq.NUM_BITS) with 255 in *. change (8 * Z.of_nat 31 + 7) with 255.
  rewrite Z.div_add, Z.div_small by lia. reflexivity.
Qed.

Lemma point_to_bytes_masked p :
  from_bytes (firstn 31 (point_to_bytes p) ++
              [byte_of_Z (Z.land (byte_to_Z (nth 31 (point_to_bytes p) Byte.x00)) 127)])
  = Some (get_v p).
Proof.
  unfold from_bytes. change 127 with (Z.ones 7).
  rewrite le_value_mask_last, le_value_point_to_bytes by (try apply length_point_to_bytes; lia).
  pose proof (Fq_below_2_255 (get_v p)). pose proof (Fe_range (get_v p)).
  change (Z.of_nat Fq.NUM_BITS) with 255 in *. change (8 * Z.of_nat 31 + 7) with 255.
  rewrite Z.mod_add, Z.mod_small by lia.
  rewrite length_app, length_firstn, length_point_to_bytes. cbn [length Nat.min Nat.add Nat.eqb].
  replace (val (get_v p) <? Zpos Fq.modulus) with true by lia. now rewrite of_Z_val.
Qed.

Lemma sign_bit_range b : let s := Z.shiftr (byte_to_Z b) 7 in s = 0 \/ s = 1.
Proof.
  cbv zeta. rewrite Z.shiftr_div_pow2 by lia. pose proof (byte_to_Z_range b).
  change (2 ^ 7) with 128. assert (0 <= byte_to_Z b / 128 < 2) by (split; [apply Z.div_pos | apply Z.div_lt_upper_bound]; lia).
  lia.
Qed.

Lemma sqrt_zero : Sqrt.sqrt zero = Some zero.
Proof.
  destruct (Sqrt.sqrt_square zero) as [x [Hs Hx]].
  replace (mul (@zero Fq.modulus) zero) with (@zero Fq.modulus) in Hs, Hx by ring.
  rewrite Hs. f_equal. now destruct (mul_eq_zero x x Hx).
Qed.

(** The sign fix keeps a root whose parity is the sign bit, and otherwise
    takes its opposite, unless the root is zero. *)
Lemma final_parity (x : Fq.t) s :
  bool_decide (x = zero) && xorb (is_odd x) s = false ->
  is_odd (if xorb (is_odd x) s then neg x else x) = s.
Proof.
  destruct (decide (x = zero)) as [->|Hx].
  - rewrite bool_decide_eq_true_2 by reflexivity. change (is_odd (@zero Fq.modulus)) with false.
    destruct s; cbn [andb xorb]; [discriminate | reflexivity].
  - destruct (xorb (is_odd x) s) eqn:E; intros _.
    + rewrite is_odd_neg by exact Hx. destruct (is_odd x), s; easy.
    + destruct (is_odd x), s; easy.
Qed.

(** The root decoding picks: [u] itself, whichever of [u] and [-u] the
    square root returns. *)
Lemma sign_fix (x u : Fq.t) :
  x = u \/ x = neg u ->
  bool_decide (x = zero) && xorb (is_odd x) (is_odd u) = false /\
  (if xorb (is_odd x) (is_odd u) then neg x else x) = u.
Proof.
  intros [->| ->]; [rewrite xorb_nilpotent, andb_false_r; auto|].
  destruct (decide (u = zero)) as [->|Hu].
  - replace (@neg Fq.modulus zero) with (@zero Fq.modulus) by ring.
    rewrite xorb_nilpotent, andb_false_r. auto.
  - assert (Hn : neg u <> zero).
    { intros E. apply Hu. transitivity (neg (neg u)); [ring | rewrite E; ring]. }
    rewrite is_odd_neg, bool_decide_eq_false_2 by assumption.
    destruct (is_odd u); cbn [xorb negb andb]; split; try reflexivity; ring.
Qed.

(** ** Decompression *)

(** Decoding inverts the compressed encoding of every point of the curve. *)
Lemma decompress_compress (p : AffinePoint) :
  is_on_curve p = true -> point_from_bytes (point_to_bytes p) = Some p.
Proof.
  intros Hc. unfold point_from_bytes. cbv zeta.
  rewrite point_to_bytes_sign, point_to_bytes_masked. destruct p as [u v]. cbn [get_u get_v].
  rewrite invert_nonzero by apply den_nonzero. rewrite (curve_u2 u v Hc).
  destruct (Sqrt.sqrt_square u) as [x [Hs Hx]]. rewrite Hs.
  rewrite flip_sign_spec, odd_b2z by (destruct (is_odd u); [right|left]; reflexivity).
  destruct (sign_fix x u (square_eq x u Hx)) as [Hz Hf]. now rewrite Hz, Hf.
Qed.

(** What a successful decoding found: the canonical [v] under the mask, a
    square root [x] of [(v^2 - 1) / (1 + d v^2)], and the sign fix. *)
Lemma point_from_bytes_Some b p :
  point_from_bytes b = Some p ->
  let s := Z.shiftr (byte_to_Z (nth 31 b Byte.x00)) 7 in
  let flip := xorb (is_odd (get_u p)) (Z.odd s) in
  exists v x,
    from_bytes (firstn 31 b ++ [byte_of_Z (Z.land (byte_to_Z (nth 31 b Byte.x00)) 127)]) = Some v /\
    mul x x = mul (sub (mul v v) one) (FqField.inv (add one (mul EDWARDS_D (mul v v)))) /\
    bool_decide (x = zero) && xorb (is_odd x) (Z.odd s) = false /\
    p = mkAffine (if xorb (is_odd x) (Z.odd s) then neg x else x) v.
Proof.
  unfold point_from_bytes. cbv zeta. pose proof (sign_bit_range (nth 31 b Byte.x00)) as Hs.
  destruct (from_bytes _) as [v|]; [|discriminate].
  rewrite invert_nonzero by apply den_nonzero.
  destruct (Sqrt.sqrt _) as [x|] eqn:Hx; [|discriminate].
  rewrite flip_sign_spec by exact Hs.
  destruct (bool_decide (x = zero) && _) eqn:Hz; [discriminate|]. intros E. apply Some_inj' in E.
  subst p. exists v, x. repeat split; auto. apply Sqrt.sqrt_sound in Hx. exact Hx.
Qed.

(** Every point [AffinePoint::from_bytes] returns is on the curve:
    [1 + d v^2] never vanishes and the root solves the curve equation. *)
Theorem point_from_bytes_on_curve b p : point_from_bytes b = Some p -> is_on_curve p = true.
Proof.
  intros H. destruct (point_from_bytes_Some b p H) as [v [x [_ [Hx [_ ->]]]]].
  unfold is_on_curve, square. cbn [get_u get_v]. apply bool_decide_eq_true_2.
  pose proof (den_nonzero v) as Hd.
  assert (Hu : forall u, u = x \/ u = neg x -> mul u u = mul x x) by (intros u [-> | ->]; ring).
  rewrite Hu by (destruct (xorb _ _); auto). rewrite Hx. field. exact Hd.
Qed.

(** The encoding is canonical: a successful decoding of 32 bytes
    re-encodes to those bytes (the [u = 0] with sign bit set is the one
    encoding that would not, and ZIP 216 rejects it). *)
Theorem point_to_bytes_from_bytes b p :
  length b = 32%nat -> point_from_bytes b = Some p -> point_to_bytes p = b.
Proof.
  intros Hl H. pose proof (sign_bit_range (nth 31 b Byte.x00)) as Hs.
  destruct (point_from_bytes_Some b p H) as [v [x [Hv [_ [Hz ->]]]]].
  apply final_parity in Hz. apply to_bytes_from_bytes in Hv. cbv zeta in Hs.
  apply (f_equal le_value) in Hv. change 127 with (Z.ones 7) in Hv.
  rewrite le_value_to_bytes, le_value_mask_last in Hv by (auto with iron; lia).
  unfold point_to_bytes. rewrite point_to_bytes_value. cbn [get_u get_v]. rewrite Hz, Hv.
  rewrite le_value_shiftr_last in Hs |- * by lia.
  change (Z.of_nat Fq.NUM_BITS) with 255. change (8 * Z.of_nat 31 + 7) with 255 in *.
  replace (le_value b mod 2 ^ 255 + Z.b2z (Z.odd (le_value b / 2 ^ 255)) * 2 ^ 255)
    with (le_value b).
  - rewrite <- Hl. apply le_bytes_le_value.
  - pose proof (Z.div_mod (le_value b) (2 ^ 255) ltac:(lia)) as Hdm.
    destruct Hs as [E|E]; rewrite E in Hdm |- *; cbn [Z.odd Z.b2z]; lia.
Qed.

(** ZIP 216: the encodings of the points with [u = 0] ([v = 1] and
    [v = -1]) with the sign bit set are rejected. *)
Theorem point_from_bytes_zip216 (v : Fq.t) :
  mul v v = one -> point_from_bytes (le_bytes 32 (val v + 2 ^ 255)) = None.
Proof.
  intros Hv.
  replace (le_bytes 32 (val v + 2 ^ 255)) with (point_to_bytes (mkAffine one v))
    by (unfold point_to_bytes; rewrite point_to_bytes_value; reflexivity).
  unfold point_from_bytes. cbv zeta. rewrite point_to_bytes_sign, point_to_bytes_masked.
  cbn [get_u get_v]. change (is_odd (@one Fq.modulus)) with true.
  rewrite invert_nonzero by apply den_nonzero. unfold square. rewrite Hv.
  replace (sub (@one Fq.modulus) one) with (@zero Fq.modulus) by ring.
  rewrite mul_zero_l, sqrt_zero, flip_sign_spec by (right; reflexivity).
  reflexivity.
Qed.

Lemma is_torsion_free_from_affine e : is_torsion_free (from_affine (to_affine e)) = is_torsion_free e.
Proof. unfold is_torsion_free. now rewrite to_affine_from_affine. Qed.

(** [SubgroupPoint::from_bytes] inverts [to_bytes] on the points of the
    prime-order subgroup, up to the choice of extended coordinates. *)
Lemma subgroup_from_bytes_to_bytes (e : ExtendedPoint) :
  is_on_curve (to_affine e) = true -> is_torsion_free e = true ->
  subgroup_from_bytes (subgroup_to_bytes e) = Some (from_affine (to_affine e)).
Proof.
  intros Hc Ht. unfold subgroup_from_bytes, subgroup_to_bytes.
  rewrite decompress_compress by exact Hc. cbv zeta.
  rewrite is_torsion_free_from_affine, Ht. reflexivity.
Qed.

(** What a successful [SubgroupPoint::from_bytes] of 32 bytes returns: a
    point of the prime-order subgroup, in affine form, whose encoding is
    the input. *)
Lemma subgroup_from_bytes_Some b e :
  length b = 32%nat -> subgroup_from_bytes b = Some e ->
  is_on_curve (to_affine e) = true /\ is_torsion_free e = true /\
  from_affine (to_affine e) = e /\ subgroup_to_bytes e = b.
Proof.
  intros Hl. unfold subgroup_from_bytes. destruct (point_from_bytes b) as [p|] eqn:Hp; [|discriminate].
  cbv zeta. destruct (is_torsion_free (from_affine p)) eqn:Ht; [|discriminate].
  intros E. apply Some_inj' in E. subst e. unfold subgroup_to_bytes. rewrite to_affine_from_affine.
  repeat split; auto.
  - exact (point_from_bytes_on_curve b p Hp).
  - exact (point_to_bytes_from_bytes b p Hl Hp).
Qed.

Lemma length_subgroup_to_bytes e : length (subgroup_to_bytes e) = 32%nat.
Proof. apply length_point_to_bytes. Qed.

(** [AffinePoint::from_bytes] inverts [AffinePoint::to_bytes] on every
    point of the curve: the sign bit and the square root recover [u]. *)
Theorem point_from_bytes_to_bytes (p : AffinePoint) :
  is_on_curve p = true -> point_from_bytes (point_to_bytes p) = Some p.
Proof. apply decompress_compress. Qed.

Module DecompressWitnesses.

Lemma point_from_bytes_to_bytes_witness :
  is_on_curve test_point = true /\ point_from_bytes (point_to_bytes test_point) = Some test_point.
Proof.
  assert (H : is_on_curve test_point = true) by (vm_compute; reflexivity).
  split; [exact H | exact (point_from_bytes_to_bytes test_point H)].
Defined.

Lemma point_from_bytes_on_curve_witness :
  point_from_bytes (point_to_bytes identity) = Some identity /\ is_on_curve identity = true.
Proof.
  assert (H : point_from_bytes (point_to_bytes identity) = Some identity)
    by (vm_compute; f_equal; f_equal; apply Fe_eq; reflexivity).
  split; [exact H | exact (point_from_bytes_on_curve _ _ H)].
Defined.

Lemma point_to_bytes_from_bytes_witness : point_to_bytes identity = le_bytes 32 1.
Proof.
  apply (point_to_bytes_from_bytes (le_bytes 32 1) identity);
    [reflexivity | vm_compute; f_equal; f_equal; apply Fe_eq; reflexivity].
Defined.

Lemma point_from_bytes_zip216_witness : point_from_bytes (le_bytes 32 (val (@one Fq.modulus) + 2 ^ 255)) = None.
Proof. apply point_from_bytes_zip216. apply Fe_eq. vm_compute. reflexivity. Defined.

End DecompressWitnesses.
