(* ===== verification/Ephemeral.v ===== *)
(** * The ephemeral Diffie-Hellman key pair of note encryption

    [src/ironfish-rust/src/keys/ephemeral.rs]: [EphemeralKeyPair] holds a
    scalar [secret] and the point [public = PUBLIC_KEY_GENERATOR * secret].
    [new] samples the secret ([Fr::random(thread_rng())], here an explicit
    argument) and derives the public point; [Default] is the all-zero pair
    ([Fr::default()], [SubgroupPoint::default()] = the identity);
    [to_bytes_le] writes the 32-byte secret then the 160-byte extended
    encoding of the point; [from_bytes_le] slices [0..32] and [32..192]
    (an index panic on a shorter vector), [unwrap]s the scalar decoding (a
    panic on a non-canonical scalar) and decodes the point.

    Theorems: the invariant [public == [secret] G] holds for [new] and
    [Default]; [from_bytes_le] inverts [to_bytes_le] exactly, so the
    invariant survives a round trip; the decoder ignores bytes past 192;
    it panics on buffers shorter than 192 bytes; and it does not re-check
    the invariant. *)

From Stdlib Require Import ZArith List Lia Bool Strings.Byte Morphisms Setoid.
From stdpp Require Import base decidable.
From S2P Require Import Prelude Encoding Field Jubjub.
Import ListNotations.
Local Open Scope Z_scope.
Local Open Scope iron_scope.

Module Ephemeral.

Record EphemeralKeyPair := mkKeyPair {
    secret : Fr.t;
    public : ExtendedPoint
  }.

(** The getters [secret()] and [public()]: references to the fields. *)
Module Getters.
Definition secret (kp : EphemeralKeyPair) : Fr.t := kp.(secret).
Definition public (kp : EphemeralKeyPair) : ExtendedPoint := kp.(public).
End Getters.

Section KeyPair.
Context `{Constants}.

  (** [new()], with the sampled scalar [Fr::random(thread_rng())] as input. *)
Definition new (sampled : Fr.t) : EphemeralKeyPair :=
    {| secret := sampled; public := ext_mul PUBLIC_KEY_GENERATOR sampled |}.

  (** [#[derive(Default)]]: [Fr::zero()] and [SubgroupPoint::identity()]. *)
Definition default : EphemeralKeyPair :=
    {| secret := zero; public := ext_identity_default |}.

Definition to_bytes_le (kp : EphemeralKeyPair) : list Byte.byte :=
    to_bytes (secret kp) ++ ext_to_bytes_le (public kp).

  (** [bytes[0..32]], [bytes[32..192]], [Fr::from_bytes(..).unwrap()],
      [SubgroupPoint::from_bytes_le(..)]. *)
Definition from_bytes_le (bytes : list Byte.byte) : result Panic EphemeralKeyPair :=
    if (length bytes <? 32)%nat then Err SliceIndexOutOfRange else
    let secret_bytes := firstn 32 bytes in
    if (length bytes <? 192)%nat then Err SliceIndexOutOfRange else
    let public_bytes := firstn 160 (skipn 32 bytes) in
    match from_bytes secret_bytes with
    | None => Err UnwrapNone
    | Some s =>
        match ext_from_bytes_le public_bytes with
        | None => Err UnwrapNone
        | Some p => Ok {| secret := s; public := p |}
        end
    end.

  (** The type's invariant. *)
Definition consistent (kp : EphemeralKeyPair) : Prop :=
    public kp == ext_mul PUBLIC_KEY_GENERATOR (secret kp).

#[export] Instance consistent_dec kp : Decision (consistent kp).
  Proof. unfold consistent. apply _. Defined.

  (** [test_ephemeral_key_pair], the sample of [new] as its input: the
      invariant, then each getter against its field. *)
Definition test_ephemeral_key_pair (sampled : Fr.t) : bool :=
    let key_pair := new sampled in
    bool_decide (Getters.public key_pair == ext_mul PUBLIC_KEY_GENERATOR (Getters.secret key_pair)) &&
    bool_decide (Getters.public key_pair == public key_pair) &&
    bool_decide (Getters.secret key_pair = secret key_pair).

Lemma length_to_bytes_le kp : length (to_bytes_le kp) = 192%nat.
  Proof.
    unfold to_bytes_le. rewrite length_app, length_to_bytes, length_ext_to_bytes_le.
    reflexivity.
  Qed.

Lemma from_bytes_le_long bytes :
    (192 <= length bytes)%nat ->
    from_bytes_le bytes =
    match from_bytes (firstn 32 bytes), ext_from_bytes_le (firstn 160 (skipn 32 bytes)) with
    | Some s, Some p => Ok {| secret := s; public := p |}
    | None, _ | _, None => Err UnwrapNone
    end.
  Proof.
    intros Hl. unfold from_bytes_le.
    replace (length bytes <? 32)%nat with false by (symmetry; apply Nat.ltb_ge; lia).
    replace (length bytes <? 192)%nat with false by (symmetry; apply Nat.ltb_ge; lia).
    now destruct (from_bytes (firstn 32 bytes)), (ext_from_bytes_le (firstn 160 (skipn 32 bytes))).
  Qed.

  (** C17: [new] establishes the invariant [public == PUBLIC_KEY_GENERATOR * secret]
      and keeps the sampled scalar as the secret. *)
Theorem new_consistent (sampled : Fr.t) :
    consistent (new sampled) /\ secret (new sampled) = sampled.
  Proof. split; reflexivity. Qed.

  (** C18: the derived [Default] pair (zero scalar, identity point) satisfies the
      invariant: [[0] G] is the identity. *)
Theorem default_consistent : consistent default.
  Proof.
    unfold consistent, default, ext_eq, ext_mul. cbn [public secret].
    rewrite to_affine_identity_default, to_affine_from_affine. reflexivity.
  Qed.

  (** C16: [from_bytes_le] inverts [to_bytes_le] exactly, for every pair. *)
Theorem from_bytes_le_to_bytes_le kp : from_bytes_le (to_bytes_le kp) = Ok kp.
  Proof.
    rewrite from_bytes_le_long by (rewrite length_to_bytes_le; lia).
    destruct kp as [s p]. unfold to_bytes_le. cbn [secret public].
    rewrite firstn_app_exact' by apply length_to_bytes.
    rewrite skipn_app_exact' by apply length_to_bytes.
    rewrite firstn_all2 by (rewrite length_ext_to_bytes_le; lia).
    rewrite from_bytes_to_bytes by apply Fr.r_fits_256.
    now rewrite ext_from_bytes_le_to_bytes_le.
  Qed.

  (** C19: a buffer shorter than 192 bytes makes [from_bytes_le] panic on its
      slice indexing. *)
Theorem from_bytes_le_short bytes :
    (length bytes < 192)%nat -> from_bytes_le bytes = Err SliceIndexOutOfRange.
  Proof.
    intros Hl. unfold from_bytes_le.
    destruct (Nat.ltb_spec (length bytes) 32); [reflexivity|].
    destruct (Nat.ltb_spec (length bytes) 192); [reflexivity | lia].
  Qed.

  (** C20: bytes after the first 192 are ignored. *)
Theorem from_bytes_le_ignores_suffix bytes extra :
    length bytes = 192%nat -> from_bytes_le (bytes ++ extra) = from_bytes_le bytes.
  Proof.
    intros Hl. rewrite !from_bytes_le_long by (rewrite ?length_app; lia).
    rewrite firstn_app_le, skipn_app_le, firstn_app_le by (rewrite ?length_skipn; lia).
    reflexivity.
  Qed.

  (** C21: the decoder does not re-check the invariant: when the generator is not
      the identity, the bytes of the pair [(1, identity)] decode to an
      inconsistent key pair. *)
Theorem from_bytes_le_unchecked :
    to_affine PUBLIC_KEY_GENERATOR <> identity ->
    exists bytes kp, from_bytes_le bytes = Ok kp /\ ~ consistent kp.
  Proof.
    intros HG. exists (to_bytes_le {| secret := one; public := ext_identity_default |}).
    eexists. split; [apply from_bytes_le_to_bytes_le|].
    unfold consistent, ext_eq, ext_mul. cbn [public secret].
    rewrite to_affine_identity_default, to_affine_from_affine.
    intros E. apply HG. rewrite E. reflexivity.
  Qed.
  End KeyPair.
End Ephemeral.

Module EphemeralWitnesses.
  Import Ephemeral.

Lemma from_bytes_le_short_witness :
    (length (repeat Byte.x00 31) < 192)%nat /\
    from_bytes_le (repeat Byte.x00 31) = Err SliceIndexOutOfRange.
  Proof. split; [vm_compute; lia | apply from_bytes_le_short; vm_compute; lia]. Defined.

Lemma from_bytes_le_ignores_suffix_witness :
    let bytes := to_bytes_le default in
    length bytes = 192%nat /\
    from_bytes_le (bytes ++ [Byte.x01]) = from_bytes_le bytes.
  Proof.
    intros bytes. assert (L : length bytes = 192%nat) by apply length_to_bytes_le.
    split; [exact L | apply from_bytes_le_ignores_suffix, L].
  Defined.

Lemma from_bytes_le_unchecked_witness :
    @to_affine (@PUBLIC_KEY_GENERATOR test_constants) <> identity /\
    exists bytes kp, from_bytes_le bytes = Ok kp /\ ~ @consistent test_constants kp.
  Proof.
    assert (HG : @to_affine (@PUBLIC_KEY_GENERATOR test_constants) <> identity).
    { intros E. apply (f_equal (fun p => val (get_v p))) in E. vm_compute in E. discriminate. }
    split; [exact HG | apply (@from_bytes_le_unchecked test_constants), HG].
  Defined.
End EphemeralWitnesses.
