(* ===== verification/Gadgets.v ===== *)
(** * The constraint system and the gadgets [synthesize] calls

    bellperson's [ConstraintSystem] is modelled at the level of the gadgets
    the circuit calls.  The state [CS] records
    - [cs_mode]: [Proving] (the prover's and [TestConstraintSystem]'s
      systems evaluate every assignment closure) or [ParameterGeneration]
      ([KeypairAssembly] never evaluates them);
    - [cs_ns]: the current namespace path ([cs.namespace(|| ..)]);
    - [cs_trace]: the layout, one [Event] per gadget with its namespace
      path and its shape, the part of the system the proving key depends on;
    - [cs_inputs]: the public inputs allocated so far ([None] when their
      value is not computed);
    - [cs_sat]: whether every checked constraint holds.

    [M] is the state-and-error monad of [synthesize]: a step returns its
    value and the new state, or a [SynthesisError] (or the [assert_eq!]
    panic).  [alloc] models an assignment closure: in [Proving] mode a
    missing value is [AssignmentMissing] and the closure may fail; in
    [ParameterGeneration] mode it is not run and the value stays unknown.

    Each gadget records its event, computes its output as bellperson does
    ([EdwardsPoint::witness], [assert_not_small_order],
    [field_into_boolean_vec_le], [fixed_base_multiplication],
    [EdwardsPoint::add], [inputize], [repr], [blake2s]) and raises its
    errors.  The hash is an interface ([Blake2s]), as are the generators
    ([Constants] of [Jubjub]).

    In [ParameterGeneration] mode no closure runs, so a synthesis computes
    its layout without looking at the witness: the layout theorems of
    [MintAsset] are proved by evaluation. *)

From Stdlib Require Import ZArith List Lia Bool Strings.Byte Strings.String.
From stdpp Require Import base decidable option list.
From S2P Require Import Prelude Encoding Field Jubjub.
Import ListNotations.
Local Open Scope Z_scope.

(** The hash the [blake2s] gadget computes and [ViewingKey::ivk] calls:
    personalisation, message, 32-byte digest. *)
Class Blake2s := {
  blake2s_hash : list Byte.byte -> list Byte.byte -> list Byte.byte;
  blake2s_hash_length : forall personal msg, length (blake2s_hash personal msg) = 32%nat
}.

Inductive SynthesisError :=
| AssignmentMissing
| DivisionByZero.

Inductive Failure :=
| Synthesis (e : SynthesisError)
| AssertionPanic.

Inductive Mode := Proving | ParameterGeneration.

Inductive FixedGenerator :=
| SpendingKeyGenerator
| ProofGenerationKeyGenerator
| PublicKeyGenerator.

Inductive Gadget :=
| GWitnessPoint
| GAssertNotSmallOrder
| GBooleanVec (n : nat)
| GFixedBaseMul (g : FixedGenerator) (n : nat)
| GPointAdd
| GInputize
| GRepr
| GBlake2s (n : nat) (personal : list Byte.byte).

Record Event := mkEvent { ev_path : list string; ev_gadget : Gadget }.

Record CS := mkCS {
  cs_mode : Mode;
  cs_ns : list string;
  cs_trace : list Event;
  cs_inputs : list (option Fq.t);
  cs_sat : bool
}.

(** A fresh constraint system. *)
Definition new_cs (mode : Mode) : CS := mkCS mode [] [] [] true.

Definition M (A : Type) : Type := CS -> result Failure (A * CS).

Definition mret {A} (a : A) : M A := fun cs => Ok (a, cs).

Definition mbind {A B} (m : M A) (k : A -> M B) : M B :=
  fun cs => match m cs with
            | Ok (a, cs') => k a cs'
            | Err e => Err e
            end.

Definition fail {A} (e : Failure) : M A := fun _ => Err e.

Notation "x <~ m ;; k" := (mbind m (fun x => k))
  (at level 60, m at next level, right associativity) : iron_scope.
Local Open Scope iron_scope.

(** [cs.namespace(|| name)]: run [m] one level deeper, restore the path. *)
Definition namespace {A} (name : string) (m : M A) : M A :=
  fun cs =>
    match m {| cs_mode := cs_mode cs; cs_ns := cs_ns cs ++ [name]; cs_trace := cs_trace cs;
               cs_inputs := cs_inputs cs; cs_sat := cs_sat cs |} with
    | Ok (a, cs') =>
        Ok (a, {| cs_mode := cs_mode cs'; cs_ns := cs_ns cs; cs_trace := cs_trace cs';
                  cs_inputs := cs_inputs cs'; cs_sat := cs_sat cs' |})
    | Err e => Err e
    end.

Definition emit (g : Gadget) : M unit :=
  fun cs => Ok (tt, {| cs_mode := cs_mode cs; cs_ns := cs_ns cs;
                       cs_trace := cs_trace cs ++ [mkEvent (cs_ns cs) g];
                       cs_inputs := cs_inputs cs; cs_sat := cs_sat cs |}).

(** An assignment closure [|| f(v.get()?)]. *)
Definition alloc {A B} (f : A -> result SynthesisError B) (v : option A) : M (option B) :=
  fun cs =>
    match cs_mode cs with
    | ParameterGeneration => Ok (None, cs)
    | Proving =>
        match v with
        | None => Err (Synthesis AssignmentMissing)
        | Some a => match f a with
                    | Ok b => Ok (Some b, cs)
                    | Err e => Err (Synthesis e)
                    end
        end
    end.

(** A constraint over a known value; an unknown value checks nothing. *)
Definition enforce (b : option bool) : M unit :=
  fun cs => Ok (tt, {| cs_mode := cs_mode cs; cs_ns := cs_ns cs; cs_trace := cs_trace cs;
                       cs_inputs := cs_inputs cs;
                       cs_sat := cs_sat cs && match b with Some c => c | None => true end |}).

Definition alloc_inputs (xs : list (option Fq.t)) : M unit :=
  fun cs => Ok (tt, {| cs_mode := cs_mode cs; cs_ns := cs_ns cs; cs_trace := cs_trace cs;
                       cs_inputs := cs_inputs cs ++ xs; cs_sat := cs_sat cs |}).

(** [Some] of all the values when every one is known. *)
Fixpoint all_known {A} (xs : list (option A)) : option (list A) :=
  match xs with
  | [] => Some []
  | None :: _ => None
  | Some x :: xs => option_map (cons x) (all_known xs)
  end.

(** Values of a vector of allocated booleans: known, or [n] unknowns. *)
Definition bit_values (n : nat) (v : option (list bool)) : list (option bool) :=
  match v with
  | Some bs => map Some bs
  | None => repeat None n
  end.

Section Gadgets.
Context `{Constants} `{Blake2s}.

Definition generator_point (g : FixedGenerator) : AffinePoint :=
  to_affine (match g with
             | SpendingKeyGenerator => SPENDING_KEY_GENERATOR
             | ProofGenerationKeyGenerator => PROOF_GENERATION_KEY_GENERATOR
             | PublicKeyGenerator => PUBLIC_KEY_GENERATOR
             end).

(** [EdwardsPoint::witness]: allocate [u], [v] of the affine point and
    enforce the curve equation on them. *)
Definition witness_point (p : option ExtendedPoint) : M (option AffinePoint) :=
  _ <~ emit GWitnessPoint ;;
  a <~ alloc (fun e => Ok (to_affine e)) p ;;
  _ <~ enforce (option_map is_on_curve a) ;;
  mret a.

(** [assert_not_small_order]: three doublings, then [u.assert_nonzero],
    whose inverse closure fails with [DivisionByZero] on [u = 0]. *)
Definition assert_not_small_order (p : option AffinePoint) : M unit :=
  _ <~ emit GAssertNotSmallOrder ;;
  _ <~ alloc (fun q => if small_order_u q then Err DivisionByZero else Ok tt) p ;;
  mret tt.

(** [boolean::field_into_boolean_vec_le]: the [n = F::NUM_BITS] bits of
    the value, least significant first. *)
Definition field_into_boolean_vec_le (n : nat) (value : option Z) : M (list (option bool)) :=
  _ <~ emit (GBooleanVec n) ;;
  bs <~ alloc (fun z => Ok (bits_le n z)) value ;;
  mret (bit_values n bs).

(** [ecc::fixed_base_multiplication]: [[bits] G] for the generator [g]. *)
Definition fixed_base_multiplication (g : FixedGenerator) (bits : list (option bool))
  : M (option AffinePoint) :=
  _ <~ emit (GFixedBaseMul g (length bits)) ;;
  alloc (fun bs => Ok (scalar_mul (bits_value bs) (generator_point g))) (all_known bits).

(** [EdwardsPoint::add]. *)
Definition add (p q : option AffinePoint) : M (option AffinePoint) :=
  _ <~ emit GPointAdd ;;
  alloc (fun pq => Ok (point_add (fst pq) (snd pq)))
        (match p, q with Some a, Some b => Some (a, b) | _, _ => None end).

(** [EdwardsPoint::inputize]: two public inputs, [u] then [v]. *)
Definition inputize (p : option AffinePoint) : M unit :=
  _ <~ emit GInputize ;;
  a <~ alloc (fun x => Ok x) p ;;
  alloc_inputs [option_map get_u a; option_map get_v a].

(** [EdwardsPoint::repr]: 256 bits. *)
Definition repr (p : option AffinePoint) : M (list (option bool)) :=
  _ <~ emit GRepr ;;
  bs <~ alloc (fun x => Ok (repr_bits x)) p ;;
  mret (bit_values 256 bs).

(** [blake2s::blake2s]: 256 output bits; input and output bits are read
    and written least significant bit of each byte first. *)
Definition blake2s (input : list (option bool)) (personal : list Byte.byte)
  : M (list (option bool)) :=
  _ <~ emit (GBlake2s (length input) personal) ;;
  h <~ alloc (fun bs => Ok (bytes_to_bits (blake2s_hash personal (bits_to_bytes bs))))
             (all_known input) ;;
  mret (bit_values 256 h).
End Gadgets.

(** [TestConstraintSystem::verify]: the allocated public inputs are exactly
    the given ones. *)
Definition verify (cs : CS) (inputs : list Fq.t) : bool :=
  bool_decide (cs_inputs cs = map Some inputs).

Lemma verify_map_Some cs l l' :
  cs_inputs cs = map Some l -> verify cs l' = bool_decide (l = l').
Proof.
  intros Hi. unfold verify. rewrite Hi. apply bool_decide_ext. split.
  - intros H. now apply map_Some_inj in H.
  - now intros ->.
Qed.

Lemma verify_mkCS mode ns tr l sat l' :
  verify (mkCS mode ns tr (map Some l) sat) l' = bool_decide (l = l').
Proof. now apply verify_map_Some. Qed.

Lemma all_known_map_Some {A} (l : list A) : all_known (map Some l) = Some l.
Proof. induction l as [|x l IH]; simpl; rewrite ?IH; reflexivity. Qed.

Lemma length_bit_values n v :
  (forall bs, v = Some bs -> length bs = n) -> length (bit_values n v) = n.
Proof.
  intros Hv. destruct v as [bs|]; simpl.
  - rewrite length_map. now apply Hv.
  - apply repeat_length.
Qed.

