(* ===== verification/Blake2sRef.v ===== *)
(** * BLAKE2s-256 with a personalisation (RFC 7693)

    The hash behind bellperson's [blake2s] gadget and zcash's
    [Blake2sParams::new().hash_length(32).personal(..)]: 32-bit words with
    wrap-around addition and rotations, the ten-round compression, the
    parameter block with digest length 32, no key, and the 8-byte
    personalisation XORed into [h[6]] and [h[7]].  [blake2s_instance]
    discharges the [Blake2s] interface of [Gadgets]. *)

From Stdlib Require Import ZArith List Lia Bool Strings.Byte.
From S2P Require Import Prelude Encoding Gadgets.
Import ListNotations.
Local Open Scope Z_scope.

Module Blake2sRef.

Definition word (z : Z) : Z := z mod 2 ^ 32.
Definition add32 (a b : Z) : Z := word (a + b).
Definition rotr32 (x : Z) (n : Z) : Z :=
  Z.lor (Z.shiftr x n) (word (Z.shiftl x (32 - n))).

Definition IV : list Z :=
  [0x6A09E667; 0xBB67AE85; 0x3C6EF372; 0xA54FF53A;
   0x510E527F; 0x9B05688C; 0x1F83D9AB; 0x5BE0CD19].

Definition SIGMA : list (list nat) :=
  [[0;1;2;3;4;5;6;7;8;9;10;11;12;13;14;15];
   [14;10;4;8;9;15;13;6;1;12;0;2;11;7;5;3];
   [11;8;12;0;5;2;15;13;10;14;3;6;7;1;9;4];
   [7;9;3;1;13;12;11;14;2;6;5;10;4;0;15;8];
   [9;0;5;7;2;4;10;15;14;1;11;12;6;8;3;13];
   [2;12;6;10;0;11;8;3;4;13;7;5;15;14;1;9];
   [12;5;1;15;14;13;4;10;0;7;6;3;9;2;8;11];
   [13;11;7;14;12;1;3;9;5;0;15;4;8;6;2;10];
   [6;15;14;9;11;3;0;8;12;2;13;7;1;4;10;5];
   [10;2;8;4;7;6;1;5;15;11;9;14;3;12;13;0]]%nat.

Definition get (v : list Z) (i : nat) : Z := nth i v 0.

Fixpoint set (v : list Z) (i : nat) (x : Z) : list Z :=
  match v, i with
  | [], _ => []
  | _ :: v, O => x :: v
  | y :: v, S i => y :: set v i x
  end.

(** The mixing function [G] on [v[a], v[b], v[c], v[d]]. *)
Definition G (v : list Z) (a b c d : nat) (x y : Z) : list Z :=
  let va := add32 (add32 (get v a) (get v b)) x in
  let vd := rotr32 (Z.lxor (get v d) va) 16 in
  let vc := add32 (get v c) vd in
  let vb := rotr32 (Z.lxor (get v b) vc) 12 in
  let va := add32 (add32 va vb) y in
  let vd := rotr32 (Z.lxor vd va) 8 in
  let vc := add32 vc vd in
  let vb := rotr32 (Z.lxor vb vc) 7 in
  set (set (set (set v a va) b vb) c vc) d vd.

Definition round (m : list Z) (v : list Z) (s : list nat) : list Z :=
  let x i := get m (nth i s O) in
  let v := G v 0 4 8 12 (x 0%nat) (x 1%nat) in
  let v := G v 1 5 9 13 (x 2%nat) (x 3%nat) in
  let v := G v 2 6 10 14 (x 4%nat) (x 5%nat) in
  let v := G v 3 7 11 15 (x 6%nat) (x 7%nat) in
  let v := G v 0 5 10 15 (x 8%nat) (x 9%nat) in
  let v := G v 1 6 11 12 (x 10%nat) (x 11%nat) in
  let v := G v 2 7 8 13 (x 12%nat) (x 13%nat) in
  G v 3 4 9 14 (x 14%nat) (x 15%nat).

(** Little-endian 32-bit words of a block. *)
Fixpoint words (n : nat) (bs : list Byte.byte) : list Z :=
  match n with
  | O => []
  | S n => le_value (firstn 4 bs) :: words n (skipn 4 bs)
  end.

(** Compression of one 64-byte block, [t] bytes counted, [last] flag. *)
Definition compress (h : list Z) (block : list Byte.byte) (t : Z) (last : bool) : list Z :=
  let m := words 16 block in
  let v := h ++ IV in
  let v := set v 12 (Z.lxor (get v 12) (word t)) in
  let v := set v 13 (Z.lxor (get v 13) (word (Z.shiftr t 32))) in
  let v := if last then set v 14 (Z.lxor (get v 14) 0xFFFFFFFF) else v in
  let v := fold_left (round m) SIGMA v in
  map (fun i => Z.lxor (get h i) (Z.lxor (get v i) (get v (i + 8)))) (seq 0 8).

(** The initial state for a 32-byte digest, no key, personalisation [p]. *)
Definition init (personal : list Byte.byte) : list Z :=
  let h := set IV 0 (Z.lxor (get IV 0) 0x01010020) in
  let h := set h 6 (Z.lxor (get h 6) (le_value (firstn 4 personal))) in
  set h 7 (Z.lxor (get h 7) (le_value (firstn 4 (skipn 4 personal)))).

(** Pads the final block with zero bytes. *)
Definition pad64 (bs : list Byte.byte) : list Byte.byte :=
  bs ++ repeat Byte.x00 (64 - length bs).

(** [n] more blocks to process after [t] bytes; the last one is padded. *)
Fixpoint process (n : nat) (h : list Z) (msg : list Byte.byte) (t : Z) : list Z :=
  match n with
  | O | S O => compress h (pad64 msg) (t + Z.of_nat (length msg)) true
  | S n => process n (compress h (firstn 64 msg) (t + 64) false) (skipn 64 msg) (t + 64)
  end.

Definition hash (personal msg : list Byte.byte) : list Byte.byte :=
  let nblocks := Nat.max 1 ((length msg + 63) / 64) in
  flat_map (le_bytes 4) (process nblocks (init personal) msg 0).

Lemma length_compress h block t last : length (compress h block t last) = 8%nat.
Proof. unfold compress. now rewrite length_map, length_seq. Qed.

Lemma length_process n h msg t : length (process n h msg t) = 8%nat.
Proof.
  revert h msg t. induction n as [|n IH]; intros h msg t; [apply length_compress|].
  destruct n; [apply length_compress | apply IH].
Qed.

Lemma length_flat_map_le_bytes (l : list Z) :
  length (flat_map (le_bytes 4) l) = (4 * length l)%nat.
Proof.
  induction l as [|w l IH]; cbn [flat_map length]; auto.
  rewrite length_app, length_le_bytes, IH. lia.
Qed.

Lemma length_hash personal msg : length (hash personal msg) = 32%nat.
Proof. unfold hash. now rewrite length_flat_map_le_bytes, length_process. Qed.

(** Test vectors (Python's [hashlib.blake2s]): the empty message, and the
    64 bytes [0..63] under the personalisation ["Zcashivk"]. *)
Example hash_empty :
  map byte_to_Z (hash [] []) =
  [105; 33; 122; 48; 121; 144; 128; 148; 225; 17; 33; 208; 66; 53; 74; 124;
   31; 85; 182; 72; 44; 161; 165; 30; 27; 37; 13; 253; 30; 208; 238; 249].
Proof. vm_compute. reflexivity. Qed.

Example hash_personal_block :
  map byte_to_Z (hash (map byte_of_Z [90; 99; 97; 115; 104; 105; 118; 107])
                      (map byte_of_Z (map Z.of_nat (seq 0 64)))) =
  [151; 0; 60; 9; 135; 86; 240; 189; 41; 244; 69; 45; 96; 210; 15; 91;
   172; 82; 59; 213; 126; 149; 250; 242; 153; 149; 182; 138; 38; 253; 152; 144].
Proof. vm_compute. reflexivity. Qed.

End Blake2sRef.

#[export] Instance blake2s_instance : Blake2s := {|
  blake2s_hash := Blake2sRef.hash;
  blake2s_hash_length := Blake2sRef.length_hash
|}.
