(* ===== verification/MintAsset.v ===== *)
(** * The Mint-Asset circuit

    [src/ironfish-zkp/src/circuits/mint_asset.rs]:
    - [MintAsset]: an optional [ProofGenerationKey] [(ak, nsk)] and an
      optional [public_key_randomness] [ar];
    - [synthesize]: the gadget sequence of [Circuit::synthesize], in the
      source's order and namespaces;
    - the out-of-circuit computation of the public inputs of the test
      ([to_viewing_key], [ViewingKey::rk], [ViewingKey::ivk] of zcash,
      [PUBLIC_KEY_GENERATOR * ivk]), [public_inputs]
    (the byte codec is in [MintAssetCodec]).

    Theorems about [synthesize]: parameter generation always succeeds with
    the fixed layout [mint_asset_layout]; every successful synthesis has that
    layout; proving fails with [AssignmentMissing] when a witness part is
    absent and with [DivisionByZero] when [ak] has small order; otherwise it
    succeeds, is satisfied exactly when [ak] is on the curve, and exposes the
    four public inputs the out-of-circuit code computes; [verify] accepts
    exactly those inputs.  [synthesize_Proper]: [synthesize] reads [ak]
    only through its affine point, which lets the codec compare a witness
    with the one read back.  The refinement rests on two lemmas relating the
    bit-level circuit to the byte-level key derivation: the [repr] bits of
    the preimage are the bits of the compressed encodings, and the 251-bit
    truncation of the digest is the scalar of the masked digest
    ([h[31] &= 0b0000_0111]). *)

From Stdlib Require Import ZArith List Lia Bool Strings.Byte Strings.String Morphisms Setoid.
From stdpp Require Import base decidable option.
From S2P Require Import Prelude Encoding Field Jubjub Gadgets Blake2sRef.
Import ListNotations.
Local Open Scope Z_scope.
Local Open Scope string_scope.
Local Open Scope iron_scope.
Local Open Scope list_scope.

Module MintAsset.

(** [zcash_primitives::sapling::ProofGenerationKey]. *)
Record ProofGenerationKey := mkProofGenerationKey {
  ak : ExtendedPoint;
  nsk : Fr.t
}.

Record MintAsset := mkMintAsset {
  proof_generation_key : option ProofGenerationKey;
  public_key_randomness : option Fr.t
}.

(** Two keys are the same key when their [ak] are the same point
    ([SubgroupPoint]'s [PartialEq]) and their [nsk] are equal. *)
Definition pgk_equiv (k1 k2 : ProofGenerationKey) : Prop :=
  ak k1 == ak k2 /\ nsk k1 = nsk k2.

Definition witness_equiv (w1 w2 : MintAsset) : Prop :=
  option_Forall2 pgk_equiv (proof_generation_key w1) (proof_generation_key w2) /\
  public_key_randomness w1 = public_key_randomness w2.

#[export] Instance pgk_equiv_Equivalence : Equivalence pgk_equiv.
Proof.
  split; unfold pgk_equiv.
  - intros k. split; reflexivity.
  - intros k1 k2 [? ?]. split; now symmetry.
  - intros k1 k2 k3 [? ?] [? ?]. split; etransitivity; eauto.
Qed.

#[export] Instance witness_equiv_Equivalence : Equivalence witness_equiv.
Proof.
  split; unfold witness_equiv.
  - intros w. split; reflexivity.
  - intros w1 w2 [? ?]. split; now symmetry.
  - intros w1 w2 w3 [? ?] [? ?]. split; etransitivity; eauto.
Qed.

Section Circuit.
Context `{Constants} `{Blake2s}.

(** [impl Circuit for MintAsset]: [synthesize]. *)
Definition synthesize (c : MintAsset) : M unit :=
  ak <~ namespace "ak" (witness_point (option_map ak (proof_generation_key c))) ;;
  _ <~ namespace "ak not small order" (assert_not_small_order ak) ;;
  ar <~ namespace "ar"
          (field_into_boolean_vec_le Fr.NUM_BITS (option_map val (public_key_randomness c))) ;;
  ar <~ namespace "computation of randomization for the signing key"
          (fixed_base_multiplication SpendingKeyGenerator ar) ;;
  rk <~ namespace "computation of rk" (add ak ar) ;;
  _ <~ namespace "rk" (inputize rk) ;;
  nsk <~ namespace "nsk"
           (field_into_boolean_vec_le Fr.NUM_BITS
              (option_map (fun k => val (nsk k)) (proof_generation_key c))) ;;
  nk <~ namespace "computation of nk" (fixed_base_multiplication ProofGenerationKeyGenerator nsk) ;;
  repr_ak <~ namespace "representation of ak" (repr ak) ;;
  repr_nk <~ namespace "representation of nk" (repr nk) ;;
  let ivk_preimage := repr_ak ++ repr_nk in
  if negb (length ivk_preimage =? 512)%nat then fail AssertionPanic else
  ivk <~ namespace "computation of ivk" (blake2s ivk_preimage CRH_IVK_PERSONALIZATION) ;;
  let ivk := firstn Fr.CAPACITY ivk in
  pk_d <~ namespace "compute pk_d" (fixed_base_multiplication PublicKeyGenerator ivk) ;;
  namespace "owner public address" (inputize pk_d).

(** The layout every synthesis emits, in the order the specification makes
    normative (namespaces as in the source). *)
Definition mint_asset_layout : list Event :=
  [mkEvent ["ak"] GWitnessPoint;
   mkEvent ["ak not small order"] GAssertNotSmallOrder;
   mkEvent ["ar"] (GBooleanVec 252);
   mkEvent ["computation of randomization for the signing key"] (GFixedBaseMul SpendingKeyGenerator 252);
   mkEvent ["computation of rk"] GPointAdd;
   mkEvent ["rk"] GInputize;
   mkEvent ["nsk"] (GBooleanVec 252);
   mkEvent ["computation of nk"] (GFixedBaseMul ProofGenerationKeyGenerator 252);
   mkEvent ["representation of ak"] GRepr;
   mkEvent ["representation of nk"] GRepr;
   mkEvent ["computation of ivk"] (GBlake2s 512 CRH_IVK_PERSONALIZATION);
   mkEvent ["compute pk_d"] (GFixedBaseMul PublicKeyGenerator 251);
   mkEvent ["owner public address"] GInputize].

(** ** The out-of-circuit key derivation (zcash_primitives) *)

Record ViewingKey := mkViewingKey { vk_ak : ExtendedPoint; vk_nk : ExtendedPoint }.

(** [ProofGenerationKey::to_viewing_key]: [nk = PROOF_GENERATION_KEY_GENERATOR * nsk]. *)
Definition to_viewing_key (k : ProofGenerationKey) : ViewingKey :=
  mkViewingKey (ak k) (ext_mul PROOF_GENERATION_KEY_GENERATOR (nsk k)).

(** [ViewingKey::rk]: [ak + SPENDING_KEY_GENERATOR * ar]. *)
Definition rk (vk : ViewingKey) (ar : Fr.t) : ExtendedPoint :=
  ext_add (vk_ak vk) (ext_mul SPENDING_KEY_GENERATOR ar).

(** [h[31] &= 0b0000_0111]: drop the five most significant bits. *)
Definition mask_digest (h : list Byte.byte) : list Byte.byte :=
  firstn 31 h ++ [byte_of_Z (Z.land (byte_to_Z (nth 31 h Byte.x00)) 7)] ++ skipn 32 h.

(** [ViewingKey::ivk]: Blake2s of [ak.to_bytes() ++ nk.to_bytes()], masked,
    then [Fr::from_repr] ([None] would be the [unwrap] panic). *)
Definition ivk (vk : ViewingKey) : option Fr.t :=
  from_bytes (mask_digest (blake2s_hash CRH_IVK_PERSONALIZATION
                             (point_to_bytes (to_affine (vk_ak vk)) ++
                              point_to_bytes (to_affine (vk_nk vk))))).

(** The public inputs the test computes out of circuit:
    [rk.u, rk.v, pk_d.u, pk_d.v] with [pk_d = PUBLIC_KEY_GENERATOR * ivk]. *)
Definition public_inputs (k : ProofGenerationKey) (ar : Fr.t) : option (list Fq.t) :=
  let vk := to_viewing_key k in
  match ivk vk with
  | None => None
  | Some i =>
      let pk_d := to_affine (ext_mul PUBLIC_KEY_GENERATOR i) in
      let rkp := to_affine (rk vk ar) in
      Some [get_u rkp; get_v rkp; get_u pk_d; get_v pk_d]
  end.

(** ** Parameter generation and the layout *)

(** C7: parameter generation (no closure evaluated) never fails, whatever the
    witness, and produces the fixed layout with four public inputs of
    unknown value. *)
Theorem synthesize_parameter_generation (w : MintAsset) :
  synthesize w (new_cs ParameterGeneration) =
  Ok (tt, mkCS ParameterGeneration [] mint_asset_layout [None; None; None; None] true).
Proof. reflexivity. Qed.

Lemma parameter_generation_run (w : MintAsset) :
  synthesize w (new_cs ParameterGeneration) =
  Ok (tt, mkCS ParameterGeneration [] mint_asset_layout [None; None; None; None] true).
Proof. reflexivity. Qed.

(** ** The bit-level circuit and the byte-level key derivation agree *)

(** The preimage the circuit hashes is the concatenation of the compressed
    encodings of [ak] and [nk]. *)
Lemma preimage_bytes P Q :
  bits_to_bytes (repr_bits P ++ repr_bits Q) = point_to_bytes P ++ point_to_bytes Q.
Proof.
  rewrite <- !bytes_to_bits_point_to_bytes, <- bytes_to_bits_app.
  apply bits_to_bytes_bytes_to_bits.
Qed.

Lemma length_mask_digest h : length h = 32%nat -> length (mask_digest h) = 32%nat.
Proof.
  intros Hl. unfold mask_digest.
  rewrite !length_app, length_firstn, length_skipn, Hl. reflexivity.
Qed.

(** Truncating the digest's bits to [CAPACITY] (in circuit) and masking its
    last byte with [0b0000_0111] (out of circuit) give the same scalar. *)
Lemma truncated_digest h :
  length h = 32%nat ->
  bits_value (firstn Fr.CAPACITY (bytes_to_bits h)) = le_value (mask_digest h).
Proof.
  intros Hl. rewrite <- (le_bytes_le_value h) at 1. rewrite Hl, bytes_to_bits_le_bytes.
  rewrite firstn_bits_le by (unfold Fr.CAPACITY; lia). rewrite bits_value_bits_le.
  unfold mask_digest. rewrite (skipn_all2 h) by lia. rewrite app_nil_r.
  change 7 with (Z.ones 3). rewrite le_value_mask_last by lia. reflexivity.
Qed.

(** [ViewingKey::ivk] never hits its [unwrap] panic: the masked digest is
    always a canonical scalar, below [2^CAPACITY], and it is the value of the
    [CAPACITY] low bits the circuit keeps of the same digest. *)
Lemma ivk_truncation (vk : ViewingKey) :
  let h := blake2s_hash CRH_IVK_PERSONALIZATION
             (point_to_bytes (to_affine (vk_ak vk)) ++ point_to_bytes (to_affine (vk_nk vk))) in
  exists i, ivk vk = Some i /\
            val i = bits_value (firstn Fr.CAPACITY (bytes_to_bits h)) /\
            0 <= val i < 2 ^ Z.of_nat Fr.CAPACITY.
Proof.
  intros h. assert (Hl : length h = 32%nat) by apply blake2s_hash_length.
  assert (Hv : 0 <= bits_value (firstn Fr.CAPACITY (bytes_to_bits h)) < 2 ^ Z.of_nat Fr.CAPACITY).
  { pose proof (bits_value_range (firstn Fr.CAPACITY (bytes_to_bits h))) as R.
    rewrite length_firstn, length_bytes_to_bits, Hl in R. exact R. }
  rewrite truncated_digest in Hv |- * by exact Hl.
  pose proof Fr.capacity_below_modulus.
  exists (of_Z (le_value (mask_digest h))). unfold ivk, from_bytes. fold h.
  rewrite length_mask_digest by exact Hl.
  replace (Z.ltb (le_value (mask_digest h)) (Zpos Fr.modulus)) with true by (symmetry; apply Z.ltb_lt; lia).
  rewrite of_Z_small by lia. auto.
Qed.

(** ** Running the circuit in proving mode *)

(** Unfold the monad and the gadgets, leaving the curve, bit and hash
    functions folded. *)
Ltac synth_run :=
  cbv beta iota zeta delta [synthesize mbind namespace emit alloc enforce alloc_inputs mret
    fail witness_point assert_not_small_order field_into_boolean_vec_le
    fixed_base_multiplication add inputize repr blake2s bit_values option_map fst snd new_cs
    cs_mode cs_ns cs_trace cs_inputs cs_sat proof_generation_key public_key_randomness ak nsk
    negb Nat.eqb Nat.add Nat.mul Nat.min Fr.CAPACITY].

(** The list facts that unblock the run (explicit arguments: the terms sit
    under dependent matches). *)
Ltac synth_known :=
  repeat match goal with
  | |- context [all_known (map Some ?l)] => rewrite (all_known_map_Some l)
  | |- context [length (map Some ?l)] => rewrite (length_map Some l)
  | |- context [length (repr_bits ?p)] => rewrite (length_repr_bits p)
  | |- context [length (bits_le ?n ?z)] => rewrite (length_bits_le n z)
  | |- context [length (?x ++ ?y)] => rewrite (length_app x y)
  | |- context [map Some ?x ++ map Some ?y] => rewrite <- (map_app Some x y)
  | |- context [firstn ?n (map Some ?l)] => rewrite (firstn_map Some n l)
  | |- context [length (firstn ?n ?l)] => rewrite (length_firstn n l)
  | |- context [length (bytes_to_bits ?l)] => rewrite (length_bytes_to_bits l)
  | |- context [length (blake2s_hash ?p ?m)] => rewrite (blake2s_hash_length p m)
  end.

Ltac synth := do 8 (synth_run; synth_known); cbn [app].

(** The out-of-circuit public inputs, written with the affine operations. *)
Lemma public_inputs_eq A N a :
  let RK := point_add (to_affine A) (scalar_mul (val a) (to_affine SPENDING_KEY_GENERATOR)) in
  let h := blake2s_hash CRH_IVK_PERSONALIZATION
             (point_to_bytes (to_affine A) ++
              point_to_bytes (scalar_mul (val N) (to_affine PROOF_GENERATION_KEY_GENERATOR))) in
  let PK := scalar_mul (bits_value (firstn Fr.CAPACITY (bytes_to_bits h)))
                       (to_affine PUBLIC_KEY_GENERATOR) in
  public_inputs (mkProofGenerationKey A N) a = Some [get_u RK; get_v RK; get_u PK; get_v PK].
Proof.
  intros RK h PK. unfold public_inputs.
  destruct (ivk_truncation (to_viewing_key (mkProofGenerationKey A N))) as [i [Hi [Hval _]]].
  rewrite Hi. cbv beta iota zeta. subst RK h PK. unfold to_viewing_key, rk, ext_add, ext_mul in Hval |- *.
  cbn [vk_ak vk_nk ak nsk] in Hval |- *. rewrite to_affine_from_affine in Hval.
  rewrite !to_affine_from_affine.
  rewrite Hval. reflexivity.
Qed.

(** A complete witness whose [ak] passes the small-order check: the run
    ends in the layout, the out-of-circuit inputs, and the curve check of
    [ak] as the only satisfaction condition. *)
Lemma proving_run A N a :
  small_order_u (to_affine A) = false ->
  exists inputs, public_inputs (mkProofGenerationKey A N) a = Some inputs /\
  synthesize (mkMintAsset (Some (mkProofGenerationKey A N)) (Some a)) (new_cs Proving) =
  Ok (tt, mkCS Proving [] mint_asset_layout (map Some inputs) (is_on_curve (to_affine A))).
Proof.
  intros E. rewrite public_inputs_eq. eexists; split; [reflexivity|].
  synth_run. rewrite E. synth. unfold generator_point.
  rewrite !bits_value_bits_le_val by apply Fr.r_num_bits.
  rewrite preimage_bytes. reflexivity.
Qed.

(** A small-order [ak] stops the run at [assert_not_small_order], before
    [ar] is read. *)
Lemma proving_small_order A N ar :
  small_order_u (to_affine A) = true ->
  synthesize (mkMintAsset (Some (mkProofGenerationKey A N)) ar) (new_cs Proving) =
  Err (Synthesis DivisionByZero).
Proof. intros E. synth_run. rewrite E. reflexivity. Qed.

Lemma proving_no_randomness A N :
  small_order_u (to_affine A) = false ->
  synthesize (mkMintAsset (Some (mkProofGenerationKey A N)) None) (new_cs Proving) =
  Err (Synthesis AssignmentMissing).
Proof. intros E. synth_run. rewrite E. reflexivity. Qed.

Lemma proving_no_key ar :
  synthesize (mkMintAsset None ar) (new_cs Proving) = Err (Synthesis AssignmentMissing).
Proof. reflexivity. Qed.

(** The outcome of a proving run, one case per branch of the witness. *)
Lemma proving_cases w cs :
  synthesize w (new_cs Proving) = Ok (tt, cs) ->
  exists A N a inputs,
    w = mkMintAsset (Some (mkProofGenerationKey A N)) (Some a) /\
    small_order_u (to_affine A) = false /\
    public_inputs (mkProofGenerationKey A N) a = Some inputs /\
    cs = mkCS Proving [] mint_asset_layout (map Some inputs) (is_on_curve (to_affine A)).
Proof.
  destruct w as [[[A N]|] [a|]]; intros Hs.
  - destruct (small_order_u (to_affine A)) eqn:E.
    + now rewrite proving_small_order in Hs.
    + destruct (proving_run A N a E) as [inputs [Hp Hr]]. rewrite Hr in Hs.
      apply Ok_inj, pair_inj in Hs as [_ <-]. exists A, N, a, inputs. auto.
  - destruct (small_order_u (to_affine A)) eqn:E.
    + now rewrite proving_small_order in Hs.
    + now rewrite proving_no_randomness in Hs.
  - now rewrite proving_no_key in Hs.
  - now rewrite proving_no_key in Hs.
Qed.

Lemma length_public_inputs k a inputs :
  public_inputs k a = Some inputs -> length inputs = 4%nat.
Proof.
  destruct k as [A N]. rewrite public_inputs_eq. intros Hi%Some_inj'. now subst inputs.
Qed.

(** C1: completeness and refinement: for a complete witness whose [ak] is
    not of small order, proving succeeds with the fixed layout, the four
    public inputs are exactly those the out-of-circuit key derivation
    computes ([rk.u, rk.v, pk_d.u, pk_d.v], with the 251-bit truncated
    Blake2s [ivk]), and the system is satisfied exactly when [ak] lies on
    the curve. *)
Theorem synthesize_proving_complete (k : ProofGenerationKey) (a : Fr.t) :
  small_order_u (to_affine (ak k)) = false ->
  exists inputs, public_inputs k a = Some inputs /\
  synthesize (mkMintAsset (Some k) (Some a)) (new_cs Proving) =
  Ok (tt, mkCS Proving [] mint_asset_layout (map Some inputs) (is_on_curve (to_affine (ak k)))).
Proof. destruct k as [A N]. apply proving_run. Qed.

(** C3: a proof generation key whose [ak] has small order makes proving fail
    with [DivisionByZero] (the [assert_nonzero] inverse of [u(8 ak) = 0]),
    whatever the rerandomiser. *)
Theorem synthesize_small_order (k : ProofGenerationKey) (ar : option Fr.t) :
  small_order_u (to_affine (ak k)) = true ->
  synthesize (mkMintAsset (Some k) ar) (new_cs Proving) = Err (Synthesis DivisionByZero).
Proof. destruct k as [A N]. apply proving_small_order. Qed.

(** C9: proving with a missing part of the witness fails with
    [AssignmentMissing]: no key at all, or a key that passes the small order
    check and no rerandomiser. *)
Theorem synthesize_missing_witness (k : ProofGenerationKey) (ar : option Fr.t) :
  synthesize (mkMintAsset None ar) (new_cs Proving) = Err (Synthesis AssignmentMissing) /\
  (small_order_u (to_affine (ak k)) = false ->
   synthesize (mkMintAsset (Some k) None) (new_cs Proving) = Err (Synthesis AssignmentMissing)).
Proof. destruct k as [A N]. split; [apply proving_no_key | apply proving_no_randomness]. Qed.

(** C4: the layout does not depend on the witness nor on the mode: every
    successful synthesis, proving or parameter generation, records the same
    sequence of gadgets under the same namespaces and allocates exactly four
    public inputs. *)
Theorem synthesize_layout (w : MintAsset) (mode : Mode) (cs : CS) :
  synthesize w (new_cs mode) = Ok (tt, cs) ->
  cs_trace cs = mint_asset_layout /\ length (cs_inputs cs) = 4%nat.
Proof.
  destruct mode; intros Hs.
  - apply proving_cases in Hs as (A & N & a & inputs & _ & _ & Hp & ->).
    cbn [cs_trace cs_inputs]. rewrite length_map. eauto using length_public_inputs.
  - rewrite parameter_generation_run in Hs.
    apply Ok_inj, pair_inj in Hs as [_ <-]. auto.
Qed.

(** C2: soundness of the public inputs: after a successful proving run,
    [verify] accepts a list of inputs if and only if it is the list the
    out-of-circuit code computes from the same witness. *)
Theorem verify_public_inputs (k : ProofGenerationKey) (a : Fr.t) (cs : CS) (inputs : list Fq.t) :
  synthesize (mkMintAsset (Some k) (Some a)) (new_cs Proving) = Ok (tt, cs) ->
  verify cs inputs = true <-> public_inputs k a = Some inputs.
Proof.
  intros Hs. apply proving_cases in Hs as (A & N & a' & ins & Hw & _ & Hp & ->).
  injection Hw as Hk Ha. subst k a'. unfold verify. cbn [cs_inputs]. rewrite Hp, bool_decide_eq_true.
  split.
  - intros Hm. f_equal. exact (map_Some_inj _ _ Hm).
  - intros Hi%Some_inj'. now subst inputs.
Qed.

(** The proving run reads [ak] only through [to_affine], on each side of
    the small-order check. *)
Lemma proving_affine_small A1 A2 N a ns tr ins sat :
  to_affine A1 = to_affine A2 -> small_order_u (to_affine A1) = true ->
  synthesize (mkMintAsset (Some (mkProofGenerationKey A1 N)) a) (mkCS Proving ns tr ins sat) =
  synthesize (mkMintAsset (Some (mkProofGenerationKey A2 N)) a) (mkCS Proving ns tr ins sat).
Proof. intros HA E. synth_run. rewrite E. rewrite HA in E. rewrite E. reflexivity. Qed.

Lemma proving_affine_not_small A1 A2 N a ns tr ins sat :
  to_affine A1 = to_affine A2 -> small_order_u (to_affine A1) = false ->
  synthesize (mkMintAsset (Some (mkProofGenerationKey A1 N)) a) (mkCS Proving ns tr ins sat) =
  synthesize (mkMintAsset (Some (mkProofGenerationKey A2 N)) a) (mkCS Proving ns tr ins sat).
Proof. intros HA E. synth_run. rewrite E. rewrite HA in E. rewrite E, HA. reflexivity. Qed.

(** The same, as a morphism on witnesses. *)
#[export] Instance synthesize_Proper : Proper (witness_equiv ==> eq ==> eq) synthesize.
Proof.
  intros [k1 a1] [k2 a2] [Hk Ha] cs ? <-. cbn [proof_generation_key public_key_randomness] in *.
  subst a2. destruct Hk as [[A1 N1] [A2 N2] [HA HN]|]; [|reflexivity].
  cbn [ak nsk] in HA, HN. subst N2. destruct cs as [[] ns tr ins sat]; [|synth_run; reflexivity].
  destruct (small_order_u (to_affine A1)) eqn:E.
  - now apply proving_affine_small.
  - now apply proving_affine_not_small.
Qed.

(** C8: the [ivk] the test derives out of circuit never panics, has at most
    [CAPACITY] significant bits, agrees bit for bit with the first
    [CAPACITY] bits of the Blake2s digest (the bits the circuit keeps), and
    is the scalar of the last two public inputs, [pk_d = [ivk]
    PUBLIC_KEY_GENERATOR]. *)
Theorem public_inputs_ivk_bits (k : ProofGenerationKey) (ar : Fr.t) :
  let h := blake2s_hash CRH_IVK_PERSONALIZATION
             (point_to_bytes (to_affine (ak k)) ++
              point_to_bytes (scalar_mul (val (nsk k)) (to_affine PROOF_GENERATION_KEY_GENERATOR))) in
  exists inputs s,
    public_inputs k ar = Some inputs /\
    0 <= s < 2 ^ Z.of_nat Fr.CAPACITY /\
    (forall j, Z.testbit s (Z.of_nat j) =
               if (j <? Fr.CAPACITY)%nat then nth j (bytes_to_bits h) false else false) /\
    skipn 2 inputs = [get_u (scalar_mul s (to_affine PUBLIC_KEY_GENERATOR));
                      get_v (scalar_mul s (to_affine PUBLIC_KEY_GENERATOR))].
Proof.
  intros h. destruct k as [A N]. cbn [ak nsk] in h. rewrite public_inputs_eq.
  eexists _, _. split; [reflexivity|]. fold h. split; [|split; [|reflexivity]].
  - pose proof (bits_value_range (firstn Fr.CAPACITY (bytes_to_bits h))) as R.
    assert (Hl : length h = 32%nat) by apply blake2s_hash_length.
    rewrite length_firstn, length_bytes_to_bits, Hl in R. exact R.
  - intros j. rewrite testbit_bits_value, nth_firstn. now destruct (j <? Fr.CAPACITY)%nat.
Qed.

End Circuit.

End MintAsset.

Module MintAssetWitnesses.
Import MintAsset.
#[local] Existing Instance test_constants.

(** A key whose [ak] is the test point, with [nsk = 0]. *)
Definition test_key : ProofGenerationKey := mkProofGenerationKey (from_affine test_point) zero.

Lemma test_key_not_small_order : small_order_u (to_affine (ak test_key)) = false.
Proof. cbn [ak test_key]. rewrite to_affine_from_affine. apply test_point_not_small_order. Qed.

Lemma synthesize_proving_complete_witness :
  exists inputs, public_inputs test_key zero = Some inputs /\
  synthesize (mkMintAsset (Some test_key) (Some zero)) (new_cs Proving) =
  Ok (tt, mkCS Proving [] mint_asset_layout (map Some inputs) (is_on_curve (to_affine (ak test_key)))).
Proof. apply (synthesize_proving_complete test_key zero test_key_not_small_order). Defined.

Lemma verify_public_inputs_witness :
  exists cs, synthesize (mkMintAsset (Some test_key) (Some zero)) (new_cs Proving) = Ok (tt, cs) /\
  forall inputs, verify cs inputs = true <-> public_inputs test_key zero = Some inputs.
Proof.
  destruct (proving_run (from_affine test_point) zero zero test_key_not_small_order) as [ins [_ Hs]].
  eexists; split; [exact Hs|]. intros inputs. apply (verify_public_inputs test_key zero _ inputs Hs).
Defined.

Lemma synthesize_small_order_witness :
  synthesize (mkMintAsset (Some (mkProofGenerationKey ext_identity_default zero)) None)
             (new_cs Proving) = Err (Synthesis DivisionByZero).
Proof. apply synthesize_small_order. vm_compute. reflexivity. Defined.

Lemma synthesize_missing_witness_witness :
  synthesize (mkMintAsset (Some test_key) None) (new_cs Proving) = Err (Synthesis AssignmentMissing).
Proof. apply (proj2 (synthesize_missing_witness test_key None) test_key_not_small_order). Defined.

Lemma synthesize_layout_witness :
  cs_trace (mkCS ParameterGeneration [] mint_asset_layout [None; None; None; None] true) =
    mint_asset_layout /\
  length (cs_inputs (mkCS ParameterGeneration [] mint_asset_layout [None; None; None; None] true)) = 4%nat.
Proof. apply (synthesize_layout (mkMintAsset None None) ParameterGeneration). reflexivity. Defined.

End MintAssetWitnesses.
