(* ===== verification/IoReader.v ===== *)
(** * Reading from a byte slice

    [MintAsset::read] and [ProofGenerationKey::read] read from any
    [std::io::Read]; the sources call them on a byte slice ([&writer[..]],
    serde's [visit_bytes]).  [impl Read for &[u8]] is modelled as a reader
    monad over the unread rest of the slice: a step returns its value and
    the rest, or a failure.  [read_u8] ([byteorder::ReadBytesExt]) and
    [read_exact] fail with [UnexpectedEof] when the slice is too short, as
    the standard library's do.  A panic inside a reader ([unwrap]) is a
    failure of its own kind, [Panicked].

    Two predicates carry the codec proofs: [decodes r e a] (the reader
    returns [a] after consuming exactly [e], whatever follows) and
    [truncation_fails r e] (every strict prefix of [e] is an
    [UnexpectedEof]).  Both compose along [rbind]. *)

From Stdlib Require Import ZArith List Lia Bool Strings.Byte.
From S2P Require Import Prelude.
Import ListNotations.

(** The [std::io::ErrorKind]s the readers raise. *)
Inductive IoErrorKind := UnexpectedEof | InvalidInput.

Inductive ReadFailure :=
| IoError (k : IoErrorKind)
| Panicked (p : Panic).

Definition Reader (A : Type) : Type :=
  list Byte.byte -> result ReadFailure (A * list Byte.byte).

Definition rret {A} (a : A) : Reader A := fun bs => Ok (a, bs).

Definition rbind {A B} (m : Reader A) (k : A -> Reader B) : Reader B :=
  fun bs => match m bs with
            | Ok (a, rest) => k a rest
            | Err e => Err e
            end.

Definition rfail {A} (e : ReadFailure) : Reader A := fun _ => Err e.

Notation "x <-- m ;; k" := (rbind m (fun x => k))
  (at level 60, m at next level, right associativity) : iron_scope.

(** [ReadBytesExt::read_u8]. *)
Definition read_u8 : Reader Byte.byte :=
  fun bs => match bs with
            | [] => Err (IoError UnexpectedEof)
            | b :: rest => Ok (b, rest)
            end.

(** [Read::read_exact] into an [n]-byte buffer. *)
Definition read_exact (n : nat) : Reader (list Byte.byte) :=
  fun bs => if (length bs <? n)%nat then Err (IoError UnexpectedEof)
            else Ok (firstn n bs, skipn n bs).

Definition decodes {A} (r : Reader A) (e : list Byte.byte) (a : A) : Prop :=
  forall rest, r (e ++ rest) = Ok (a, rest).

Definition truncation_fails {A} (r : Reader A) (e : list Byte.byte) : Prop :=
  forall n, (n < length e)%nat -> r (firstn n e) = Err (IoError UnexpectedEof).

Local Open Scope iron_scope.

Lemma rret_decodes {A} (a : A) : decodes (rret a) [] a.
Proof. intros rest. reflexivity. Qed.

Lemma nil_truncation_fails {A} (r : Reader A) : truncation_fails r [].
Proof. intros n Hn. cbn in Hn. lia. Qed.

Section Combinators.
Context {A B : Type}.

Lemma read_u8_decodes b : decodes read_u8 [b] b.
Proof. intros rest. reflexivity. Qed.

Lemma read_u8_truncation_fails b : truncation_fails read_u8 [b].
Proof. intros [|n] Hn; [reflexivity | cbn in Hn; lia]. Qed.

Lemma read_exact_decodes n e : length e = n -> decodes (read_exact n) e e.
Proof.
  intros Hl rest. unfold read_exact. rewrite length_app.
  replace (length e + length rest <? n)%nat with false by (symmetry; apply Nat.ltb_ge; lia).
  now rewrite firstn_app_exact', skipn_app_exact'.
Qed.

Lemma read_exact_short n bs : (length bs < n)%nat -> read_exact n bs = Err (IoError UnexpectedEof).
Proof. intros Hl. unfold read_exact. now rewrite (proj2 (Nat.ltb_lt _ _) Hl). Qed.

Lemma read_exact_truncation_fails n e : length e = n -> truncation_fails (read_exact n) e.
Proof. intros Hl m Hm. apply read_exact_short. rewrite length_firstn. lia. Qed.

Lemma rbind_decodes (r : Reader A) (k : A -> Reader B) e1 e2 a b :
  decodes r e1 a -> decodes (k a) e2 b -> decodes (rbind r k) (e1 ++ e2) b.
Proof. intros H1 H2 rest. unfold rbind. rewrite <- app_assoc, H1. apply H2. Qed.

Lemma rbind_truncation_fails (r : Reader A) (k : A -> Reader B) e1 e2 a :
  decodes r e1 a -> truncation_fails r e1 -> truncation_fails (k a) e2 ->
  truncation_fails (rbind r k) (e1 ++ e2).
Proof.
  intros D T1 T2 n Hn. rewrite length_app in Hn. unfold rbind.
  destruct (Nat.lt_ge_cases n (length e1)) as [Hlt|Hge].
  - rewrite firstn_app_le by lia. now rewrite T1.
  - rewrite firstn_app, firstn_all2 by lia. rewrite D. apply T2. lia.
Qed.

(** A reader followed by a pure map. *)
Lemma rmap_decodes (r : Reader A) (f : A -> B) e a :
  decodes r e a -> decodes (x <-- r ;; rret (f x)) e (f a).
Proof.
  intros H. rewrite <- (app_nil_r e). apply (rbind_decodes _ _ _ _ a); auto.
  apply rret_decodes.
Qed.

Lemma rmap_truncation_fails (r : Reader A) (f : A -> B) e a :
  decodes r e a -> truncation_fails r e -> truncation_fails (x <-- r ;; rret (f x)) e.
Proof.
  intros D T. rewrite <- (app_nil_r e). apply (rbind_truncation_fails _ _ _ _ a); auto.
  apply nil_truncation_fails.
Qed.

(** Inversion of a successful reading: what each step consumed. *)
Lemma rbind_Ok (r : Reader A) (k : A -> Reader B) bs b rest :
  rbind r k bs = Ok (b, rest) -> exists a mid, r bs = Ok (a, mid) /\ k a mid = Ok (b, rest).
Proof. unfold rbind. destruct (r bs) as [[a mid]|e]; [eauto | discriminate]. Qed.

Lemma rret_Ok (a a' : A) bs rest : rret a bs = Ok (a', rest) -> a' = a /\ rest = bs.
Proof. intros H. injection H as -> ->. auto. Qed.

Lemma read_u8_Ok bs b rest : read_u8 bs = Ok (b, rest) -> bs = b :: rest.
Proof. destruct bs; [discriminate | intros H; now injection H as -> ->]. Qed.

Lemma read_exact_Ok n bs e rest :
  read_exact n bs = Ok (e, rest) -> bs = e ++ rest /\ length e = n.
Proof.
  unfold read_exact. destruct (Nat.ltb_spec (length bs) n); [discriminate|].
  intros E. injection E as <- <-. split; [symmetry; apply firstn_skipn|].
  rewrite length_firstn. lia.
Qed.

End Combinators.

(** Take a successful [rbind] apart in a hypothesis. *)
Ltac rbind_inv H :=
  let a := fresh "a" in let mid := fresh "mid" in
  let H1 := fresh H in
  apply rbind_Ok in H; destruct H as [a [mid [H1 H]]].

#[export] Hint Resolve rret_decodes nil_truncation_fails read_u8_decodes
  read_u8_truncation_fails : iron.

Lemma byte_eqb_neq b b' : b <> b' -> Byte.eqb b b' = false.
Proof.
  intros Hne. destruct (Byte.eqb b b') eqn:E; [|reflexivity].
  now apply Byte.byte_dec_bl in E.
Qed.

(** ** Optional values behind a presence byte

    [if reader.read_u8()? == 1 { .. Some(..) } else { None }], followed by
    the rest [k] of the reading. *)
Section Presence.
Context {A B : Type} (r : Reader (option A)) (k : option A -> Reader B).

Definition presence_reader : Reader B :=
  t <-- read_u8 ;; rbind (if Byte.eqb t Byte.x01 then r else rret None) k.

Lemma presence_some_decodes e1 e2 o b :
  decodes r e1 o -> decodes (k o) e2 b -> decodes presence_reader (Byte.x01 :: e1 ++ e2) b.
Proof.
  intros H1 H2. apply (rbind_decodes _ _ [Byte.x01] (e1 ++ e2) Byte.x01); [apply read_u8_decodes|].
  apply (rbind_decodes _ _ _ _ o); assumption.
Qed.

Lemma presence_none_decodes t e2 b :
  Byte.eqb t Byte.x01 = false -> decodes (k None) e2 b -> decodes presence_reader (t :: e2) b.
Proof.
  intros Ht H2. apply (rbind_decodes _ _ [t] e2 t); [apply read_u8_decodes|].
  cbv beta. rewrite Ht. apply (rbind_decodes _ _ [] e2 None); [apply rret_decodes | assumption].
Qed.

Lemma presence_some_truncation_fails e1 e2 o :
  decodes r e1 o -> truncation_fails r e1 -> truncation_fails (k o) e2 ->
  truncation_fails presence_reader (Byte.x01 :: e1 ++ e2).
Proof.
  intros D T1 T2.
  apply (rbind_truncation_fails _ _ [Byte.x01] (e1 ++ e2) Byte.x01); auto with iron.
  apply (rbind_truncation_fails _ _ _ _ o); assumption.
Qed.

Lemma presence_none_truncation_fails t e2 :
  Byte.eqb t Byte.x01 = false -> truncation_fails (k None) e2 ->
  truncation_fails presence_reader (t :: e2).
Proof.
  intros Ht T2. apply (rbind_truncation_fails _ _ [t] e2 t); auto with iron.
  cbv beta. rewrite Ht. apply (rbind_truncation_fails _ _ [] e2 None); auto with iron.
Qed.

End Presence.
