(* ===== verification/PgkCodec.v ===== *)
(** * The byte encoding of [ProofGenerationKey]

    [MintAsset::write] writes [proof_generation_key.to_bytes_le()] and
    [MintAsset::read] calls [ProofGenerationKey::read]; both belong to the
    sapling key code of zcash_primitives, outside the sources.  What the
    witness codec needs of them is the interface [ProofGenerationKeyCodec]:
    on every valid key ([pgk_valid]: the type invariants of [SubgroupPoint]
    and [Fr] the encoding relies on), the reader decodes what the writer
    writes into the key [pgk_canon k] (the same key, [pgk_equiv], in the
    representation the reader rebuilds), and fails with [UnexpectedEof] on
    every truncation; and every key the reader returns is valid, already
    in the reader's representation, and was read from its own encoding
    ([pgk_read_sound]: no key has a second encoding the reader accepts).

    Two instances discharge it:
    - [compressed_pgk_codec], the encoding of the specification: [ak] in
      its 32-byte compressed form ([SubgroupPoint::to_bytes]) then [nsk];
      the reader decompresses [ak] ([SubgroupPoint::from_bytes], which
      checks the curve and the subgroup) and fails with [InvalidInput] on a
      point or scalar it rejects; a valid key is one whose [ak] is on the
      curve and torsion free, and the key read back has [ak] in affine form;
    - [extended_pgk_codec]: [ak] in the 160-byte extended encoding
      ([SubgroupPoint::to_bytes_le], as [EphemeralKeyPair] stores its point)
      then [nsk]; every key is valid and reads back exactly. *)

From Stdlib Require Import ZArith List Lia Bool Strings.Byte Setoid.
From S2P Require Import Prelude Encoding Field Jubjub Decompress MintAsset IoReader.
Import ListNotations.
Local Open Scope Z_scope.
Local Open Scope iron_scope.
Import MintAsset.

Class ProofGenerationKeyCodec := {
  pgk_to_bytes_le : ProofGenerationKey -> list Byte.byte;
  pgk_read : Reader ProofGenerationKey;
  pgk_valid : ProofGenerationKey -> bool;
  pgk_canon : ProofGenerationKey -> ProofGenerationKey;
  pgk_canon_equiv : forall k, pgk_equiv (pgk_canon k) k;
  pgk_read_decodes : forall k, pgk_valid k = true ->
    decodes pgk_read (pgk_to_bytes_le k) (pgk_canon k);
  pgk_read_truncation_fails : forall k, pgk_valid k = true ->
    truncation_fails pgk_read (pgk_to_bytes_le k);
  pgk_read_sound : forall bs k rest, pgk_read bs = Ok (k, rest) ->
    pgk_valid k = true /\ pgk_canon k = k /\ bs = pgk_to_bytes_le k ++ rest
}.

(** A 32-byte scalar after a decoded prefix: the common tail of both
    readers. *)
Section NskTail.
Variable ak : ExtendedPoint.

Definition read_nsk : Reader ProofGenerationKey :=
  nsk_bytes <-- read_exact 32 ;;
  match from_bytes nsk_bytes with
  | None => rfail (IoError InvalidInput)
  | Some nsk => rret (mkProofGenerationKey ak nsk)
  end.

Lemma read_nsk_decodes (N : Fr.t) : decodes read_nsk (to_bytes N) (mkProofGenerationKey ak N).
Proof.
  rewrite <- (app_nil_r (to_bytes N)).
  apply (rbind_decodes _ _ _ _ (to_bytes N)); [apply read_exact_decodes, length_to_bytes|].
  cbv beta. rewrite from_bytes_to_bytes by auto with iron. apply rret_decodes.
Qed.

Lemma read_nsk_truncation_fails (N : Fr.t) : truncation_fails read_nsk (to_bytes N).
Proof.
  rewrite <- (app_nil_r (to_bytes N)).
  apply (rbind_truncation_fails _ _ _ _ (to_bytes N));
    [apply read_exact_decodes, length_to_bytes
    | apply read_exact_truncation_fails, length_to_bytes | apply nil_truncation_fails].
Qed.
End NskTail.

(** A fixed-length point encoding followed by the scalar. *)
Lemma point_then_nsk_decodes n (dec : list Byte.byte -> option ExtendedPoint) e A (N : Fr.t) :
  length e = n -> dec e = Some A ->
  decodes (ak_bytes <-- read_exact n ;;
           match dec ak_bytes with
           | None => rfail (IoError InvalidInput)
           | Some ak => read_nsk ak
           end) (e ++ to_bytes N) (mkProofGenerationKey A N).
Proof.
  intros Hl Hd. apply (rbind_decodes _ _ _ _ e); [now apply read_exact_decodes|].
  cbv beta. rewrite Hd. apply read_nsk_decodes.
Qed.

Lemma point_then_nsk_truncation_fails n (dec : list Byte.byte -> option ExtendedPoint) e A (N : Fr.t) :
  length e = n -> dec e = Some A ->
  truncation_fails (ak_bytes <-- read_exact n ;;
                    match dec ak_bytes with
                    | None => rfail (IoError InvalidInput)
                    | Some ak => read_nsk ak
                    end) (e ++ to_bytes N).
Proof.
  intros Hl Hd. apply (rbind_truncation_fails _ _ _ _ e);
    [now apply read_exact_decodes | now apply read_exact_truncation_fails |].
  cbv beta. rewrite Hd. apply read_nsk_truncation_fails.
Qed.

(** What a successful reading of a point then a scalar consumed. *)
Lemma point_then_nsk_Ok n (dec : list Byte.byte -> option ExtendedPoint) bs k rest :
  (ak_bytes <-- read_exact n ;;
   match dec ak_bytes with
   | None => rfail (IoError InvalidInput)
   | Some ak => read_nsk ak
   end) bs = Ok (k, rest) ->
  exists e, length e = n /\ dec e = Some (ak k) /\ bs = e ++ to_bytes (nsk k) ++ rest.
Proof.
  intros H. rbind_inv H. apply read_exact_Ok in H0 as [-> Hl].
  destruct (dec a) as [A|] eqn:Hd; [|discriminate].
  unfold read_nsk in H. rbind_inv H. apply read_exact_Ok in H0 as [-> _].
  destruct (from_bytes a0) as [N|] eqn:HN; [|discriminate].
  apply rret_Ok in H as [-> ->]. apply to_bytes_from_bytes in HN. subst a0.
  exists a. auto.
Qed.

(** ** The compressed encoding of the specification *)

Module CompressedPgkCodec.

(** [ProofGenerationKey::to_bytes]: [ak.to_bytes()] then [nsk.to_repr()]. *)
Definition to_bytes_le (k : ProofGenerationKey) : list Byte.byte :=
  subgroup_to_bytes (ak k) ++ to_bytes (nsk k).

(** [ProofGenerationKey::read]. *)
Definition read : Reader ProofGenerationKey :=
  ak_bytes <-- read_exact 32 ;;
  match subgroup_from_bytes ak_bytes with
  | None => rfail (IoError InvalidInput)
  | Some ak => read_nsk ak
  end.

(** [ak] is a [SubgroupPoint]: on the curve and torsion free. *)
Definition valid (k : ProofGenerationKey) : bool :=
  is_on_curve (to_affine (ak k)) && is_torsion_free (ak k).

Definition canon (k : ProofGenerationKey) : ProofGenerationKey :=
  mkProofGenerationKey (from_affine (to_affine (ak k))) (nsk k).

Lemma compressed_canon_equiv k : pgk_equiv (canon k) k.
Proof. split; [apply from_affine_ext_eq | reflexivity]. Qed.

Lemma compressed_read_decodes k : valid k = true -> decodes read (to_bytes_le k) (canon k).
Proof.
  intros [Hc Ht]%andb_true_iff. apply (point_then_nsk_decodes 32 subgroup_from_bytes).
  - apply length_subgroup_to_bytes.
  - now apply subgroup_from_bytes_to_bytes.
Qed.

Lemma compressed_read_truncation_fails k : valid k = true -> truncation_fails read (to_bytes_le k).
Proof.
  intros [Hc Ht]%andb_true_iff.
  apply (point_then_nsk_truncation_fails 32 subgroup_from_bytes _ (from_affine (to_affine (ak k))));
    [apply length_subgroup_to_bytes | now apply subgroup_from_bytes_to_bytes].
Qed.

Lemma compressed_read_sound bs k rest : read bs = Ok (k, rest) ->
  valid k = true /\ canon k = k /\ bs = to_bytes_le k ++ rest.
Proof.
  intros H. apply point_then_nsk_Ok in H as [e [Hl [Hd ->]]].
  destruct (subgroup_from_bytes_Some e (ak k) Hl Hd) as [Hc [Ht [Ha He]]].
  unfold valid, canon, to_bytes_le. rewrite Hc, Ht, Ha, He, <- app_assoc. destruct k. auto.
Qed.

End CompressedPgkCodec.

Definition compressed_pgk_codec : ProofGenerationKeyCodec := {|
  pgk_to_bytes_le := CompressedPgkCodec.to_bytes_le;
  pgk_read := CompressedPgkCodec.read;
  pgk_valid := CompressedPgkCodec.valid;
  pgk_canon := CompressedPgkCodec.canon;
  pgk_canon_equiv := CompressedPgkCodec.compressed_canon_equiv;
  pgk_read_decodes := CompressedPgkCodec.compressed_read_decodes;
  pgk_read_truncation_fails := CompressedPgkCodec.compressed_read_truncation_fails;
  pgk_read_sound := CompressedPgkCodec.compressed_read_sound
|}.

(** ** The extended encoding *)

Module ExtendedPgkCodec.

Definition to_bytes_le (k : ProofGenerationKey) : list Byte.byte :=
  ext_to_bytes_le (ak k) ++ to_bytes (nsk k).

Definition read : Reader ProofGenerationKey :=
  ak_bytes <-- read_exact 160 ;;
  match ext_from_bytes_le ak_bytes with
  | None => rfail (IoError InvalidInput)
  | Some ak => read_nsk ak
  end.

Lemma extended_canon_equiv k : pgk_equiv k k.
Proof. split; reflexivity. Qed.

Lemma extended_read_decodes k : true = true -> decodes read (to_bytes_le k) k.
Proof.
  intros _. destruct k as [A N]. apply (point_then_nsk_decodes 160 ext_from_bytes_le).
  - apply length_ext_to_bytes_le.
  - apply ext_from_bytes_le_to_bytes_le.
Qed.

Lemma extended_read_truncation_fails k : true = true -> truncation_fails read (to_bytes_le k).
Proof.
  intros _. apply (point_then_nsk_truncation_fails 160 ext_from_bytes_le _ (ak k));
    [apply length_ext_to_bytes_le | apply ext_from_bytes_le_to_bytes_le].
Qed.

Lemma extended_read_sound bs k rest : read bs = Ok (k, rest) ->
  true = true /\ k = k /\ bs = to_bytes_le k ++ rest.
Proof.
  intros H. apply point_then_nsk_Ok in H as [e [_ [Hd ->]]].
  apply ext_to_bytes_le_from_bytes_le in Hd. unfold to_bytes_le. rewrite Hd, <- app_assoc. auto.
Qed.

End ExtendedPgkCodec.

Definition extended_pgk_codec : ProofGenerationKeyCodec := {|
  pgk_to_bytes_le := ExtendedPgkCodec.to_bytes_le;
  pgk_read := ExtendedPgkCodec.read;
  pgk_valid := fun _ => true;
  pgk_canon := fun k => k;
  pgk_canon_equiv := ExtendedPgkCodec.extended_canon_equiv;
  pgk_read_decodes := ExtendedPgkCodec.extended_read_decodes;
  pgk_read_truncation_fails := ExtendedPgkCodec.extended_read_truncation_fails;
  pgk_read_sound := ExtendedPgkCodec.extended_read_sound
|}.
