(* ===== verification/IoWriter.v ===== *)
(** * Writing into a sink

    [MintAsset::write] writes into any [std::io::Write] and propagates each
    write's error with [?].  A sink is modelled by what it holds and its
    capacity: a [Vec<u8>] grows without bound, a [&mut [u8]] holds a fixed
    number of bytes.  [write_all] into a fixed buffer copies what fits and
    then fails with [WriteZero]; the bytes already copied stay in the
    buffer.  A writer step returns its outcome and the sink after it, so a
    failed write still shows what it left behind. *)

From Stdlib Require Import ZArith List Lia Bool Strings.Byte.
From S2P Require Import Prelude.
Import ListNotations.

Inductive WriteErrorKind := WriteZero.

Record Sink := mkSink {
  contents : list Byte.byte;
  capacity : option nat    (** [None] for a [Vec<u8>] *)
}.

Definition vec_sink (v : list Byte.byte) : Sink := mkSink v None.
Definition slice_sink (n : nat) : Sink := mkSink [] (Some n).

Definition Writer (A : Type) : Type := Sink -> result WriteErrorKind A * Sink.

Definition wret {A} (a : A) : Writer A := fun s => (Ok a, s).

(** [?]: stop at the first error, keeping the sink as it is. *)
Definition wbind {A B} (m : Writer A) (k : A -> Writer B) : Writer B :=
  fun s => match m s with
           | (Ok a, s') => k a s'
           | (Err e, s') => (Err e, s')
           end.

Notation "x <+ m ;; k" := (wbind m (fun x => k))
  (at level 60, m at next level, right associativity) : iron_scope.

(** [Write::write_all]. *)
Definition write_all (bs : list Byte.byte) : Writer unit :=
  fun s => match capacity s with
           | None => (Ok tt, mkSink (contents s ++ bs) None)
           | Some n =>
               let room := n - length (contents s) in
               if (length bs <=? room)%nat then (Ok tt, mkSink (contents s ++ bs) (Some n))
               else (Err WriteZero, mkSink (contents s ++ firstn room bs) (Some n))
           end.

(** [WriteBytesExt::write_u8]. *)
Definition write_u8 (b : Byte.byte) : Writer unit := write_all [b].

(** A sink never holds more than its capacity. *)
Definition sink_wf (s : Sink) : Prop :=
  match capacity s with Some n => (length (contents s) <= n)%nat | None => True end.

(** ** Writing a byte string piece by piece

    [writes m e a]: on every well-formed sink, [m] behaves as one
    [write_all e] followed by [Ok a]: it appends [e] when it fits, and
    otherwise fills the sink with the prefix of [e] that fits and fails with
    [WriteZero]. *)
Definition room (s : Sink) (e : list Byte.byte) : nat :=
  match capacity s with Some n => n | None => length (contents s ++ e) end.

Definition writes {A} (m : Writer A) (e : list Byte.byte) (a : A) : Prop :=
  forall s, sink_wf s ->
    m s = if (length (contents s ++ e) <=? room s e)%nat
          then (Ok a, mkSink (contents s ++ e) (capacity s))
          else (Err WriteZero, mkSink (firstn (room s e) (contents s ++ e)) (capacity s)).

Local Open Scope iron_scope.

Lemma wret_writes {A} (a : A) : writes (wret a) [] a.
Proof.
  intros [c [n|]] Hwf; unfold wret, room, sink_wf in *; cbn [capacity contents] in *;
    rewrite app_nil_r; [|now rewrite Nat.leb_refl].
  now replace (length c <=? n)%nat with true by (symmetry; apply Nat.leb_le; lia).
Qed.

Lemma write_all_writes bs : writes (write_all bs) bs tt.
Proof.
  intros [c [n|]] Hwf; unfold write_all, room, sink_wf in *; cbn [capacity contents] in *;
    rewrite ?length_app; [|now rewrite Nat.leb_refl].
  destruct (Nat.leb_spec (length bs) (n - length c)) as [H|H].
  - now replace (length c + length bs <=? n)%nat with true by (symmetry; apply Nat.leb_le; lia).
  - replace (length c + length bs <=? n)%nat with false by (symmetry; apply Nat.leb_gt; lia).
    rewrite firstn_app, (firstn_all2 (n := n) c) by lia. reflexivity.
Qed.

Lemma write_u8_writes b : writes (write_u8 b) [b] tt.
Proof. apply write_all_writes. Qed.

Lemma wbind_writes {A B} (m : Writer A) (k : A -> Writer B) e1 e2 a b :
  writes m e1 a -> writes (k a) e2 b -> writes (wbind m k) (e1 ++ e2) b.
Proof.
  intros H1 H2 s Hwf. unfold wbind. rewrite (H1 s Hwf).
  destruct s as [c [n|]]; unfold room, sink_wf in *; cbn [capacity contents] in *.
  - rewrite !length_app. destruct (Nat.leb_spec (length c + length e1) n) as [L1|L1].
    + rewrite H2 by (cbn; rewrite length_app; lia). unfold room. cbn [capacity contents].
      now rewrite <- app_assoc, !length_app, Nat.add_assoc.
    + replace (length c + (length e1 + length e2) <=? n)%nat with false
        by (symmetry; apply Nat.leb_gt; lia).
      now rewrite app_assoc, (firstn_app_le n (c ++ e1)) by (rewrite length_app; lia).
  - rewrite Nat.leb_refl, H2 by exact I. unfold room. cbn [capacity contents].
    now rewrite <- app_assoc, !Nat.leb_refl.
Qed.

#[export] Hint Resolve wret_writes write_all_writes write_u8_writes : iron.

(** What [writes] says of the two kinds of sink. *)
Lemma writes_vec {A} (m : Writer A) e a v :
  writes m e a -> m (vec_sink v) = (Ok a, vec_sink (v ++ e)).
Proof. intros H. rewrite H by exact I. unfold room. cbn. now rewrite Nat.leb_refl. Qed.

Lemma writes_slice {A} (m : Writer A) e a n :
  writes m e a ->
  m (slice_sink n) = if (length e <=? n)%nat then (Ok a, mkSink e (Some n))
                     else (Err WriteZero, mkSink (firstn n e) (Some n)).
Proof. intros H. rewrite H by (cbn; lia). reflexivity. Qed.
