(* ===== verification/MintAssetCodec.v ===== *)
(** * The Mint-Asset witness codec and its serde bridge

    [src/ironfish-zkp/src/circuits/mint_asset.rs], [impl MintAsset]:
    - [write_into]: a presence byte ([1] or [0]) for
      [proof_generation_key], followed by [ProofGenerationKey::to_bytes_le]
      when present, then a presence byte for [public_key_randomness]
      followed by its 32-byte [to_bytes], into any sink, each write's error
      propagated; [write] is the byte string it writes, which is all the
      sources use (they write into a [Vec<u8>]);
    - [read]: reads a presence byte, and the value only when the byte is
      [1]; the key through [ProofGenerationKey::read], the scalar through
      [read_exact] and [Fr::from_bytes(..).unwrap()];
    - [serialize] ([write] into a vector, handed to [serialize_bytes]),
      [deserialize] ([impl Deserialize]) and
      [deserialize_output]/[visit_bytes] ([read(v).unwrap()]).

    The key's own encoding belongs to zcash_primitives and is not in the
    sources: it is the interface [ProofGenerationKeyCodec] of [PgkCodec],
    and the codec is proved for any instance of it (the witnesses use the
    compressed encoding of the specification).  [witness_valid] says a
    present key is valid for that encoding, and [canon] is the witness
    [read] rebuilds, the same witness up to [witness_equiv].

    Theorems: [write_into] into a fixed buffer fails with [WriteZero] exactly when [write w] does not fit,
    leaving the prefix that fits; [read] inverts [write] on valid witnesses
    whatever follows, and the witness read back synthesizes the same
    constraint system; every truncation of a valid [write] output is an
    [UnexpectedEof]; a presence byte other than [1] reads as absent; a
    non-canonical [ar] makes [read] panic; the serde bridge round-trips and
    ignores trailing bytes, and turns every read error into a panic.  In the
    other direction, every witness [read] returns reads back exactly from
    its own re-encoding; with the compressed key encoding, a ZIP 216 encoding of
    [ak] makes [read] fail with [InvalidInput]. *)

From Stdlib Require Import Strings.String ZArith List Lia Bool Strings.Byte.
From S2P Require Import Prelude Encoding Field Jubjub Gadgets Blake2sRef Decompress MintAsset IoReader IoWriter PgkCodec.
Import ListNotations.
Local Open Scope Z_scope.
Local Open Scope iron_scope.
Import MintAsset.

Module MintAssetCodec.
Section Codec.
Context `{ProofGenerationKeyCodec}.

(** [MintAsset::write] into a [Vec<u8>]. *)
Definition write (w : MintAsset) : list Byte.byte :=
  match proof_generation_key w with
  | Some proof_generation_key => [Byte.x01] ++ pgk_to_bytes_le proof_generation_key
  | None => [Byte.x00]
  end ++
  match public_key_randomness w with
  | Some public_key_randomness => [Byte.x01] ++ to_bytes public_key_randomness
  | None => [Byte.x00]
  end.

(** [MintAsset::write] into any sink, each write's error propagated by
    [?]; [write] above is what it writes. *)
Definition write_into (w : MintAsset) : Writer unit :=
  _ <+ match proof_generation_key w with
       | Some proof_generation_key =>
           _ <+ write_u8 Byte.x01 ;; write_all (pgk_to_bytes_le proof_generation_key)
       | None => write_u8 Byte.x00
       end ;;
  _ <+ match public_key_randomness w with
       | Some public_key_randomness =>
           _ <+ write_u8 Byte.x01 ;; write_all (to_bytes public_key_randomness)
       | None => write_u8 Byte.x00
       end ;;
  wret tt.

(** [MintAsset::read]. *)
Definition read : Reader MintAsset :=
  b <-- read_u8 ;;
  proof_generation_key <--
    (if Byte.eqb b Byte.x01
     then k <-- pgk_read ;; rret (Some k)
     else rret None) ;;
  b <-- read_u8 ;;
  public_key_randomness <--
    (if Byte.eqb b Byte.x01
     then bytes <-- read_exact 32 ;;
          match from_bytes bytes with
          | Some a => rret (Some a)
          | None => rfail (Panicked UnwrapNone)
          end
     else rret None) ;;
  rret (mkMintAsset proof_generation_key public_key_randomness).

(** The witnesses [write] can encode: a present key must be valid for the
    key encoding ([SubgroupPoint]'s invariant for the compressed one). *)
Definition witness_valid (w : MintAsset) : bool :=
  match proof_generation_key w with
  | Some k => pgk_valid k
  | None => true
  end.

(** The witness [read] rebuilds from [write w]: the key in the
    representation of its decoder. *)
Definition canon (w : MintAsset) : MintAsset :=
  mkMintAsset (option_map pgk_canon (proof_generation_key w)) (public_key_randomness w).

Lemma canon_equiv (w : MintAsset) : witness_equiv (canon w) w.
Proof.
  destruct w as [[k|] a]; split; try reflexivity. constructor. apply pgk_canon_equiv.
Qed.

(** [impl Serialize]: the blob handed to [serialize_bytes]
    ([self.write(&mut v).unwrap()] cannot fail on a vector). *)
Definition serialize (w : MintAsset) : list Byte.byte := write w.

(** [BytesVisitor::expecting]. *)
Definition expecting : string := "a proof".

(** [BytesVisitor::visit_bytes]: [MintAsset::read(v).unwrap()]; bytes after
    the witness are not looked at. *)
Definition visit_bytes (v : list Byte.byte) : result Panic MintAsset :=
  match read v with
  | Ok (p, _) => Ok p
  | Err (IoError _) => Err UnwrapErr
  | Err (Panicked p) => Err p
  end.

(** [deserialize_output]: [deserialize_bytes] hands the blob to the
    visitor. *)
Definition deserialize_output (blob : list Byte.byte) : result Panic MintAsset :=
  visit_bytes blob.

(** [impl Deserialize for MintAsset]: [deserialize_output(d)]. *)
Definition deserialize (blob : list Byte.byte) : result Panic MintAsset :=
  deserialize_output blob.

(** ** The two fields *)

Definition read_ar_field : Reader (option Fr.t) :=
  bytes <-- read_exact 32 ;;
  match from_bytes bytes with
  | Some a => rret (Some a)
  | None => rfail (Panicked UnwrapNone)
  end.

Lemma read_ar_field_decodes (a : Fr.t) : decodes read_ar_field (to_bytes a) (Some a).
Proof.
  rewrite <- (app_nil_r (to_bytes a)). apply (rbind_decodes _ _ _ _ (to_bytes a)).
  - apply read_exact_decodes, length_to_bytes.
  - cbv beta. rewrite from_bytes_to_bytes by auto with iron. apply rret_decodes.
Qed.

Lemma read_ar_field_truncation_fails (a : Fr.t) : truncation_fails read_ar_field (to_bytes a).
Proof.
  rewrite <- (app_nil_r (to_bytes a)). apply (rbind_truncation_fails _ _ _ _ (to_bytes a)).
  - apply read_exact_decodes, length_to_bytes.
  - apply read_exact_truncation_fails, length_to_bytes.
  - apply nil_truncation_fails.
Qed.


(** One field of the witness at a time: the key, then the scalar (the
    last field), present or absent. *)
Ltac key_decodes k Hk :=
  apply (presence_some_decodes _ _ (pgk_to_bytes_le k) _ (Some (pgk_canon k)));
  [apply rmap_decodes, pgk_read_decodes, Hk|].
Ltac scalar_decodes a :=
  rewrite <- (app_nil_r (to_bytes a));
  apply (presence_some_decodes _ _ (to_bytes a) [] (Some a));
  [apply read_ar_field_decodes | apply rret_decodes].
Ltac absent_decodes := apply (presence_none_decodes _ _ Byte.x00); [reflexivity|].
Ltac last_absent_decodes :=
  apply (presence_none_decodes _ _ Byte.x00 []); [reflexivity | apply rret_decodes].

Ltac key_truncation k Hk :=
  apply (presence_some_truncation_fails _ _ (pgk_to_bytes_le k) _ (Some (pgk_canon k)));
  [apply rmap_decodes, pgk_read_decodes, Hk
  | apply (rmap_truncation_fails _ _ _ (pgk_canon k));
    [apply pgk_read_decodes, Hk | apply pgk_read_truncation_fails, Hk]
  |].
Ltac scalar_truncation a :=
  rewrite <- (app_nil_r (to_bytes a));
  apply (presence_some_truncation_fails _ _ (to_bytes a) [] (Some a));
  [apply read_ar_field_decodes | apply read_ar_field_truncation_fails | apply nil_truncation_fails].
Ltac absent_truncation := apply (presence_none_truncation_fails _ _ Byte.x00); [reflexivity|].
Ltac last_absent_truncation :=
  apply (presence_none_truncation_fails _ _ Byte.x00 []); [reflexivity | apply nil_truncation_fails].

(** [read] decodes what [write] writes, and fails on each truncation. *)
Lemma read_decodes_write (w : MintAsset) : witness_valid w = true -> decodes read (write w) (canon w).
Proof.
  destruct w as [[k|] [a|]]; unfold write, witness_valid, canon;
    cbn [proof_generation_key public_key_randomness app option_map]; intros Hk.
  - key_decodes k Hk. scalar_decodes a.
  - key_decodes k Hk. last_absent_decodes.
  - absent_decodes. scalar_decodes a.
  - absent_decodes. last_absent_decodes.
Qed.

Lemma read_truncation_fails_write (w : MintAsset) :
  witness_valid w = true -> truncation_fails read (write w).
Proof.
  destruct w as [[k|] [a|]]; unfold write, witness_valid;
    cbn [proof_generation_key public_key_randomness app]; intros Hk.
  - key_truncation k Hk. scalar_truncation a.
  - key_truncation k Hk. last_absent_truncation.
  - absent_truncation. scalar_truncation a.
  - absent_truncation. last_absent_truncation.
Qed.

(** One optional field behind its presence byte. *)
Lemma presence_field_writes {A} (o : option A) (f : A -> list Byte.byte) :
  writes (match o with
          | Some x => _ <+ write_u8 Byte.x01 ;; write_all (f x)
          | None => write_u8 Byte.x00
          end)
         (match o with Some x => [Byte.x01] ++ f x | None => [Byte.x00] end) tt.
Proof.
  destruct o as [x|]; [|apply write_u8_writes].
  apply (wbind_writes _ _ _ _ tt); [apply write_u8_writes | apply write_all_writes].
Qed.

Lemma write_into_writes (w : MintAsset) : writes (write_into w) (write w) tt.
Proof.
  unfold write_into, write.
  match goal with |- writes _ (?x ++ ?y) _ => rewrite <- (app_nil_r y) end.
  apply (wbind_writes _ _ _ _ tt); [apply presence_field_writes|].
  apply (wbind_writes _ _ _ _ tt); [apply presence_field_writes | apply wret_writes].
Qed.

(** C11: into a fixed buffer of [n] bytes, [write] succeeds exactly when the
    encoding fits; otherwise it fails with [WriteZero] and leaves the first
    [n] bytes of the encoding in the buffer. *)
Theorem write_into_slice (w : MintAsset) (n : nat) :
  write_into w (slice_sink n) =
  if (length (write w) <=? n)%nat then (Ok tt, mkSink (write w) (Some n))
  else (Err WriteZero, mkSink (firstn n (write w)) (Some n)).
Proof. apply writes_slice, write_into_writes. Qed.

(** What a successful [read] returns: a valid witness in the decoder's
    representation. *)
Lemma read_Ok bs w rest : read bs = Ok (w, rest) ->
  witness_valid w = true /\ canon w = w.
Proof.
  intros Hr. unfold read in Hr.
  apply rbind_Ok in Hr; destruct Hr as (b & mid & Hb & Hr). apply read_u8_Ok in Hb as ->.
  apply rbind_Ok in Hr; destruct Hr as (pg & mid0 & Hpg & Hr).
  assert (Hw : proof_generation_key w = pg).
  { apply rbind_Ok in Hr; destruct Hr as (? & ? & _ & Hr). apply rbind_Ok in Hr; destruct Hr as (? & ? & _ & Hr).
    now apply rret_Ok in Hr as [-> _]. }
  destruct w as [pg' ar]. cbn in Hw. subst pg'. unfold witness_valid, canon. cbn.
  destruct (Byte.eqb b Byte.x01) eqn:Eb.
  - apply rbind_Ok in Hpg; destruct Hpg as (k & mid1 & Hk & Hpg). apply rret_Ok in Hpg as [-> ->].
    apply pgk_read_sound in Hk as (Hv & Hc & _). cbn. now rewrite Hv, Hc.
  - apply rret_Ok in Hpg as [-> _]. split; reflexivity.
Qed.

(** C5: round trip: for every witness whose key the key encoding can
    carry, [read] consumes exactly the bytes [write] wrote, with its four
    combinations of presence, and returns the same witness ([witness_equiv]:
    the same [ak] point, [nsk] and [ar]) in the representation the key
    decoder rebuilds. *)
Theorem read_write (w : MintAsset) (rest : list Byte.byte) :
  witness_valid w = true ->
  read (write w ++ rest) = Ok (canon w, rest) /\ witness_equiv (canon w) w.
Proof. intros Hw. split; [now apply read_decodes_write | apply canon_equiv]. Qed.

(** C12: a [write] output of a valid witness cut short anywhere is an
    [UnexpectedEof] error of [read], never a witness nor a panic. *)
Theorem read_truncated (w : MintAsset) (n : nat) :
  witness_valid w = true ->
  (n < length (write w))%nat -> read (firstn n (write w)) = Err (IoError UnexpectedEof).
Proof. intros Hw. now apply read_truncation_fails_write. Qed.

(** C14: [read] takes any presence byte other than [1] for an absent value
    (the specification only speaks of [0] and [1]). *)
Theorem read_presence_not_one (b1 b2 : Byte.byte) (rest : list Byte.byte) :
  b1 <> Byte.x01 -> b2 <> Byte.x01 ->
  read (b1 :: b2 :: rest) = Ok (mkMintAsset None None, rest).
Proof.
  intros H1 H2.
  refine (presence_none_decodes _ _ b1 [b2] _ (byte_eqb_neq _ _ H1) _ rest).
  apply (presence_none_decodes _ _ b2 []); [now apply byte_eqb_neq | apply rret_decodes].
Qed.

(** C13: a non-canonical [ar] (32 bytes whose value is not below the modulus
    of [Fr]) makes [read] panic in [Fr::from_bytes(..).unwrap()] instead of
    returning an error. *)
Theorem read_noncanonical_ar_panics (b : Byte.byte) (bytes rest : list Byte.byte) :
  b <> Byte.x01 -> length bytes = 32%nat -> Zpos Fr.modulus <= le_value bytes ->
  read (b :: Byte.x01 :: bytes ++ rest) = Err (Panicked UnwrapNone).
Proof.
  intros Hb Hl Hv. cbv [read rbind read_u8 rret rfail].
  rewrite (byte_eqb_neq _ _ Hb). change (Byte.eqb Byte.x01 Byte.x01) with true. cbv beta iota.
  rewrite (read_exact_decodes 32 bytes Hl rest).
  now rewrite (proj2 (from_bytes_None bytes) (or_intror Hv)).
Qed.

(** C10: the serde bridge round-trips: [Deserialize::deserialize] of the
    blob [serialize] produces gives the valid witness back (in the decoder's
    representation), whatever bytes follow it. *)
Theorem deserialize_output_serialize (w : MintAsset) (junk : list Byte.byte) :
  witness_valid w = true -> deserialize (serialize w ++ junk) = Ok (canon w).
Proof.
  intros Hw. unfold deserialize, deserialize_output, visit_bytes, serialize.
  now rewrite (read_decodes_write w Hw junk).
Qed.

(** C15: [Deserialize::deserialize] panics ([unwrap] of the I/O error in
    [visit_bytes]) on a truncated blob, where the specification asks for an
    error of the framework. *)
Theorem deserialize_output_truncated (w : MintAsset) (n : nat) :
  witness_valid w = true ->
  (n < length (serialize w))%nat -> deserialize (firstn n (serialize w)) = Err UnwrapErr.
Proof.
  intros Hw Hn. unfold deserialize, deserialize_output, visit_bytes, serialize in *.
  now rewrite (read_truncation_fails_write w Hw n Hn).
Qed.
(** C22: re-encoding what [read] returned reads back exactly the same
    witness (not only an equivalent one), consuming exactly the encoding. *)
Theorem read_write_read (bs : list Byte.byte) (w : MintAsset) (rest : list Byte.byte) :
  read bs = Ok (w, rest) -> read (write w ++ rest) = Ok (w, rest).
Proof.
  intros Hr. destruct (read_Ok _ _ _ Hr) as [Hv Hc].
  rewrite <- Hc at 2. now apply read_decodes_write.
Qed.

(** C24: the witness [read] gets back from [write w] synthesizes exactly
    the constraint system [w] synthesizes, from any state: the test could
    synthesize its deserialized [mint_asset] in place of [circuit]. *)
Theorem synthesize_read_write `{Constants} `{Blake2s} (w : MintAsset) (rest : list Byte.byte) (cs : CS) :
  witness_valid w = true ->
  exists w', read (write w ++ rest) = Ok (w', rest) /\ synthesize w' cs = synthesize w cs.
Proof.
  intros Hw. exists (canon w). split; [now apply read_decodes_write|].
  apply synthesize_Proper; [apply canon_equiv | reflexivity].
Qed.
End Codec.

(** ** With the compressed key encoding of the specification *)
Section CompressedCodec.
#[local] Existing Instance compressed_pgk_codec.

(** C23: ZIP 216 through [read]: a key whose [ak] bytes are the encoding of
    a point with [u = 0] ([v = 1] or [v = -1]) with the sign bit set makes
    [read] fail with [InvalidInput], propagated by the [?] of
    [ProofGenerationKey::read(&mut reader)?], whatever follows. *)
Theorem read_zip216 (v : Fq.t) (rest : list Byte.byte) :
  mul v v = one ->
  read (Byte.x01 :: le_bytes 32 (val v + 2 ^ 255) ++ rest) = Err (IoError InvalidInput).
Proof.
  intros Hv. cbv [read rbind read_u8 rret]. change (Byte.eqb Byte.x01 Byte.x01) with true.
  cbv iota. cbn [pgk_read compressed_pgk_codec]. unfold CompressedPgkCodec.read, rbind.
  rewrite (read_exact_decodes 32 _ (length_le_bytes 32 _) rest).
  unfold subgroup_from_bytes. now rewrite point_from_bytes_zip216.
Qed.
End CompressedCodec.
End MintAssetCodec.

Module MintAssetCodecWitnesses.
Import MintAssetCodec.
#[local] Existing Instance compressed_pgk_codec.

(** A witness with a key: [ak] the identity (on the curve and torsion
    free), [nsk = ar = 0]. *)
Definition identity_witness : MintAsset :=
  mkMintAsset (Some (mkProofGenerationKey ext_identity zero)) (Some zero).

Lemma read_write_witness :
  witness_valid identity_witness = true /\
  read (write identity_witness ++ []) = Ok (canon identity_witness, []) /\
  witness_equiv (canon identity_witness) identity_witness.
Proof.
  assert (H : witness_valid identity_witness = true) by (vm_compute; reflexivity).
  split; [exact H | apply (read_write identity_witness [] H)].
Defined.

Lemma read_truncated_witness :
  read (firstn 40 (write identity_witness)) = Err (IoError UnexpectedEof).
Proof. apply (read_truncated identity_witness 40); [vm_compute; reflexivity | cbn; lia]. Defined.

Lemma read_presence_not_one_witness :
  read [Byte.x00; Byte.x02] = Ok (mkMintAsset None None, []).
Proof. apply (read_presence_not_one Byte.x00 Byte.x02 []); discriminate. Defined.

Lemma read_noncanonical_ar_panics_witness :
  read (Byte.x00 :: Byte.x01 :: repeat Byte.xff 32 ++ []) = Err (Panicked UnwrapNone).
Proof.
  apply (read_noncanonical_ar_panics Byte.x00 (repeat Byte.xff 32) []);
    [discriminate | reflexivity | vm_compute; discriminate].
Defined.

Lemma deserialize_output_serialize_witness :
  deserialize (serialize identity_witness ++ [Byte.x07]) = Ok (canon identity_witness).
Proof. apply (deserialize_output_serialize identity_witness [Byte.x07]). vm_compute. reflexivity. Defined.

Lemma deserialize_output_truncated_witness :
  deserialize (firstn 1 (serialize identity_witness)) = Err UnwrapErr.
Proof. apply (deserialize_output_truncated identity_witness 1); [vm_compute; reflexivity | cbn; lia]. Defined.

Lemma synthesize_read_write_witness :
  witness_valid identity_witness = true /\
  exists w', read (write identity_witness ++ []) = Ok (w', []) /\
    @synthesize test_constants blake2s_instance w' (new_cs Proving) =
    @synthesize test_constants blake2s_instance identity_witness (new_cs Proving).
Proof.
  assert (H : witness_valid identity_witness = true) by (vm_compute; reflexivity).
  split; [exact H | apply (synthesize_read_write identity_witness [] (new_cs Proving) H)].
Defined.

Lemma read_canon_identity :
  read (write identity_witness ++ []) = Ok (canon identity_witness, []).
Proof. apply read_decodes_write. vm_compute. reflexivity. Qed.

Lemma read_write_read_witness :
  read (write identity_witness ++ []) = Ok (canon identity_witness, []) /\
  read (write (canon identity_witness) ++ []) = Ok (canon identity_witness, []).
Proof. split; [exact read_canon_identity | exact (read_write_read _ _ _ read_canon_identity)]. Defined.

Lemma read_zip216_witness :
  read (Byte.x01 :: le_bytes 32 (val (@one Fq.modulus) + 2 ^ 255) ++ []) = Err (IoError InvalidInput).
Proof. apply read_zip216. apply Fe_eq. vm_compute. reflexivity. Defined.

End MintAssetCodecWitnesses.
