(* ===== verification/MintAssetTest.v ===== *)
(** * The test of the Mint-Asset circuit

    [test_mint_asset_circuit] of [src/ironfish-zkp/src/circuits/mint_asset.rs]
    composes the components: it derives the public inputs out of circuit,
    writes the witness and reads it back, synthesizes the circuit on a
    [TestConstraintSystem], and asserts satisfaction, acceptance of the
    public inputs, and rejection of inputs whose [rk.u] is replaced by the
    [u] of a random point.  The random draws ([ak], [nsk], [ar] and the two
    random points) are its arguments; a panic ([unwrap], an index) and a
    failed [assert!] (named by its source line) are its failures.  The
    constraint-count assertion is not modelled (the gadgets' R1CS internals
    are abstracted).

    Theorems: the outcome of the test for every draw whose key the key
    encoding can carry ([test_outcome], for any encoding); with the
    compressed encoding of the specification and [ak] in the prime-order
    subgroup, the test panics exactly when [ak] has small order, fails at
    line 252 exactly when the random point has the [u] of [rk], and passes
    otherwise: line 243 cannot fail.  The
    [bad_inputs] with a wrong public address are built but never
    checked. *)

From Stdlib Require Import Strings.String ZArith List Lia Bool Strings.Byte.
From stdpp Require Import base decidable option list.
From S2P Require Import Prelude Encoding Field Jubjub Decompress Gadgets Blake2sRef MintAsset IoReader PgkCodec MintAssetCodec.
Import ListNotations.
Local Open Scope Z_scope.
Local Open Scope iron_scope.
Import MintAsset MintAssetCodec.

Module MintAssetTest.

Inductive TestFailure :=
| TestPanic (p : Panic)
| AssertionFailed (line : nat).

(** [v[i] = x] on a [Vec]: [None] is the index panic. *)
Fixpoint vec_set {A} (v : list A) (i : nat) (x : A) : option (list A) :=
  match v, i with
  | [], _ => None
  | _ :: v, O => Some (x :: v)
  | y :: v, S i => option_map (cons y) (vec_set v i x)
  end.

(** [assert!(b)] at a source line. *)
Definition assert (line : nat) (b : bool) : result TestFailure unit :=
  if b then Ok tt else Err (AssertionFailed line).

Section Test.
Context `{Constants} `{Blake2s} `{ProofGenerationKeyCodec}.

Definition test_mint_asset_circuit (ak : ExtendedPoint) (nsk ar : Fr.t)
    (bad_randomized_public_key_point bad_public_address : AffinePoint)
    : result TestFailure unit :=
  let proof_generation_key := mkProofGenerationKey ak nsk in
  public_inputs <-
    match public_inputs proof_generation_key ar with
    | Some l => Ok l
    | None => Err (TestPanic UnwrapNone)
    end ;;
  let circuit := mkMintAsset (Some proof_generation_key) (Some ar) in
  let writer := write circuit in
  _ <-
    match read writer with
    | Ok (mint_asset, _) => Ok mint_asset
    | Err (IoError _) => Err (TestPanic UnwrapErr)
    | Err (Panicked p) => Err (TestPanic p)
    end ;;
  cs <-
    match synthesize circuit (new_cs Proving) with
    | Ok (_, cs) => Ok cs
    | Err _ => Err (TestPanic UnwrapErr)
    end ;;
  _ <- assert 243 (cs_sat cs) ;;
  _ <- assert 244 (verify cs public_inputs) ;;
  bad_inputs <-
    match vec_set public_inputs 0 (get_u bad_randomized_public_key_point) with
    | Some l => Ok l
    | None => Err (TestPanic IndexOutOfBounds)
    end ;;
  _ <- assert 252 (negb (verify cs bad_inputs)) ;;
  _ <-
    match vec_set public_inputs 2 (get_u bad_public_address) with
    | Some l => Ok l
    | None => Err (TestPanic IndexOutOfBounds)
    end ;;
  assert 260 (verify cs public_inputs).


Lemma read_write_nil (w : MintAsset) : witness_valid w = true -> read (write w) = Ok (canon w, []).
Proof. intros Hw. rewrite <- (app_nil_r (write w)). now apply read_decodes_write. Qed.

Lemma list4_eq_head {A} (x y a b c : A) : [x; a; b; c] = [y; a; b; c] <-> x = y.
Proof. split; [congruence | now intros ->]. Qed.

(** The outcome, for any key encoding. *)
Lemma test_outcome (ak : ExtendedPoint) (nsk ar : Fr.t)
    (bad_rk bad_pk_d : AffinePoint) :
  pgk_valid (mkProofGenerationKey ak nsk) = true ->
  let rk := point_add (to_affine ak) (scalar_mul (val ar) (to_affine SPENDING_KEY_GENERATOR)) in
  test_mint_asset_circuit ak nsk ar bad_rk bad_pk_d =
  if small_order_u (to_affine ak) then Err (TestPanic UnwrapErr)
  else if negb (is_on_curve (to_affine ak)) then Err (AssertionFailed 243)
  else if bool_decide (get_u bad_rk = get_u rk) then Err (AssertionFailed 252)
  else Ok tt.
Proof.
  intros Hk rk. unfold test_mint_asset_circuit. cbv zeta.
  destruct (small_order_u (to_affine ak)) eqn:E.
  - pose proof (public_inputs_eq ak nsk ar) as Hp. cbv zeta in Hp. rewrite Hp. cbn [bind].
    rewrite read_write_nil, proving_small_order by assumption. reflexivity.
  - destruct (proving_run ak nsk ar E) as [ins [Hp Hs]]. rewrite Hp. cbn [bind].
    rewrite read_write_nil, Hs by assumption. cbn [bind cs_sat].
    pose proof (public_inputs_eq ak nsk ar) as Hq. cbv zeta in Hq.
    rewrite Hq in Hp. apply Some_inj' in Hp. subst ins.
    destruct (is_on_curve (to_affine ak)); cbn [negb assert bind vec_set option_map];
      [|reflexivity].
    rewrite !verify_mkCS, (bool_decide_ext _ _ (list4_eq_head _ _ _ _ _)).
    rewrite !(bool_decide_eq_true_2 _ eq_refl). cbn [negb assert bind]. fold rk.
    destruct (decide (get_u bad_rk = get_u rk)) as [Heq|Hne].
    + rewrite !bool_decide_eq_true_2 by congruence. reflexivity.
    + rewrite !bool_decide_eq_false_2 by congruence. reflexivity.
Qed.

End Test.

Section CompressedTest.
Context `{Constants} `{Blake2s}.
#[local] Existing Instance compressed_pgk_codec.

(** C6: with the key encoding of the specification (compressed [ak]) and
    [ak] a point of the prime-order subgroup, the test never fails its
    satisfaction assertion: it panics exactly when [ak] has small order,
    fails the bad-[rk] assertion exactly when the random point has the [u]
    of [rk], and passes otherwise. *)
Theorem test_mint_asset_circuit_compressed (ak : ExtendedPoint) (nsk ar : Fr.t)
    (bad_rk bad_pk_d : AffinePoint) :
  is_on_curve (to_affine ak) = true -> is_torsion_free ak = true ->
  let rk := point_add (to_affine ak) (scalar_mul (val ar) (to_affine SPENDING_KEY_GENERATOR)) in
  test_mint_asset_circuit ak nsk ar bad_rk bad_pk_d =
  if small_order_u (to_affine ak) then Err (TestPanic UnwrapErr)
  else if bool_decide (get_u bad_rk = get_u rk) then Err (AssertionFailed 252)
  else Ok tt.
Proof.
  intros Hc Ht rk. rewrite test_outcome by (cbn; unfold CompressedPgkCodec.valid; cbn; now rewrite Hc, Ht).
  now rewrite Hc.
Qed.
End CompressedTest.
End MintAssetTest.

Module MintAssetTestWitnesses.
Import MintAssetTest.
#[local] Existing Instance test_constants.
#[local] Existing Instance compressed_pgk_codec.

Lemma test_mint_asset_circuit_compressed_witness :
  is_on_curve (to_affine ext_identity) = true /\ is_torsion_free ext_identity = true /\
  test_mint_asset_circuit ext_identity zero zero identity identity =
  if small_order_u (to_affine ext_identity) then Err (TestPanic UnwrapErr)
  else if bool_decide (get_u identity =
         get_u (point_add (to_affine ext_identity)
                  (scalar_mul (val (@zero Fr.modulus)) (to_affine SPENDING_KEY_GENERATOR))))
       then Err (AssertionFailed 252)
  else Ok tt.
Proof.
  assert (Hc : is_on_curve (to_affine ext_identity) = true) by (vm_compute; reflexivity).
  assert (Ht : is_torsion_free ext_identity = true) by (vm_compute; reflexivity).
  split; [exact Hc | split; [exact Ht |]].
  apply (test_mint_asset_circuit_compressed ext_identity zero zero identity identity Hc Ht).
Defined.

End MintAssetTestWitnesses.
